(** * esp-serial: framing pipeline and transport adapters

    A shallow embedding of the TypeScript sources of the ESP IoT monitor
    (src/utils/serialTransforms.ts, src/utils/bleTransforms.ts,
    src/composables/useSerial.ts, the SerialManager variant of useSerial,
    useBluetooth and the read loop of App.vue), followed by the properties
    proved about them.

    JavaScript strings are sequences of UTF-16 code units and are modelled
    as [list Z]; byte arrays are [list Z] with values below 256. *)

From Stdlib Require Import String Ascii DecimalString ZArith List Bool Lia.
Import ListNotations.
Open Scope Z_scope.

(* ===================================================================== *)
(** * Part I: the embedding                                               *)
(* ===================================================================== *)

(** ** JavaScript values used by the sources *)

Module JS.

(** A JavaScript string: its UTF-16 code units. *)
Definition jsstring := list Z.

(** A [Uint8Array] chunk: its bytes. *)
Definition bytes := list Z.

(** Code units of an ASCII literal, for readable examples. *)
Fixpoint lit (s : string) : jsstring :=
  match s with
  | EmptyString => []
  | String a s' => Z.of_N (N_of_ascii a) :: lit s'
  end.

(** ['\n'] and ['\r']. *)
Definition NL : Z := 10.
Definition CR : Z := 13.

(** [String.prototype.split(sep)] for a separator of one code unit: the
    substrings between the occurrences of the separator; the empty string
    splits to one empty fragment. *)
Fixpoint split (sep : Z) (s : jsstring) : list jsstring :=
  match s with
  | [] => [[]]
  | c :: s' =>
      if c =? sep then [] :: split sep s'
      else match split sep s' with
           | [] => [[c]]
           | l :: ls => (c :: l) :: ls
           end
  end.

(** [Array.prototype.join(sep)] on strings. *)
Fixpoint join (sep : Z) (ls : list jsstring) : jsstring :=
  match ls with
  | [] => []
  | [l] => l
  | l :: ls' => l ++ sep :: join sep ls'
  end.

(** [Array.prototype.pop()]: the last element ([undefined] on an empty
    array, here [None]) and the array that remains. *)
Fixpoint pop {A : Type} (l : list A) : option A * list A :=
  match l with
  | [] => (None, [])
  | x :: l' =>
      match l' with
      | [] => (Some x, [])
      | _ :: _ => let (r, rest) := pop l' in (r, x :: rest)
      end
  end.

(** Truthiness of a string: the empty string is falsy. *)
Definition truthy (s : jsstring) : bool :=
  match s with [] => false | _ :: _ => true end.

(** [x || d] where [x] is a string or [undefined]. *)
Definition or_else (x : option jsstring) (d : jsstring) : jsstring :=
  match x with
  | Some s => if truthy s then s else d
  | None => d
  end.

End JS.

(** ** TransformStream: a transformer with private state *)

Module TransformStream.

(** The transformer object handed to [new TransformStream({...})]: the
    state captured by its closures, [transform] called once per chunk and
    [flush] called when the writable side closes. Each returns the state
    left behind and the chunks it enqueued, in order. *)
Record transformer (St I O : Type) : Type := Transformer {
  start : St;
  transform : St -> I -> St * list O;
  flush : St -> St * list O
}.
Arguments Transformer {St I O}.
Arguments start {St I O}.
Arguments transform {St I O}.
Arguments flush {St I O}.

(** Writing [chunks] one after the other. *)
Fixpoint write_all {St I O} (t : transformer St I O) (st : St)
  (chunks : list I) : St * list O :=
  match chunks with
  | [] => (st, [])
  | c :: rest =>
      let (st1, out1) := transform t st c in
      let (st2, out2) := write_all t st1 rest in
      (st2, out1 ++ out2)
  end.

(** Writing [chunks] and closing: everything read from the readable side. *)
Definition run {St I O} (t : transformer St I O) (chunks : list I) : list O :=
  let (st, out) := write_all t (start t) chunks in
  out ++ snd (flush t st).

(** [a.pipeThrough(t2)] after [t1]: the chunks enqueued by [t1] are
    written to [t2]; closing flushes [t1], then [t2]. *)
Definition pipeThrough {S1 S2 I M O} (t1 : transformer S1 I M)
  (t2 : transformer S2 M O) : transformer (S1 * S2) I O :=
  Transformer (start t1, start t2)
    (fun st c =>
       let (st1, mid) := transform t1 (fst st) c in
       let (st2, out) := write_all t2 (snd st) mid in
       ((st1, st2), out))
    (fun st =>
       let (st1, mid) := flush t1 (fst st) in
       let (st2, out) := write_all t2 (snd st) mid in
       let (st3, out') := flush t2 st2 in
       ((st1, st3), out ++ out')).

End TransformStream.

(** ** src/utils/serialTransforms.ts: LineBreakTransformer *)

Module LineBreakTransformer.
Import JS.

(** [transform(chunk, controller)]: the closure variable [buffer] is the
    state. *)
Definition transform (buffer chunk : jsstring) : jsstring * list jsstring :=
  let buffer := buffer ++ chunk in
  let lines := split NL buffer in
  let (last, lines) := pop lines in
  let buffer := or_else last [] in
  (buffer, lines).

(** [flush(controller)]: enqueues the buffer when it is truthy; [buffer]
    is not assigned. *)
Definition flush (buffer : jsstring) : jsstring * list jsstring :=
  if truthy buffer then (buffer, [buffer]) else (buffer, []).

(** [new LineBreakTransformer()]: [let buffer = ''] and the two closures. *)
Definition make : TransformStream.transformer jsstring jsstring jsstring :=
  TransformStream.Transformer [] transform flush.

End LineBreakTransformer.

(** ** The platform's text codecs

    [TextEncoder] and [TextDecoder] belong to the browser, not to the
    repository. They are modelled after the algorithms of the WHATWG
    Encoding Standard (UTF-8 encoder, UTF-8 decoder, the [decode] method
    with its [stream] option and byte-order-mark handling) and of Web IDL
    (conversion of a JavaScript string to scalar values), for the options
    the sources use: encoding 'utf-8', [fatal] and [ignoreBOM] left at
    their default [false]. *)

Module Encoding.
Import JS.

Definition REPLACEMENT : Z := 0xFFFD.
Definition BOM : Z := 0xFEFF.

Definition in_range (lo hi x : Z) : bool := (lo <=? x) && (x <=? hi).

Definition is_surrogate (c : Z) : bool := in_range 0xD800 0xDFFF c.
Definition is_lead_surrogate (c : Z) : bool := in_range 0xD800 0xDBFF c.
Definition is_trail_surrogate (c : Z) : bool := in_range 0xDC00 0xDFFF c.

(** A Unicode scalar value: a code point that is not a surrogate. *)
Definition is_scalar_value (cp : Z) : bool :=
  in_range 0 0x10FFFF cp && negb (is_surrogate cp).

(** [String.prototype.isWellFormed()]: code units of 16 bits, every
    surrogate part of a pair. *)
Fixpoint isWellFormed (s : jsstring) : bool :=
  match s with
  | [] => true
  | c :: s' =>
      if negb (is_surrogate c) then in_range 0 0xFFFF c && isWellFormed s'
      else if is_lead_surrogate c then
        match s' with
        | [] => false
        | d :: s'' => is_trail_surrogate d && isWellFormed s''
        end
      else false
  end.

(** Web IDL, conversion of a string to a sequence of scalar values:
    a surrogate pair is one scalar value, a surrogate without its partner
    becomes U+FFFD. *)
Fixpoint to_scalar_values (s : jsstring) : list Z :=
  match s with
  | [] => []
  | c :: s' =>
      if negb (is_surrogate c) then c :: to_scalar_values s'
      else if is_trail_surrogate c then REPLACEMENT :: to_scalar_values s'
      else
        match s' with
        | [] => [REPLACEMENT]
        | d :: s'' =>
            if is_trail_surrogate d
            then (0x10000 + 2 ^ 10 * Z.land c 0x3FF + Z.land d 0x3FF)
                   :: to_scalar_values s''
            else REPLACEMENT :: to_scalar_values s'
        end
  end.

(** The code units of one scalar value in a JavaScript string. *)
Definition code_units (cp : Z) : jsstring :=
  if cp <=? 0xFFFF then [cp]
  else [0xD800 + Z.shiftr (cp - 0x10000) 10;
        0xDC00 + Z.land (cp - 0x10000) 0x3FF].

Definition from_scalar_values (cps : list Z) : jsstring :=
  flat_map code_units cps.

(** UTF-8 encoder, the continuation bytes: while [count] is greater than 0,
    [temp = code point >> (6 * (count - 1))], append [0x80 | (temp & 0x3F)]. *)
Fixpoint utf8_continuation (cp : Z) (count : nat) : bytes :=
  match count with
  | O => []
  | S n =>
      Z.lor 0x80 (Z.land (Z.shiftr cp (6 * Z.of_nat n)) 0x3F)
        :: utf8_continuation cp n
  end.

(** UTF-8 encoder, one scalar value. *)
Definition utf8_encode (cp : Z) : bytes :=
  if in_range 0x00 0x7F cp then [cp]
  else
    let '(count, offset) :=
      if in_range 0x0080 0x07FF cp then (1%nat, 0xC0)
      else if in_range 0x0800 0xFFFF cp then (2%nat, 0xE0)
      else (3%nat, 0xF0) in
    (Z.shiftr cp (6 * Z.of_nat count) + offset) :: utf8_continuation cp count.

(** [new TextEncoder().encode(s)]. *)
Definition TextEncoder_encode (s : jsstring) : bytes :=
  flat_map utf8_encode (to_scalar_values s).

(** State of the UTF-8 decoder. *)
Record utf8_decoder : Type := Utf8Decoder {
  code_point : Z;
  bytes_seen : Z;
  bytes_needed : Z;
  lower_boundary : Z;
  upper_boundary : Z
}.

Definition utf8_decoder_new : utf8_decoder := Utf8Decoder 0 0 0 0x80 0xBF.

(** UTF-8 decoder handler, step 3: a byte read while no byte is needed.
    Returns the state and the scalar values emitted (U+FFFD for an error,
    the error mode being replacement). *)
Definition handle_lead (d : utf8_decoder) (byte : Z)
  : utf8_decoder * list Z :=
  if in_range 0x00 0x7F byte then (d, [byte])
  else if in_range 0xC2 0xDF byte then
    (Utf8Decoder (Z.land byte 0x1F) (bytes_seen d) 1
       (lower_boundary d) (upper_boundary d), [])
  else if in_range 0xE0 0xEF byte then
    let lower := if byte =? 0xE0 then 0xA0 else lower_boundary d in
    let upper := if byte =? 0xED then 0x9F else upper_boundary d in
    (Utf8Decoder (Z.land byte 0xF) (bytes_seen d) 2 lower upper, [])
  else if in_range 0xF0 0xF4 byte then
    let lower := if byte =? 0xF0 then 0x90 else lower_boundary d in
    let upper := if byte =? 0xF4 then 0x8F else upper_boundary d in
    (Utf8Decoder (Z.land byte 0x7) (bytes_seen d) 3 lower upper, [])
  else (d, [REPLACEMENT]).

(** UTF-8 decoder handler for one byte. When the byte is outside the
    boundaries the state is reset, the byte is restored to the queue and an
    error is returned; the restored byte is then read again with no byte
    needed, which is step 3. *)
Definition handler (d : utf8_decoder) (byte : Z) : utf8_decoder * list Z :=
  if bytes_needed d =? 0 then handle_lead d byte
  else if negb (in_range (lower_boundary d) (upper_boundary d) byte) then
    let (d', out) := handle_lead utf8_decoder_new byte in
    (d', REPLACEMENT :: out)
  else
    let cp := Z.lor (Z.shiftl (code_point d) 6) (Z.land byte 0x3F) in
    let seen := bytes_seen d + 1 in
    if seen =? bytes_needed d then (Utf8Decoder 0 0 0 0x80 0xBF, [cp])
    else (Utf8Decoder cp seen (bytes_needed d) 0x80 0xBF, []).

(** UTF-8 decoder handler at end-of-queue: an unfinished sequence is an
    error. *)
Definition handle_end (d : utf8_decoder) : utf8_decoder * list Z :=
  if negb (bytes_needed d =? 0)
  then (Utf8Decoder (code_point d) (bytes_seen d) 0
          (lower_boundary d) (upper_boundary d), [REPLACEMENT])
  else (d, []).

(** Processing the bytes of the I/O queue in order. *)
Fixpoint process_queue (d : utf8_decoder) (input : bytes)
  : utf8_decoder * list Z :=
  match input with
  | [] => (d, [])
  | byte :: rest =>
      let (d1, out1) := handler d byte in
      let (d2, out2) := process_queue d1 rest in
      (d2, out1 ++ out2)
  end.

(** "Serialize I/O queue": with [ignoreBOM] false, the first scalar value
    produced since [BOM seen] was cleared is dropped when it is U+FEFF. *)
Definition serialize (bom_seen : bool) (output : list Z) : bool * list Z :=
  match output with
  | [] => (bom_seen, [])
  | item :: rest =>
      if bom_seen then (true, output)
      else (true, if item =? BOM then rest else output)
  end.

(** A [TextDecoder] object for UTF-8. *)
Record TextDecoder : Type := MkTextDecoder {
  decoder : utf8_decoder;
  BOM_seen : bool;
  do_not_flush : bool
}.

(** [new TextDecoder()], [new TextDecoder('utf-8')]. *)
Definition TextDecoder_new : TextDecoder :=
  MkTextDecoder utf8_decoder_new false false.

(** [decoder.decode(input, { stream })]; [decoder.decode(input)] is
    [stream = false]. *)
Definition decode (td : TextDecoder) (input : bytes) (stream : bool)
  : TextDecoder * jsstring :=
  let td :=
    if do_not_flush td then td
    else MkTextDecoder utf8_decoder_new false (do_not_flush td) in
  let (d, out) := process_queue (decoder td) input in
  if stream then
    let (seen, items) := serialize (BOM_seen td) out in
    (MkTextDecoder d seen true, from_scalar_values items)
  else
    let (d', fin) := handle_end d in
    let (seen, items) := serialize (BOM_seen td) (out ++ fin) in
    (MkTextDecoder d' seen false, from_scalar_values items).

End Encoding.

(** ** src/utils/serialTransforms.ts: TextDecoderStream, createSerialReader *)

Module TextDecoderStream.
Import JS.

(** [transform(chunk, controller)]:
    [controller.enqueue(decoder.decode(chunk, { stream: true }))]. The
    closure variable [decoder] is the state. *)
Definition transform (decoder : Encoding.TextDecoder) (chunk : bytes)
  : Encoding.TextDecoder * list jsstring :=
  let (decoder, text) := Encoding.decode decoder chunk true in
  (decoder, [text]).

(** [new TextDecoderStream()]: the transformer has no [flush]. *)
Definition make
  : TransformStream.transformer Encoding.TextDecoder bytes jsstring :=
  TransformStream.Transformer Encoding.TextDecoder_new transform
    (fun decoder => (decoder, [])).

End TextDecoderStream.

Module SerialTransforms.

(** [createSerialReader(port)]:
    [port.readable.pipeThrough(new TextDecoderStream())
                  .pipeThrough(new LineBreakTransformer())]. *)
Definition createSerialReader :=
  TransformStream.pipeThrough TextDecoderStream.make LineBreakTransformer.make.

End SerialTransforms.

(** ** src/utils/bleTransforms.ts *)

Module BleTransforms.
Import JS.

(** A [Uint8Array]: a window on an [ArrayBuffer]. *)
Record Uint8Array : Type := MkUint8Array {
  u8_buffer : bytes;
  u8_byteOffset : nat;
  u8_length : nat
}.

(** A [DataView]: a window on an [ArrayBuffer]. *)
Record DataView : Type := MkDataView {
  buffer : bytes;
  byteOffset : nat;
  byteLength : nat
}.

(** The bytes seen through a [Uint8Array]. *)
Definition u8_contents (a : Uint8Array) : bytes :=
  firstn (u8_length a) (skipn (u8_byteOffset a) (u8_buffer a)).

(** [new DataView(a.buffer, a.byteOffset, a.byteLength)]. *)
Definition DataView_of (a : Uint8Array) : DataView :=
  MkDataView (u8_buffer a) (u8_byteOffset a) (u8_length a).

(** [dataViewToString(dataView)], with [encoding] at its default 'utf-8':
    a fresh decoder decodes the bytes of the view, without [stream]. *)
Definition dataViewToString (dataView : DataView) : jsstring :=
  let decoder := Encoding.TextDecoder_new in
  let buffer :=
    MkUint8Array (buffer dataView) (byteOffset dataView) (byteLength dataView) in
  snd (Encoding.decode decoder (u8_contents buffer) false).

(** [stringToUint8Array(str)]: [encoder.encode(str)] returns an array on a
    buffer of its own. *)
Definition stringToUint8Array (str : jsstring) : Uint8Array :=
  let encoded := Encoding.TextEncoder_encode str in
  MkUint8Array encoded 0 (List.length encoded).

End BleTransforms.

(** ** App.vue (serial and Bluetooth variant): the read loop *)

Module App.
Import JS.

(** The code units removed by [String.prototype.trim()]: white space and
    line terminators. *)
Definition is_whitespace (c : Z) : bool :=
  Encoding.in_range 0x09 0x0D c || (c =? 0x20) || (c =? 0xA0) ||
  (c =? 0x1680) || Encoding.in_range 0x2000 0x200A c ||
  (c =? 0x2028) || (c =? 0x2029) || (c =? 0x202F) || (c =? 0x205F) ||
  (c =? 0x3000) || (c =? 0xFEFF).

Fixpoint trimStart (s : jsstring) : jsstring :=
  match s with
  | [] => []
  | c :: s' => if is_whitespace c then trimStart s' else s
  end.

Definition trim (s : jsstring) : jsstring :=
  rev (trimStart (rev (trimStart s))).

(** One turn of the [while] loop of [startReading] when [reader.read()]
    resolves with a chunk [value]: [textDecoder.decode(value)], then
    [text.split('\n')], then every line with [line.trim()] truthy is
    pushed to [messages]. *)
Definition read_turn (textDecoder : Encoding.TextDecoder)
  (messages : list jsstring) (value : bytes)
  : Encoding.TextDecoder * list jsstring :=
  let (textDecoder, text) := Encoding.decode textDecoder value false in
  let lines := split NL text in
  (textDecoder, messages ++ filter (fun line => truthy (trim line)) lines).

(** The loop over the chunks read until the stream is done. *)
Fixpoint read_loop (textDecoder : Encoding.TextDecoder)
  (messages : list jsstring) (values : list bytes) : list jsstring :=
  match values with
  | [] => messages
  | value :: rest =>
      let (textDecoder, messages) := read_turn textDecoder messages value in
      read_loop textDecoder messages rest
  end.

(** [startReading()] on a port that delivers [values]: the messages pushed,
    starting from [const textDecoder = new TextDecoder()]. *)
Definition startReading (messages : list jsstring) (values : list bytes)
  : list jsstring :=
  read_loop Encoding.TextDecoder_new messages values.

End App.

(** ** Async functions over reactive state

    A composable keeps its state in Vue refs and its functions are [async]:
    they read and assign the refs, await calls of the platform (each of
    which resolves or rejects) and catch what is thrown. A computation
    takes the platform's answers and the refs, and returns its result or
    what it throws, the refs it leaves and the calls it made, in order. *)

Module Async.

(** What a rejected promise or a [throw] carries: an [Error] (a
    [DOMException] is one) with its name and message, or any other value. *)
Inductive thrown : Type :=
| ErrorObject (name message : string)
| OtherValue.

(** [err instanceof Error ? err.message : fallback]. *)
Definition message_or (err : thrown) (fallback : string) : string :=
  match err with
  | ErrorObject _ message => message
  | OtherValue => fallback
  end.

Section Monad.
Variables Platform St Call : Type.

Definition M (A : Type) : Type :=
  Platform -> St -> (thrown + A) * St * list Call.

Definition ret {A} (a : A) : M A := fun _ s => (inr a, s, []).

Definition bind {A B} (m : M A) (k : A -> M B) : M B :=
  fun p s =>
    match m p s with
    | (inl e, s1, t1) => (inl e, s1, t1)
    | (inr a, s1, t1) =>
        let '(r, s2, t2) := k a p s1 in (r, s2, t1 ++ t2)
    end.

(** Reading a ref, assigning a ref. *)
Definition gets {A} (f : St -> A) : M A := fun _ s => (inr (f s), s, []).
Definition modify (f : St -> St) : M unit := fun _ s => (inr tt, f s, []).

(** [await call]: the call is made; it resolves with a value or rejects. *)
Definition await {A} (c : Call) (outcome : Platform -> thrown + A) : M A :=
  fun p s => (outcome p, s, [c]).

(** A call that returns nothing and does not throw. *)
Definition perform (c : Call) : M unit := fun _ s => (inr tt, s, [c]).

(** Reading a property of a platform object. *)
Definition observe {A} (f : Platform -> A) : M A :=
  fun p s => (inr (f p), s, []).

Definition throw {A} (e : thrown) : M A := fun _ s => (inl e, s, []).

(** [try { body } catch (err) { handler }]. *)
Definition try_catch {A} (body : M A) (handler : thrown -> M A) : M A :=
  fun p s =>
    match body p s with
    | (inl e, s1, t1) =>
        let '(r, s2, t2) := handler e p s1 in (r, s2, t1 ++ t2)
    | (inr a, s1, t1) => (inr a, s1, t1)
    end.

(** [if (x) { body }] for a nullable [x]. *)
Definition when_some {A} (x : option A) (body : A -> M unit) : M unit :=
  match x with
  | Some a => body a
  | None => ret tt
  end.

End Monad.

Arguments ret {Platform St Call A}.
Arguments bind {Platform St Call A B}.
Arguments gets {Platform St Call A}.
Arguments modify {Platform St Call}.
Arguments await {Platform St Call A}.
Arguments perform {Platform St Call}.
Arguments observe {Platform St Call A}.
Arguments throw {Platform St Call A}.
Arguments try_catch {Platform St Call A}.
Arguments when_some {Platform St Call A}.

Declare Scope async_scope.
Delimit Scope async_scope with async.
Notation "x <- m ;; k" := (bind m (fun x => k))
  (at level 61, m at next level, right associativity) : async_scope.
Notation "m ;; k" := (bind m (fun _ => k))
  (at level 61, right associativity) : async_scope.

End Async.

(** ** src/composables/useSerial.ts *)

Module UseSerial.
Import JS Async.
Local Open Scope async_scope.
Local Open Scope string_scope.

(** Platform objects are known by their identity. *)
Definition SerialPort := nat.
Definition Reader := nat.
Definition Writer := nat.

(** The refs of [useSerial()]. *)
Record state : Type := State {
  port : option SerialPort;
  isConnected : bool;
  error : option string;
  reader : option Reader;
  writer : option Writer
}.

Definition set_port v s :=
  State v (isConnected s) (error s) (reader s) (writer s).
Definition set_isConnected v s :=
  State (port s) v (error s) (reader s) (writer s).
Definition set_error v s :=
  State (port s) (isConnected s) v (reader s) (writer s).
Definition set_reader v s :=
  State (port s) (isConnected s) (error s) v (writer s).
Definition set_writer v s :=
  State (port s) (isConnected s) (error s) (reader s) v.

(** The calls made by [disconnect] and [write]. *)
Inductive call : Type :=
| ReaderCancel (r : Reader)
| WriterClose (w : Writer)
| PortClose (p : SerialPort)
| WriterWrite (w : Writer) (data : bytes)
| ConsoleError (label : string) (err : thrown).

(** How the platform answers them. *)
Record platform : Type := Platform {
  reader_cancel : Reader -> thrown + unit;
  writer_close : Writer -> thrown + unit;
  port_close : SerialPort -> thrown + unit;
  writer_write : Writer -> bytes -> thrown + unit
}.

Definition M := Async.M platform state call.

(** [disconnect]. *)
Definition disconnect : M unit :=
  try_catch
    (modify (set_error None) ;;
     (* Release reader if active *)
     r <- gets reader ;;
     when_some r (fun r =>
       await (ReaderCancel r) (fun p => reader_cancel p r) ;;
       modify (set_reader None)) ;;
     (* Release writer if active *)
     w <- gets writer ;;
     when_some w (fun w =>
       await (WriterClose w) (fun p => writer_close p w) ;;
       modify (set_writer None)) ;;
     (* Close port *)
     pt <- gets port ;;
     when_some pt (fun pt =>
       await (PortClose pt) (fun p => port_close p pt) ;;
       modify (set_port None)) ;;
     modify (set_isConnected false))
    (fun err =>
       modify (set_error (Some (message_or err "Failed to disconnect"))) ;;
       perform (ConsoleError "Disconnect failed:" err)).

(** [write(data)]. *)
Definition write (data : jsstring) : M unit :=
  w <- gets writer ;;
  match w with
  | None => modify (set_error (Some "No active connection"))
  | Some w =>
      try_catch
        (modify (set_error None) ;;
         let encoded := Encoding.TextEncoder_encode data in
         await (WriterWrite w encoded) (fun p => writer_write p w encoded))
        (fun err =>
           modify (set_error (Some (message_or err "Failed to write data"))) ;;
           perform (ConsoleError "Write failed:" err))
  end.

(** The byte arrays handed to [writer.write] in a trace. *)
Definition written (trace : list call) : list bytes :=
  flat_map (fun c => match c with WriterWrite _ data => [data] | _ => [] end)
    trace.

End UseSerial.

(** ** useSerial with the SerialManager of web-iot (unnamed/part_002) *)

Module UseSerialManager.
Import JS Async.
Local Open Scope async_scope.
Local Open Scope string_scope.

Definition SerialManager := nat.
Definition SerialPort := nat.
Definition Reader := nat.

(** The refs of [useSerial()]. *)
Record state : Type := State {
  manager : option SerialManager;
  port : option SerialPort;
  isConnected : bool;
  error : option string;
  reader : option Reader
}.

Definition set_port v s :=
  State (manager s) v (isConnected s) (error s) (reader s).
Definition set_isConnected v s :=
  State (manager s) (port s) v (error s) (reader s).
Definition set_error v s :=
  State (manager s) (port s) (isConnected s) v (reader s).
Definition set_reader v s :=
  State (manager s) (port s) (isConnected s) (error s) v.

Inductive call : Type :=
| ReaderCancel (r : Reader)
| ClosePort (m : SerialManager)
| WriteData (m : SerialManager) (data : bytes)
| ConsoleError (label : string) (err : thrown).

Record platform : Type := Platform {
  reader_cancel : Reader -> thrown + unit;
  closePort : SerialManager -> thrown + unit;
  writeData : SerialManager -> bytes -> thrown + unit
}.

Definition M := Async.M platform state call.

(** [disconnect]. *)
Definition disconnect : M unit :=
  try_catch
    (modify (set_error None) ;;
     (* Release reader if active *)
     r <- gets reader ;;
     when_some r (fun r =>
       await (ReaderCancel r) (fun p => reader_cancel p r) ;;
       modify (set_reader None)) ;;
     (* Close port *)
     m <- gets manager ;;
     pt <- gets port ;;
     match m, pt with
     | Some m, Some _ =>
         await (ClosePort m) (fun p => closePort p m) ;;
         modify (set_port None)
     | _, _ => ret tt
     end ;;
     modify (set_isConnected false))
    (fun err =>
       modify (set_error (Some (message_or err "Failed to disconnect"))) ;;
       perform (ConsoleError "Disconnect failed:" err)).

(** [write(data)]. *)
Definition write (data : jsstring) : M unit :=
  m <- gets manager ;;
  connected <- gets isConnected ;;
  match m, connected with
  | Some m, true =>
      try_catch
        (modify (set_error None) ;;
         let encoded := Encoding.TextEncoder_encode data in
         await (WriteData m encoded) (fun p => writeData p m encoded))
        (fun err =>
           modify (set_error (Some (message_or err "Failed to write data"))) ;;
           perform (ConsoleError "Write failed:" err))
  | _, _ => modify (set_error (Some "No active connection"))
  end.

(** The byte arrays handed to [manager.writeData] in a trace. *)
Definition written (trace : list call) : list bytes :=
  flat_map (fun c => match c with WriteData _ data => [data] | _ => [] end)
    trace.

End UseSerialManager.

(** ** useBluetooth (unnamed/part_001) *)

Module UseBluetooth.
Import JS Async.
Local Open Scope async_scope.
Local Open Scope string_scope.

(** Platform objects. A manager and a device are known by their identity;
    services and characteristics also carry the attributes the sources
    read. *)
Definition BluetoothManager := nat.
Definition BluetoothDevice := nat.

Record BluetoothRemoteGATTService : Type := Service {
  service_id : nat;
  service_uuid : string
}.

Record BluetoothCharacteristicProperties : Type := Properties {
  broadcast : bool;
  read : bool;
  writeWithoutResponse : bool;
  write : bool;
  notify : bool;
  indicate : bool;
  authenticatedSignedWrites : bool;
  reliableWrite : bool;
  writableAuxiliaries : bool
}.

Record BluetoothRemoteGATTCharacteristic : Type := Characteristic {
  characteristic_id : nat;
  service : BluetoothRemoteGATTService;
  uuid : string;
  properties : BluetoothCharacteristicProperties
}.

(** The functions handed to the platform: the two arrow functions of
    [connect], the default value-changed logger of [selectCharacteristic],
    and functions supplied by the caller, known by their identity. *)
Inductive callback : Type :=
| OnDisconnected
| OnServiceAdded
| LogValueChanged
| Caller (id : nat).

Definition callback_eqb (a b : callback) : bool :=
  match a, b with
  | OnDisconnected, OnDisconnected => true
  | OnServiceAdded, OnServiceAdded => true
  | LogValueChanged, LogValueChanged => true
  | Caller i, Caller j => Nat.eqb i j
  | _, _ => false
  end.

(** The refs of [useBluetooth()]. *)
Record state : Type := State {
  manager : option BluetoothManager;
  device : option BluetoothDevice;
  isConnected : bool;
  error : option string;
  services : list BluetoothRemoteGATTService;
  currentService : option BluetoothRemoteGATTService;
  currentCharacteristic : option BluetoothRemoteGATTCharacteristic
}.

Definition set_device v s :=
  State (manager s) v (isConnected s) (error s) (services s)
    (currentService s) (currentCharacteristic s).
Definition set_isConnected v s :=
  State (manager s) (device s) v (error s) (services s)
    (currentService s) (currentCharacteristic s).
Definition set_error v s :=
  State (manager s) (device s) (isConnected s) v (services s)
    (currentService s) (currentCharacteristic s).
Definition set_services v s :=
  State (manager s) (device s) (isConnected s) (error s) v
    (currentService s) (currentCharacteristic s).
Definition set_currentService v s :=
  State (manager s) (device s) (isConnected s) (error s) (services s)
    v (currentCharacteristic s).
Definition set_currentCharacteristic v s :=
  State (manager s) (device s) (isConnected s) (error s) (services s)
    (currentService s) v.

Inductive call : Type :=
| ConnectToServer (m : BluetoothManager) (disconnect serviceadded : callback)
| GetService (m : BluetoothManager) (serviceUuid : string)
| GetCharacteristic (m : BluetoothManager) (charUuid : string)
    (valueChanged : callback)
| GattDisconnect (d : BluetoothDevice)
| StartNotifications (c : BluetoothRemoteGATTCharacteristic)
| AddEventListener (c : BluetoothRemoteGATTCharacteristic) (type : string)
    (listener : callback)
| CallCaller (id : nat)
| ConsoleLog (label : string)
| ConsoleError (label : string) (err : thrown).

Record platform : Type := Platform {
  connectToServer : BluetoothManager -> callback -> callback -> thrown + unit;
  getService :
    BluetoothManager -> string -> thrown + BluetoothRemoteGATTService;
  getCharacteristic :
    BluetoothManager -> string -> callback ->
    thrown + BluetoothRemoteGATTCharacteristic;
  gatt_connected : BluetoothDevice -> bool;
  gatt_disconnect : BluetoothDevice -> thrown + unit;
  startNotifications_of :
    BluetoothRemoteGATTCharacteristic -> thrown + unit
}.

Definition M := Async.M platform state call.

(** What each function does when the platform calls it. *)
Definition invoke (cb : callback) : M unit :=
  match cb with
  | OnDisconnected =>
      perform (ConsoleLog "Disconnected:") ;;
      modify (set_isConnected false) ;;
      modify (set_device None) ;;
      modify (set_services []) ;;
      modify (set_currentService None) ;;
      modify (set_currentCharacteristic None)
  | OnServiceAdded => perform (ConsoleLog "Service added:")
  | LogValueChanged => perform (ConsoleLog "Value changed:")
  | Caller id => perform (CallCaller id)
  end.

(** [connect]. *)
Definition connect : M unit :=
  m <- gets manager ;;
  d <- gets device ;;
  match m, d with
  | Some m, Some _ =>
      try_catch
        (modify (set_error None) ;;
         await (ConnectToServer m OnDisconnected OnServiceAdded)
           (fun p => connectToServer p m OnDisconnected OnServiceAdded) ;;
         modify (set_isConnected true))
        (fun err =>
           modify (set_error (Some (message_or err "Failed to connect"))) ;;
           perform (ConsoleError "Connection failed:" err) ;;
           modify (set_isConnected false))
  | _, _ => modify (set_error (Some "No device selected"))
  end.

(** [disconnect]. [device.value?.gatt?.connected] is read from the device
    ([false] when the device has no [gatt]). *)
Definition disconnect : M unit :=
  try_catch
    (modify (set_error None) ;;
     d <- gets device ;;
     when_some d (fun d =>
       connected <- observe (fun p => gatt_connected p d) ;;
       if connected
       then await (GattDisconnect d) (fun p => gatt_disconnect p d)
       else ret tt) ;;
     modify (set_isConnected false) ;;
     modify (set_device None) ;;
     modify (set_services []) ;;
     modify (set_currentService None) ;;
     modify (set_currentCharacteristic None))
    (fun err =>
       modify (set_error (Some (message_or err "Failed to disconnect"))) ;;
       perform (ConsoleError "Disconnect failed:" err)).

(** [selectService(serviceUuid)]. *)
Definition selectService (serviceUuid : string) : M unit :=
  m <- gets manager ;;
  match m with
  | None => modify (set_error (Some "Not connected to a device"))
  | Some m =>
      try_catch
        (modify (set_error None) ;;
         svc <- await (GetService m serviceUuid)
                  (fun p => getService p m serviceUuid) ;;
         modify (set_currentService (Some svc)))
        (fun err =>
           modify
             (set_error (Some (message_or err "Failed to select service"))) ;;
           perform (ConsoleError "Select service failed:" err))
  end.

(** [selectCharacteristic(charUuid, valueChangedCallback?)]. *)
Definition selectCharacteristic (charUuid : string)
  (valueChangedCallback : option callback) : M unit :=
  m <- gets manager ;;
  svc <- gets currentService ;;
  match m, svc with
  | Some m, Some _ =>
      try_catch
        (modify (set_error None) ;;
         let cb :=
           match valueChangedCallback with
           | Some cb => cb
           | None => LogValueChanged
           end in
         c <- await (GetCharacteristic m charUuid cb)
                (fun p => getCharacteristic p m charUuid cb) ;;
         modify (set_currentCharacteristic (Some c)))
        (fun err =>
           modify
             (set_error
                (Some (message_or err "Failed to select characteristic"))) ;;
           perform (ConsoleError "Select characteristic failed:" err))
  | _, _ => modify (set_error (Some "No service selected"))
  end.

(** Reading a property of [ref.value] when the ref holds [null] throws a
    [TypeError]. *)
Definition deref {A} (x : option A) : M A :=
  match x with
  | Some a => ret a
  | None =>
      throw (ErrorObject "TypeError" "Cannot read properties of null")
  end.

(** [startNotifications(callback)]. *)
Definition startNotifications (callback : callback) : M unit :=
  c <- gets currentCharacteristic ;;
  match c with
  | None => modify (set_error (Some "No characteristic selected"))
  | Some _ =>
      try_catch
        (modify (set_error None) ;;
         c <- gets currentCharacteristic ;;
         c <- deref c ;;
         await (StartNotifications c) (fun p => startNotifications_of p c) ;;
         c <- gets currentCharacteristic ;;
         c <- deref c ;;
         perform (AddEventListener c "characteristicvaluechanged" callback))
        (fun err =>
           modify
             (set_error
                (Some (message_or err "Failed to start notifications"))) ;;
           perform (ConsoleError "Start notifications failed:" err))
  end.

(** [EventTarget.addEventListener]: the listeners of type
    'characteristicvaluechanged' on the characteristic [c] after the calls
    of [trace], starting from [before]; a listener already present is not
    added again. *)
Fixpoint listeners (c : BluetoothRemoteGATTCharacteristic)
  (before : list callback) (trace : list call) : list callback :=
  match trace with
  | [] => before
  | AddEventListener c' type l :: rest =>
      if Nat.eqb (characteristic_id c') (characteristic_id c)
         && String.eqb type "characteristicvaluechanged"
         && negb (existsb (callback_eqb l) before)
      then listeners c (before ++ [l]) rest
      else listeners c before rest
  | _ :: rest => listeners c before rest
  end.

(** A value change of [c]: the platform calls its listeners in order. *)
Fixpoint dispatch (ls : list callback) : M unit :=
  match ls with
  | [] => ret tt
  | l :: rest => invoke l ;; dispatch rest
  end.

(** Web Bluetooth, [startNotifications()]: when neither the Notify nor the
    Indicate bit is set in the characteristic's properties, the promise is
    rejected with a NotSupportedError. *)
Definition rejects_unsupported_notifications (p : platform) : Prop :=
  forall c,
    notify (properties c) = false -> indicate (properties c) = false ->
    exists message,
      startNotifications_of p c =
        inl (ErrorObject "NotSupportedError" message).

End UseBluetooth.

(** ** src/utils/serialTransforms.ts: TextEncoderStream *)

Module TextEncoderStream.
Import JS.

(** [transform(chunk, controller)]:
    [controller.enqueue(encoder.encode(chunk))]. The encoder keeps nothing
    between chunks. *)
Definition transform (st : unit) (chunk : jsstring) : unit * list bytes :=
  (st, [Encoding.TextEncoder_encode chunk]).

(** [new TextEncoderStream()]: the transformer has no [flush]. *)
Definition make : TransformStream.transformer unit jsstring bytes :=
  TransformStream.Transformer tt transform (fun st => (st, [])).

End TextEncoderStream.

(** ** src/App.vue (the serial application) *)

Module AppSerial.
Import JS Async.
Local Open Scope async_scope.

(** The [while] loop of [startReading] over the values that
    [reader.read()] delivers until the stream is done: [if (value)]
    [messages.value.push(value)]. *)
Fixpoint read_loop (messages : list jsstring) (values : list jsstring)
  : list jsstring :=
  match values with
  | [] => messages
  | value :: rest =>
      read_loop (if truthy value then messages ++ [value] else messages) rest
  end.

(** [startReading()] on a port that delivers [chunks] and then closes: the
    reader is [createSerialReader(port.value).getReader()]. *)
Definition startReading (messages : list jsstring) (chunks : list bytes)
  : list jsstring :=
  read_loop messages
    (TransformStream.run SerialTransforms.createSerialReader chunks).

(** The refs of the component, with those of [useSerial()]. *)
Record state : Type := State {
  serial : UseSerial.state;
  messages : list jsstring;
  inputMessage : jsstring;
  isReading : bool
}.

Definition set_serial v s :=
  State v (messages s) (inputMessage s) (isReading s).
Definition set_messages v s :=
  State (serial s) v (inputMessage s) (isReading s).
Definition set_inputMessage v s :=
  State (serial s) (messages s) v (isReading s).
Definition set_isReading v s :=
  State (serial s) (messages s) (inputMessage s) v.

Definition M := Async.M UseSerial.platform state UseSerial.call.

(** A function of the composable, run on the refs it owns. *)
Definition useSerial {A} (m : UseSerial.M A) : M A :=
  fun p s =>
    let '(r, s1, t) := m p (serial s) in (r, set_serial s1 s, t).

(** [stopReading]. *)
Definition stopReading : M unit := modify (set_isReading false).

(** [handleDisconnect]. *)
Definition handleDisconnect : M unit :=
  stopReading ;;
  useSerial UseSerial.disconnect ;;
  modify (set_messages []).

(** [sendMessage]. *)
Definition sendMessage : M unit :=
  input <- gets inputMessage ;;
  if negb (truthy (App.trim input)) then ret tt
  else
    useSerial (UseSerial.write (input ++ [NL])) ;;
    modify (set_inputMessage []).

(** [clearMessages]. *)
Definition clearMessages : M unit := modify (set_messages []).

End AppSerial.

(** ** src/utils/bleTransforms.ts: numbers and hexadecimal *)

Module BleNumbers.
Import JS Async BleTransforms.

(** [new ArrayBuffer(byteLength)] for an integral length: so many zero
    bytes; a negative length is a [RangeError]. *)
Definition ArrayBuffer_new (byteLength : Z) : thrown + bytes :=
  if byteLength <? 0
  then inl (ErrorObject "RangeError" "Invalid array buffer length")%string
  else inr (repeat 0 (Z.to_nat byteLength)).

(** The [width] bytes of an integer, least significant first: what
    [setUint8] and, with [littleEndian] true, [setUint16] and [setUint32]
    store (the value is taken modulo 2^(8 width)). *)
Fixpoint little_endian (width : nat) (v : Z) : bytes :=
  match width with
  | O => []
  | S w => v mod 256 :: little_endian w (v / 256)
  end.

(** The integer that bytes hold, least significant first. *)
Fixpoint from_little_endian (bs : bytes) : Z :=
  match bs with
  | [] => 0
  | b :: rest => b + 256 * from_little_endian rest
  end.

(** [view.setUintN(byteOffset, value, true)] on a view of the whole
    buffer: a [RangeError] when the bytes do not fit. *)
Definition store (buffer : bytes) (offset : nat) (vals : bytes)
  : thrown + bytes :=
  if (List.length buffer <? offset + List.length vals)%nat
  then inl (ErrorObject "RangeError"
              "Offset is outside the bounds of the DataView")%string
  else inr (firstn offset buffer ++ vals
              ++ skipn (offset + List.length vals) buffer).

(** A number in a template literal, for an integer. *)
Definition Number_toString (n : Z) : string :=
  NilZero.string_of_int (Z.to_int n).

(** [numberToUint8Array(num, byteLength = 1)] for integral arguments. *)
Definition numberToUint8Array (num : Z) (byteLength : option Z)
  : thrown + Uint8Array :=
  let byteLength := match byteLength with Some n => n | None => 1 end in
  match ArrayBuffer_new byteLength with
  | inl e => inl e
  | inr buffer =>
      let stored :=
        if byteLength =? 1 then store buffer 0 (little_endian 1 num)
        else if byteLength =? 2 then store buffer 0 (little_endian 2 num)
        else if byteLength =? 4 then store buffer 0 (little_endian 4 num)
        else inl (ErrorObject "Error"
                    ("Unsupported byte length: "
                       ++ Number_toString byteLength))%string
      in
      match stored with
      | inl e => inl e
      | inr buffer => inr (MkUint8Array buffer 0 (List.length buffer))
      end
  end.

(** The bytes seen through a [DataView]. *)
Definition view_contents (dataView : DataView) : bytes :=
  firstn (byteLength dataView) (skipn (byteOffset dataView) (buffer dataView)).

(** [dataView.getUintN(0, true)] with [width] = N/8. *)
Definition get_unsigned (width : nat) (dataView : DataView) : thrown + Z :=
  if (List.length (view_contents dataView) <? width)%nat
  then inl (ErrorObject "RangeError"
              "Offset is outside the bounds of the DataView")%string
  else inr (from_little_endian (firstn width (view_contents dataView))).

(** [dataView.getIntN(0, true)]: the same bytes read as two's complement. *)
Definition get_signed (width : nat) (dataView : DataView) : thrown + Z :=
  match get_unsigned width dataView with
  | inl e => inl e
  | inr v =>
      if 2 ^ (8 * Z.of_nat width - 1) <=? v
      then inr (v - 2 ^ (8 * Z.of_nat width))
      else inr v
  end.

(** The [type] argument of [dataViewToNumber]. *)
Inductive number_type : Type :=
| uint8 | uint16 | uint32 | int8 | int16 | int32.

(** [dataViewToNumber(dataView, type = 'uint8')]. *)
Definition dataViewToNumber (dataView : DataView) (type : option number_type)
  : thrown + Z :=
  match match type with Some t => t | None => uint8 end with
  | uint8 => get_unsigned 1 dataView
  | uint16 => get_unsigned 2 dataView
  | uint32 => get_unsigned 4 dataView
  | int8 => get_signed 1 dataView
  | int16 => get_signed 2 dataView
  | int32 => get_signed 4 dataView
  end.

(** A hexadecimal digit, lower case. *)
Definition hex_digit (d : Z) : Z := if d <? 10 then 48 + d else 87 + d.

(** [byte.toString(16)] for an element of a [Uint8Array] (below 256). *)
Definition toString16 (byte : Z) : jsstring :=
  if byte <? 16 then [hex_digit byte]
  else [hex_digit (byte / 16); hex_digit (byte mod 16)].

(** [s.padStart(targetLength, c)] for a pad string of one code unit. *)
Definition padStart (s : jsstring) (targetLength : nat) (c : Z) : jsstring :=
  repeat c (targetLength - List.length s) ++ s.

Definition SPACE : Z := 32.

(** [dataViewToHex(dataView)]. *)
Definition dataViewToHex (dataView : DataView) : jsstring :=
  let bytes :=
    u8_contents
      (MkUint8Array (buffer dataView) (byteOffset dataView)
         (byteLength dataView)) in
  join SPACE (map (fun byte => padStart (toString16 byte) 2 48) bytes).

(** Reading a hexadecimal digit, and [parseInt(group, 16)] for a group of
    two digits: the inverse against which [dataViewToHex] is checked. *)
Definition hex_value (c : Z) : option Z :=
  if (48 <=? c) && (c <=? 57) then Some (c - 48)
  else if (97 <=? c) && (c <=? 102) then Some (c - 87)
  else None.

Definition parse_hex_pair (group : jsstring) : option Z :=
  match group with
  | [h; l] =>
      match hex_value h, hex_value l with
      | Some a, Some b => Some (16 * a + b)
      | _, _ => None
      end
  | _ => None
  end.

End BleNumbers.

(** ** src/utils/bleTransforms.ts: names of services and characteristics *)

Module BleNames.
Import JS.

(** [s.startsWith(prefix)]. *)
Fixpoint startsWith (prefix s : jsstring) : bool :=
  match prefix, s with
  | [], _ => true
  | _ :: _, [] => false
  | p :: prefix', c :: s' => (p =? c) && startsWith prefix' s'
  end.

(** [s.endsWith(suffix)]. *)
Definition endsWith (suffix s : jsstring) : bool :=
  startsWith (rev suffix) (rev s).

(** [s.substring(start, end)] for [start <= end]. *)
Definition substring (start end_ : nat) (s : jsstring) : jsstring :=
  firstn (end_ - start) (skipn start s).

(** [a === b] on strings. *)
Fixpoint string_eqb (a b : jsstring) : bool :=
  match a, b with
  | [], [] => true
  | x :: a', y :: b' => (x =? y) && string_eqb a' b'
  | _, _ => false
  end.

Definition BASE_SUFFIX : jsstring := lit "-0000-1000-8000-00805f9b34fb".

(** [formatServiceUUID(uuid)]. *)
Definition formatServiceUUID (uuid : jsstring) : jsstring :=
  if startsWith (lit "0000") uuid && endsWith BASE_SUFFIX uuid
  then substring 4 8 uuid
  else uuid.

(** [Object.entries(BLE_SERVICES)], in the order of the literal. *)
Definition BLE_SERVICES : list (jsstring * jsstring) :=
  [ (lit "GENERIC_ACCESS", lit "00001800-0000-1000-8000-00805f9b34fb");
    (lit "GENERIC_ATTRIBUTE", lit "00001801-0000-1000-8000-00805f9b34fb");
    (lit "DEVICE_INFORMATION", lit "0000180a-0000-1000-8000-00805f9b34fb");
    (lit "BATTERY_SERVICE", lit "0000180f-0000-1000-8000-00805f9b34fb");
    (lit "HEART_RATE", lit "0000180d-0000-1000-8000-00805f9b34fb");
    (lit "UART_SERVICE", lit "6e400001-b5a3-f393-e0a9-e50e24dcca9e") ].

(** [Object.entries(BLE_CHARACTERISTICS)]. *)
Definition BLE_CHARACTERISTICS : list (jsstring * jsstring) :=
  [ (lit "DEVICE_NAME", lit "00002a00-0000-1000-8000-00805f9b34fb");
    (lit "APPEARANCE", lit "00002a01-0000-1000-8000-00805f9b34fb");
    (lit "MANUFACTURER_NAME", lit "00002a29-0000-1000-8000-00805f9b34fb");
    (lit "MODEL_NUMBER", lit "00002a24-0000-1000-8000-00805f9b34fb");
    (lit "SERIAL_NUMBER", lit "00002a25-0000-1000-8000-00805f9b34fb");
    (lit "BATTERY_LEVEL", lit "00002a19-0000-1000-8000-00805f9b34fb");
    (lit "UART_TX", lit "6e400003-b5a3-f393-e0a9-e50e24dcca9e");
    (lit "UART_RX", lit "6e400002-b5a3-f393-e0a9-e50e24dcca9e") ].

(** [name.replace(/_/g, ' ')]. *)
Definition replace_underscores (name : jsstring) : jsstring :=
  map (fun c => if c =? 95 then 32 else c) name.

(** The [for] loop over the entries: the name of the first entry whose
    UUID is [uuidLower]. *)
Fixpoint first_name (entries : list (jsstring * jsstring))
  (uuidLower : jsstring) : option jsstring :=
  match entries with
  | [] => None
  | (name, entryUuid) :: rest =>
      if string_eqb entryUuid uuidLower then Some name
      else first_name rest uuidLower
  end.

Section Names.

(** [String.prototype.toLowerCase], left to the platform. *)
Variable toLowerCase : jsstring -> jsstring.

(** [getServiceName(uuid)]. *)
Definition getServiceName (uuid : jsstring) : jsstring :=
  let uuidLower := toLowerCase uuid in
  match first_name BLE_SERVICES uuidLower with
  | Some name => replace_underscores name
  | None => formatServiceUUID uuid
  end.

(** [getCharacteristicName(uuid)]. *)
Definition getCharacteristicName (uuid : jsstring) : jsstring :=
  let uuidLower := toLowerCase uuid in
  match first_name BLE_CHARACTERISTICS uuidLower with
  | Some name => replace_underscores name
  | None => formatServiceUUID uuid
  end.

End Names.

End BleNames.

(** ** Helpers shared by the remaining functions of the composables *)

Module AsyncMore.
Import Async.

(** Reading a property of [ref.value] when the ref holds [null] throws a
    [TypeError]. *)
Definition deref {Platform St Call A} (x : option A)
  : Async.M Platform St Call A :=
  match x with
  | Some a => ret a
  | None => throw (ErrorObject "TypeError" "Cannot read properties of null")
  end.

(** A function modelled with fewer platform calls, run where more of the
    platform is modelled: same refs, its calls and answers embedded. *)
Definition lift {P1 P2 St C1 C2 A} (fp : P2 -> P1) (fc : C1 -> C2)
  (m : Async.M P1 St C1 A) : Async.M P2 St C2 A :=
  fun p s => let '(r, s', t) := m (fp p) s in (r, s', map fc t).

End AsyncMore.

(** ** src/composables/useSerial.ts: requestPort and connect *)

Module UseSerialPort.
Import JS Async AsyncMore.
Local Open Scope async_scope.
Local Open Scope string_scope.

(** The calls of [requestPort] and [connect], beside those of
    [disconnect] and [write]. *)
Inductive call : Type :=
| Composable (c : UseSerial.call)
| RequestPort
| PortOpen (p : UseSerial.SerialPort) (baudRate : Z)
| GetWriter (p : UseSerial.SerialPort).

Record platform : Type := Platform {
  composable : UseSerial.platform;
  serial_in_navigator : bool;
  navigator_serial_requestPort : thrown + UseSerial.SerialPort;
  port_open : UseSerial.SerialPort -> Z -> thrown + unit;
  port_writable : UseSerial.SerialPort -> bool;
  getWriter : UseSerial.SerialPort -> thrown + UseSerial.Writer
}.

Definition M := Async.M platform UseSerial.state call.

(** [requestPort]. *)
Definition requestPort : M unit :=
  try_catch
    (modify (UseSerial.set_error None) ;;
     supported <- observe serial_in_navigator ;;
     (if negb supported
      then throw (ErrorObject "Error"
                    "Web Serial API not supported in this browser")
      else ret tt) ;;
     pt <- await RequestPort navigator_serial_requestPort ;;
     modify (UseSerial.set_port (Some pt)))
    (fun err =>
       modify (UseSerial.set_error
                 (Some (message_or err "Failed to request port"))) ;;
       perform (Composable (UseSerial.ConsoleError "Port request failed:" err))).

(** [connect(baudRate = 115200)]. *)
Definition connect (baudRate : option Z) : M unit :=
  let baudRate := match baudRate with Some b => b | None => 115200%Z end in
  pt <- gets UseSerial.port ;;
  match pt with
  | None => modify (UseSerial.set_error (Some "No port selected"))
  | Some _ =>
      try_catch
        (modify (UseSerial.set_error None) ;;
         pt <- gets UseSerial.port ;;
         pt <- deref pt ;;
         await (PortOpen pt baudRate) (fun p => port_open p pt baudRate) ;;
         modify (UseSerial.set_isConnected true) ;;
         (* Set up writer for sending data *)
         pt <- gets UseSerial.port ;;
         pt <- deref pt ;;
         writable <- observe (fun p => port_writable p pt) ;;
         if writable
         then
           pt <- gets UseSerial.port ;;
           pt <- deref pt ;;
           w <- await (GetWriter pt) (fun p => getWriter p pt) ;;
           modify (UseSerial.set_writer (Some w))
         else ret tt)
        (fun err =>
           modify (UseSerial.set_error
                     (Some (message_or err "Failed to connect"))) ;;
           perform (Composable
                      (UseSerial.ConsoleError "Connection failed:" err)) ;;
           modify (UseSerial.set_isConnected false))
  end.

(** [disconnect] and [write], among the other functions. *)
Definition disconnect : M unit := lift composable Composable UseSerial.disconnect.
Definition write (data : jsstring) : M unit :=
  lift composable Composable (UseSerial.write data).

(** The state [useSerial()] starts in. *)
Definition initial : UseSerial.state :=
  UseSerial.State None false None None None.

End UseSerialPort.

(** ** useSerial with the SerialManager (unnamed/part_002): requestPort and
    connect *)

Module UseSerialManagerPort.
Import JS Async AsyncMore.
Local Open Scope async_scope.
Local Open Scope string_scope.

Inductive call : Type :=
| Composable (c : UseSerialManager.call)
| NewSerialManager (debug : bool)
| RequestPort (m : UseSerialManager.SerialManager)
| OpenPort (m : UseSerialManager.SerialManager) (baudRate : Z).

Record platform : Type := Platform {
  composable : UseSerialManager.platform;
  serial_in_navigator : bool;
  new_SerialManager : UseSerialManager.SerialManager;
  manager_requestPort :
    UseSerialManager.SerialManager -> thrown + UseSerialManager.SerialPort;
  manager_openPort : UseSerialManager.SerialManager -> Z -> thrown + unit
}.

Definition M := Async.M platform UseSerialManager.state call.

Definition set_manager v s :=
  UseSerialManager.State v (UseSerialManager.port s)
    (UseSerialManager.isConnected s) (UseSerialManager.error s)
    (UseSerialManager.reader s).

(** [initManager]. *)
Definition initManager : M unit :=
  m <- gets UseSerialManager.manager ;;
  match m with
  | Some _ => ret tt
  | None =>
      perform (NewSerialManager false) ;;
      m <- observe new_SerialManager ;;
      modify (set_manager (Some m))
  end.

(** [requestPort]. *)
Definition requestPort : M unit :=
  try_catch
    (modify (UseSerialManager.set_error None) ;;
     supported <- observe serial_in_navigator ;;
     (if negb supported
      then throw (ErrorObject "Error"
                    "Web Serial API not supported in this browser")
      else ret tt) ;;
     initManager ;;
     m <- gets UseSerialManager.manager ;;
     m <- match m with
          | Some m => ret m
          | None =>
              throw (ErrorObject "Error" "Failed to initialize Serial Manager")
          end ;;
     pt <- await (RequestPort m) (fun p => manager_requestPort p m) ;;
     modify (UseSerialManager.set_port (Some pt)))
    (fun err =>
       modify (UseSerialManager.set_error
                 (Some (message_or err "Failed to request port"))) ;;
       perform (Composable
                  (UseSerialManager.ConsoleError "Port request failed:" err))).

(** [connect(baudRate = 115200)]. *)
Definition connect (baudRate : option Z) : M unit :=
  let baudRate := match baudRate with Some b => b | None => 115200%Z end in
  m <- gets UseSerialManager.manager ;;
  pt <- gets UseSerialManager.port ;;
  match m, pt with
  | Some _, Some _ =>
      try_catch
        (modify (UseSerialManager.set_error None) ;;
         m <- gets UseSerialManager.manager ;;
         m <- deref m ;;
         await (OpenPort m baudRate) (fun p => manager_openPort p m baudRate) ;;
         modify (UseSerialManager.set_isConnected true))
        (fun err =>
           modify (UseSerialManager.set_error
                     (Some (message_or err "Failed to connect"))) ;;
           perform (Composable
                      (UseSerialManager.ConsoleError "Connection failed:" err)) ;;
           modify (UseSerialManager.set_isConnected false))
  | _, _ => modify (UseSerialManager.set_error (Some "No port selected"))
  end.

Definition disconnect : M unit :=
  lift composable Composable UseSerialManager.disconnect.
Definition write (data : jsstring) : M unit :=
  lift composable Composable (UseSerialManager.write data).

Definition initial : UseSerialManager.state :=
  UseSerialManager.State None None false None None.

End UseSerialManagerPort.

(** ** useBluetooth (unnamed/part_001): the functions that reach the
    manager beside those above *)

Module UseBluetoothDevice.
Import JS Async AsyncMore.
Local Open Scope async_scope.
Local Open Scope string_scope.

(** The options of [requestDevice], with the fields the sources set. *)
Record BluetoothLEScanFilter : Type := Filter {
  namePrefix : jsstring
}.

Record RequestDeviceOptions : Type := Options {
  filters : option (list BluetoothLEScanFilter);
  optionalServices : option (list string);
  acceptAllDevices : option bool
}.

Inductive call : Type :=
| Composable (c : UseBluetooth.call)
| NewBluetoothManager (debug : bool)
| RequestDevice (m : UseBluetooth.BluetoothManager)
    (options : RequestDeviceOptions)
| GetServices (m : UseBluetooth.BluetoothManager)
| GetCharacteristics (m : UseBluetooth.BluetoothManager)
| WriteValue (m : UseBluetooth.BluetoothManager)
    (data : BleTransforms.Uint8Array)
| GetValue (m : UseBluetooth.BluetoothManager).

Record platform : Type := Platform {
  composable : UseBluetooth.platform;
  new_BluetoothManager : thrown + UseBluetooth.BluetoothManager;
  manager_requestDevice :
    UseBluetooth.BluetoothManager -> RequestDeviceOptions ->
    thrown + UseBluetooth.BluetoothDevice;
  manager_getServices :
    UseBluetooth.BluetoothManager ->
    thrown + list UseBluetooth.BluetoothRemoteGATTService;
  manager_getCharacteristics :
    UseBluetooth.BluetoothManager ->
    thrown + list UseBluetooth.BluetoothRemoteGATTCharacteristic;
  manager_writeValue :
    UseBluetooth.BluetoothManager -> BleTransforms.Uint8Array ->
    thrown + unit;
  manager_getValue :
    UseBluetooth.BluetoothManager -> thrown + BleTransforms.DataView
}.

Definition M := Async.M platform UseBluetooth.state call.

Definition set_manager v s :=
  UseBluetooth.State v (UseBluetooth.device s) (UseBluetooth.isConnected s)
    (UseBluetooth.error s) (UseBluetooth.services s)
    (UseBluetooth.currentService s) (UseBluetooth.currentCharacteristic s).

(** [initManager]: the manager is built with a function that logs
    advertisements and with [false]. The constructor is code of the
    library: it returns the manager or throws, and then nothing is
    assigned. *)
Definition initManager : M unit :=
  m <- gets UseBluetooth.manager ;;
  match m with
  | Some _ => ret tt
  | None =>
      m <- await (NewBluetoothManager false) new_BluetoothManager ;;
      modify (set_manager (Some m))
  end.

(** [requestDevice(options = { acceptAllDevices: true })]. *)
Definition requestDevice (options : option RequestDeviceOptions) : M unit :=
  let options :=
    match options with
    | Some o => o
    | None => Options None None (Some true)
    end in
  try_catch
    (modify (UseBluetooth.set_error None) ;;
     initManager ;;
     m <- gets UseBluetooth.manager ;;
     m <- match m with
          | Some m => ret m
          | None =>
              throw (ErrorObject "Error"
                       "Failed to initialize Bluetooth Manager")
          end ;;
     d <- await (RequestDevice m options)
            (fun p => manager_requestDevice p m options) ;;
     modify (UseBluetooth.set_device (Some d)))
    (fun err =>
       modify (UseBluetooth.set_error
                 (Some (message_or err "Failed to request device"))) ;;
       perform (Composable
                  (UseBluetooth.ConsoleError "Device request failed:" err))).

(** [getServices]. *)
Definition getServices : M unit :=
  m <- gets UseBluetooth.manager ;;
  match m with
  | None => modify (UseBluetooth.set_error (Some "Not connected to a device"))
  | Some _ =>
      try_catch
        (modify (UseBluetooth.set_error None) ;;
         m <- gets UseBluetooth.manager ;;
         m <- deref m ;;
         svcs <- await (GetServices m) (fun p => manager_getServices p m) ;;
         modify (UseBluetooth.set_services svcs))
        (fun err =>
           modify (UseBluetooth.set_error
                     (Some (message_or err "Failed to get services"))) ;;
           perform (Composable
                      (UseBluetooth.ConsoleError "Get services failed:" err)))
  end.

(** [getCharacteristics]. *)
Definition getCharacteristics
  : M (list UseBluetooth.BluetoothRemoteGATTCharacteristic) :=
  m <- gets UseBluetooth.manager ;;
  svc <- gets UseBluetooth.currentService ;;
  match m, svc with
  | Some _, Some _ =>
      try_catch
        (modify (UseBluetooth.set_error None) ;;
         m <- gets UseBluetooth.manager ;;
         m <- deref m ;;
         await (GetCharacteristics m)
           (fun p => manager_getCharacteristics p m))
        (fun err =>
           modify (UseBluetooth.set_error
                     (Some (message_or err "Failed to get characteristics"))) ;;
           perform (Composable
                      (UseBluetooth.ConsoleError
                         "Get characteristics failed:" err)) ;;
           ret [])
  | _, _ =>
      modify (UseBluetooth.set_error (Some "No service selected")) ;;
      ret []
  end.

(** [writeValue(data)]. *)
Definition writeValue (data : BleTransforms.Uint8Array) : M unit :=
  m <- gets UseBluetooth.manager ;;
  c <- gets UseBluetooth.currentCharacteristic ;;
  match m, c with
  | Some _, Some _ =>
      try_catch
        (modify (UseBluetooth.set_error None) ;;
         m <- gets UseBluetooth.manager ;;
         m <- deref m ;;
         await (WriteValue m data) (fun p => manager_writeValue p m data))
        (fun err =>
           modify (UseBluetooth.set_error
                     (Some (message_or err "Failed to write value"))) ;;
           perform (Composable (UseBluetooth.ConsoleError "Write failed:" err)))
  | _, _ =>
      modify (UseBluetooth.set_error (Some "No characteristic selected"))
  end.

(** [readValue]. *)
Definition readValue : M (option BleTransforms.DataView) :=
  m <- gets UseBluetooth.manager ;;
  c <- gets UseBluetooth.currentCharacteristic ;;
  match m, c with
  | Some _, Some _ =>
      try_catch
        (modify (UseBluetooth.set_error None) ;;
         m <- gets UseBluetooth.manager ;;
         m <- deref m ;;
         v <- await (GetValue m) (fun p => manager_getValue p m) ;;
         ret (Some v))
        (fun err =>
           modify (UseBluetooth.set_error
                     (Some (message_or err "Failed to read value"))) ;;
           perform (Composable (UseBluetooth.ConsoleError "Read failed:" err)) ;;
           ret None)
  | _, _ =>
      modify (UseBluetooth.set_error (Some "No characteristic selected")) ;;
      ret None
  end.

(** The functions modelled above, among these. *)
Definition connect : M unit := lift composable Composable UseBluetooth.connect.
Definition disconnect : M unit :=
  lift composable Composable UseBluetooth.disconnect.
Definition selectService (serviceUuid : string) : M unit :=
  lift composable Composable (UseBluetooth.selectService serviceUuid).
Definition selectCharacteristic (charUuid : string)
  (valueChangedCallback : option UseBluetooth.callback) : M unit :=
  lift composable Composable
    (UseBluetooth.selectCharacteristic charUuid valueChangedCallback).
Definition startNotifications (callback : UseBluetooth.callback) : M unit :=
  lift composable Composable (UseBluetooth.startNotifications callback).
Definition invoke (cb : UseBluetooth.callback) : M unit :=
  lift composable Composable (UseBluetooth.invoke cb).

(** The state [useBluetooth()] starts in. *)
Definition initial : UseBluetooth.state :=
  UseBluetooth.State None None false None [] None None.

End UseBluetoothDevice.

(** ** App.vue (serial and Bluetooth variant): sending *)

Module AppBle.
Import JS Async AsyncMore.
Local Open Scope async_scope.

Inductive ConnectionType : Type := serial | ble.

(** The refs that [sendMessage] reads or writes, with those of the two
    composables. *)
Record state : Type := State {
  connectionType : ConnectionType;
  useSerial_refs : UseSerialManager.state;
  useBluetooth_refs : UseBluetooth.state;
  inputMessage : jsstring
}.

Definition set_useSerial_refs v s :=
  State (connectionType s) v (useBluetooth_refs s) (inputMessage s).
Definition set_useBluetooth_refs v s :=
  State (connectionType s) (useSerial_refs s) v (inputMessage s).
Definition set_inputMessage v s :=
  State (connectionType s) (useSerial_refs s) (useBluetooth_refs s) v.

Inductive call : Type :=
| Serial (c : UseSerialManager.call)
| Bluetooth (c : UseBluetoothDevice.call).

Record platform : Type := Platform {
  serial_platform : UseSerialManager.platform;
  bluetooth_platform : UseBluetoothDevice.platform
}.

Definition M := Async.M platform state call.

(** A function of a composable, run on the refs it owns. *)
Definition useSerial {A} (m : UseSerialManager.M A) : M A :=
  fun p s =>
    let '(r, s1, t) := m (serial_platform p) (useSerial_refs s) in
    (r, set_useSerial_refs s1 s, map Serial t).

Definition useBluetooth {A} (m : UseBluetoothDevice.M A) : M A :=
  fun p s =>
    let '(r, s1, t) := m (bluetooth_platform p) (useBluetooth_refs s) in
    (r, set_useBluetooth_refs s1 s, map Bluetooth t).

(** [sendMessage]. *)
Definition sendMessage : M unit :=
  input <- gets inputMessage ;;
  if negb (truthy (App.trim input)) then ret tt
  else
    type <- gets connectionType ;;
    match type with
    | serial => useSerial (UseSerialManager.write (input ++ [NL]))
    | ble =>
        (* BLE write *)
        c <- gets (fun s =>
                     UseBluetooth.currentCharacteristic (useBluetooth_refs s)) ;;
        match c with
        | Some _ =>
            let data := BleTransforms.stringToUint8Array (input ++ [NL]) in
            useBluetooth (UseBluetoothDevice.writeValue data)
        | None => ret tt
        end
    end ;;
    modify (set_inputMessage []).

(** The bytes handed to the transports in a trace. *)
Definition sent (trace : list call) : list bytes :=
  flat_map (fun c =>
              match c with
              | Serial (UseSerialManager.WriteData _ data) => [data]
              | Bluetooth (UseBluetoothDevice.WriteValue _ data) =>
                  [BleTransforms.u8_contents data]
              | _ => []
              end) trace.

End AppBle.

(* ===================================================================== *)
(** * Part II: properties                                                 *)
(* ===================================================================== *)

Module FramingFacts.
Import JS.

Lemma split_nonempty sep s : split sep s <> [].
Proof.
  destruct s as [|c s]; simpl; [discriminate|].
  destruct (c =? sep); [discriminate|].
  destruct (split sep s); discriminate.
Qed.

Lemma pop_snoc {A} (l : list A) (x : A) : pop (l ++ [x]) = (Some x, l).
Proof.
  induction l as [|y l IH]; simpl; [reflexivity|].
  rewrite IH. destruct l; reflexivity.
Qed.

Lemma pop_nonempty {A} (l : list A) :
  l <> [] -> exists x r, l = r ++ [x] /\ pop l = (Some x, r).
Proof.
  intros Hl. destruct (exists_last Hl) as [r [x ->]].
  exists x, r. split; [reflexivity | apply pop_snoc].
Qed.

(** Splitting a concatenation: the last fragment of the left part is the
    only one that the right part can extend. *)
Lemma split_app sep x y r l :
  split sep x = r ++ [l] -> split sep (x ++ y) = r ++ split sep (l ++ y).
Proof.
  revert r l. induction x as [|c x IH]; intros r l H; simpl in *.
  - destruct r as [|? r]; simpl in H.
    + injection H as <-. reflexivity.
    + destruct r; discriminate.
  - destruct (c =? sep) eqn:E.
    + destruct r as [|f r]; simpl in H.
      * injection H as H1 H2. exfalso. exact (split_nonempty _ _ H2).
      * injection H as <- H. simpl. f_equal. apply IH. exact H.
    + destruct (split sep x) as [|f fs] eqn:Ex.
      * exfalso. exact (split_nonempty _ _ Ex).
      * destruct r as [|g r]; simpl in H.
        -- injection H as Hl Hfs. subst l fs.
           rewrite (IH [] f eq_refl). simpl. rewrite E. reflexivity.
        -- injection H as Hg Hfs. subst g fs.
           rewrite (IH (f :: r) l eq_refl). reflexivity.
Qed.

Lemma join_nil_cons sep ls :
  ls <> [] -> join sep ([] :: ls) = sep :: join sep ls.
Proof. destruct ls; [congruence | reflexivity]. Qed.

Lemma join_cons_head sep c f fs :
  join sep ((c :: f) :: fs) = c :: join sep (f :: fs).
Proof. destruct fs; reflexivity. Qed.

Lemma join_split sep s : join sep (split sep s) = s.
Proof.
  induction s as [|c s IH]; simpl; [reflexivity|].
  destruct (c =? sep) eqn:E.
  - apply Z.eqb_eq in E. subst c.
    rewrite join_nil_cons by apply split_nonempty.
    rewrite IH. reflexivity.
  - destruct (split sep s) as [|f fs] eqn:Ex.
    + exfalso. exact (split_nonempty _ _ Ex).
    + rewrite join_cons_head. f_equal. exact IH.
Qed.

Lemma split_no_sep sep s : Forall (fun l => ~ In sep l) (split sep s).
Proof.
  induction s as [|c s IH]; simpl.
  - constructor; [intros []|constructor].
  - destruct (c =? sep) eqn:E.
    + constructor; [intros []|exact IH].
    + destruct (split sep s) as [|f fs].
      * constructor; [|constructor].
        intros [H|[]]. apply Z.eqb_neq in E. congruence.
      * inversion IH as [|? ? Hf Hfs]; subst.
        constructor; [|exact Hfs].
        intros [H|H]; [apply Z.eqb_neq in E; congruence | exact (Hf H)].
Qed.

Lemma or_else_empty s : or_else (Some s) [] = s.
Proof. destruct s; reflexivity. Qed.

(** What [transform] computes, in terms of [split]. *)
Lemma transform_split b c :
  let (b', lines) := LineBreakTransformer.transform b c in
  split NL (b ++ c) = lines ++ [b'].
Proof.
  unfold LineBreakTransformer.transform.
  destruct (pop_nonempty (split NL (b ++ c)) (split_nonempty _ _))
    as [x [r [Hs Hp]]].
  rewrite Hp, or_else_empty. exact Hs.
Qed.

(** *** Piped transformers *)

Lemma write_all_app {St I O} (t : TransformStream.transformer St I O)
  st xs ys :
  TransformStream.write_all t st (xs ++ ys) =
    let (st1, o1) := TransformStream.write_all t st xs in
    let (st2, o2) := TransformStream.write_all t st1 ys in
    (st2, o1 ++ o2).
Proof.
  revert st. induction xs as [|x xs IH]; intros st; simpl.
  - destruct (TransformStream.write_all t st ys). reflexivity.
  - destruct (TransformStream.transform t st x) as [st1 o1]. rewrite IH.
    destruct (TransformStream.write_all t st1 xs) as [st2 o2].
    destruct (TransformStream.write_all t st2 ys) as [st3 o3].
    rewrite app_assoc. reflexivity.
Qed.

Lemma write_all_pipeThrough {S1 S2 I M O}
  (t1 : TransformStream.transformer S1 I M)
  (t2 : TransformStream.transformer S2 M O) chunks : forall st1 st2,
  TransformStream.write_all (TransformStream.pipeThrough t1 t2)
    (st1, st2) chunks =
    let (st1', mid) := TransformStream.write_all t1 st1 chunks in
    let (st2', out) := TransformStream.write_all t2 st2 mid in
    ((st1', st2'), out).
Proof.
  induction chunks as [|c rest IH]; intros st1 st2; [reflexivity|].
  cbn [TransformStream.write_all TransformStream.pipeThrough
       TransformStream.transform fst snd].
  destruct (TransformStream.transform t1 st1 c) as [st1a mid1].
  destruct (TransformStream.write_all t2 st2 mid1) as [st2a out1] eqn:E1.
  specialize (IH st1a st2a).
  cbn [TransformStream.pipeThrough TransformStream.transform] in IH.
  rewrite IH.
  destruct (TransformStream.write_all t1 st1a rest) as [st1b mid2].
  rewrite write_all_app, E1.
  destruct (TransformStream.write_all t2 st2a mid2) as [st2b out2].
  reflexivity.
Qed.

(** What is read from [a.pipeThrough(t1).pipeThrough(t2)] is what [t2]
    makes of what is read from [a.pipeThrough(t1)]. *)
Lemma run_pipeThrough {S1 S2 I M O}
  (t1 : TransformStream.transformer S1 I M)
  (t2 : TransformStream.transformer S2 M O) chunks :
  TransformStream.run (TransformStream.pipeThrough t1 t2) chunks =
  TransformStream.run t2 (TransformStream.run t1 chunks).
Proof.
  unfold TransformStream.run.
  change (TransformStream.start (TransformStream.pipeThrough t1 t2))
    with (TransformStream.start t1, TransformStream.start t2).
  rewrite write_all_pipeThrough.
  destruct (TransformStream.write_all t1 (TransformStream.start t1) chunks)
    as [st1 mid].
  rewrite write_all_app.
  destruct (TransformStream.write_all t2 (TransformStream.start t2) mid)
    as [st2 out].
  cbn [TransformStream.pipeThrough TransformStream.flush fst snd].
  destruct (TransformStream.flush t1 st1) as [st1' mid'].
  cbn [snd].
  destruct (TransformStream.write_all t2 st2 mid') as [st2' out'].
  destruct (TransformStream.flush t2 st2') as [st3 out''].
  cbn [snd]. rewrite app_assoc. reflexivity.
Qed.

End FramingFacts.

(** ** LineBreakTransformer *)

Module LineBreakFacts.
Import JS FramingFacts.

(** After any sequence of chunks, the lines enqueued so far followed by the
    pending buffer are the fragments of everything written. *)
Lemma write_all_split chunks : forall x r b,
  split NL x = r ++ [b] ->
  let (b', out) :=
    TransformStream.write_all LineBreakTransformer.make b chunks in
  split NL (x ++ concat chunks) = r ++ out ++ [b'].
Proof.
  induction chunks as [|c rest IH]; intros x r b Hx; simpl.
  - rewrite app_nil_r. exact Hx.
  - pose proof (transform_split b c) as Ht.
    destruct (LineBreakTransformer.transform b c) as [b1 lines].
    assert (Hxc : split NL (x ++ c) = (r ++ lines) ++ [b1]).
    { rewrite (split_app _ _ _ _ _ Hx), Ht, app_assoc. reflexivity. }
    specialize (IH (x ++ c) (r ++ lines) b1 Hxc).
    destruct (TransformStream.write_all LineBreakTransformer.make b1 rest)
      as [b' out].
    rewrite app_assoc, IH, <- !app_assoc. reflexivity.
Qed.

(** The lines read from the stream are determined by the concatenation of
    the chunks written. *)
Lemma run_split chunks :
  exists out b,
    split NL (concat chunks) = out ++ [b] /\
    TransformStream.run LineBreakTransformer.make chunks =
      out ++ (if truthy b then [b] else []).
Proof.
  unfold TransformStream.run.
  pose proof (write_all_split chunks [] [] [] eq_refl) as H.
  simpl TransformStream.start.
  destruct (TransformStream.write_all LineBreakTransformer.make [] chunks)
    as [b out].
  exists out, b. split; [exact H|].
  simpl. unfold LineBreakTransformer.flush. destruct (truthy b); reflexivity.
Qed.

Lemma run_concat chunks :
  TransformStream.run LineBreakTransformer.make chunks =
  TransformStream.run LineBreakTransformer.make [concat chunks].
Proof.
  destruct (run_split chunks) as [o1 [b1 [H1 R1]]].
  destruct (run_split [concat chunks]) as [o2 [b2 [H2 R2]]].
  simpl in H2. rewrite app_nil_r in H2.
  rewrite H2 in H1.
  apply app_inj_tail in H1. destruct H1 as [-> ->].
  rewrite R1, R2. reflexivity.
Qed.

(** C1. For every text and every way of cutting it into chunks, writing the
    chunks in order to a LineBreakTransformer and closing it yields the same
    lines, in the same order, as writing the whole text as one chunk and
    closing it. *)
Theorem chunking_does_not_change_lines :
  forall (text : jsstring) (chunks : list jsstring),
    concat chunks = text ->
    TransformStream.run LineBreakTransformer.make chunks =
    TransformStream.run LineBreakTransformer.make [text].
Proof.
  intros text chunks <-. apply run_concat.
Qed.

Lemma chunking_does_not_change_lines_witness :
  concat [lit "A"; lit "T" ++ [NL] ++ lit "OK" ++ [NL]; lit "PART"] =
    lit "AT" ++ [NL] ++ lit "OK" ++ [NL] ++ lit "PART" /\
  TransformStream.run LineBreakTransformer.make
    [lit "A"; lit "T" ++ [NL] ++ lit "OK" ++ [NL]; lit "PART"] =
  TransformStream.run LineBreakTransformer.make
    [lit "AT" ++ [NL] ++ lit "OK" ++ [NL] ++ lit "PART"].
Proof.
  split; [reflexivity|].
  apply (chunking_does_not_change_lines
           (lit "AT" ++ [NL] ++ lit "OK" ++ [NL] ++ lit "PART")
           [lit "A"; lit "T" ++ [NL] ++ lit "OK" ++ [NL]; lit "PART"]).
  reflexivity.
Defined.

(** The example of the specification: both cuts of "AT\nOK\nPART" give the
    lines AT and OK from the chunks and PART from the flush. *)
Example run_AT_OK_PART :
  TransformStream.run LineBreakTransformer.make
    [lit "AT" ++ [NL]; lit "OK" ++ [NL] ++ lit "PART"] =
    [lit "AT"; lit "OK"; lit "PART"] /\
  TransformStream.run LineBreakTransformer.make
    [lit "A"; lit "T" ++ [NL] ++ lit "OK" ++ [NL]; lit "PART"] =
    [lit "AT"; lit "OK"; lit "PART"].
Proof. split; reflexivity. Qed.

(** C2. For every pending buffer [b] and chunk [c], [transform] cuts
    [b ++ c] at the newline code unit only: the fragments except the last
    are enqueued in order and the last one (possibly empty) is the new
    buffer; joined again with newlines they give back [b ++ c] unchanged,
    so neither the buffer nor a line holds a newline and every other code
    unit (a carriage return too) stays in place. Writing "READY\r\n"
    enqueues the line "READY\r". *)
Theorem transform_cuts_at_newline_only :
  forall b c : jsstring,
    let (b', lines) := LineBreakTransformer.transform b c in
    split NL (b ++ c) = lines ++ [b'] /\
    join NL (lines ++ [b']) = b ++ c /\
    Forall (fun l => ~ In NL l) lines /\
    ~ In NL b' /\
    LineBreakTransformer.transform [] (lit "READY" ++ [CR; NL]) =
      ([], [lit "READY" ++ [CR]]).
Proof.
  intros b c. pose proof (transform_split b c) as Ht.
  destruct (LineBreakTransformer.transform b c) as [b' lines].
  pose proof (split_no_sep NL (b ++ c)) as Hn. rewrite Ht in Hn.
  apply Forall_app in Hn. destruct Hn as [Hl Hb].
  repeat split.
  - exact Ht.
  - rewrite <- Ht. apply join_split.
  - exact Hl.
  - inversion Hb; assumption.
Qed.

(** C9, as the code has it. [flush] enqueues the pending buffer as one
    final line exactly when the buffer is not empty, and leaves the buffer
    as it is. *)
Theorem flush_emits_nonempty_buffer_and_keeps_it :
  forall b : jsstring,
    snd (LineBreakTransformer.flush b) = (if truthy b then [b] else []) /\
    (snd (LineBreakTransformer.flush b) = [b] <-> b <> []) /\
    (snd (LineBreakTransformer.flush b) = [] <-> b = []) /\
    fst (LineBreakTransformer.flush b) = b.
Proof.
  intros b. unfold LineBreakTransformer.flush.
  destruct b as [|x b]; simpl; repeat split; try congruence; try discriminate.
Qed.

(** C9, as the claim has it, fails: after flushing the buffer "PART" the
    buffer still holds "PART", and a second flush enqueues it again. *)
Lemma flush_does_not_clear_buffer :
  fst (LineBreakTransformer.flush (lit "PART")) = lit "PART" /\
  fst (LineBreakTransformer.flush (lit "PART")) <> [] /\
  snd (LineBreakTransformer.flush
         (fst (LineBreakTransformer.flush (lit "PART")))) = [lit "PART"].
Proof. repeat split. discriminate. Qed.

End LineBreakFacts.

(** ** The text codecs *)

Module EncodingFacts.
Import JS Encoding.

(** *** Bit operations as arithmetic *)

Lemma land_shiftl_low x y n :
  0 <= n -> 0 <= y < 2 ^ n -> Z.land (Z.shiftl x n) y = 0.
Proof.
  intros Hn Hy. apply Z.bits_inj'. intros i Hi.
  rewrite Z.land_spec, Z.bits_0.
  destruct (Z.lt_ge_cases i n) as [Hlt|Hge].
  - rewrite Z.shiftl_spec_low by lia. reflexivity.
  - replace y with (y mod 2 ^ n) by (apply Z.mod_small; lia).
    rewrite Z.mod_pow2_bits_high by lia. apply andb_false_r.
Qed.

Lemma lor_shiftl_add x y n :
  0 <= n -> 0 <= y < 2 ^ n -> Z.lor (Z.shiftl x n) y = x * 2 ^ n + y.
Proof.
  intros Hn Hy. rewrite <- Z.shiftl_mul_pow2 by lia.
  pose proof (land_shiftl_low x y n Hn Hy) as H0.
  rewrite <- (Z.lxor_lor _ _ H0). symmetry. apply Z.add_nocarry_lxor. exact H0.
Qed.

Lemma land_63 x : Z.land x 0x3F = x mod 64.
Proof. change 0x3F with (Z.ones 6). rewrite Z.land_ones by lia. reflexivity. Qed.

Lemma land_31 x : Z.land x 0x1F = x mod 32.
Proof. change 0x1F with (Z.ones 5). rewrite Z.land_ones by lia. reflexivity. Qed.

Lemma land_15 x : Z.land x 0xF = x mod 16.
Proof. change 0xF with (Z.ones 4). rewrite Z.land_ones by lia. reflexivity. Qed.

Lemma land_7 x : Z.land x 0x7 = x mod 8.
Proof. change 0x7 with (Z.ones 3). rewrite Z.land_ones by lia. reflexivity. Qed.

Lemma land_1023 x : Z.land x 0x3FF = x mod 1024.
Proof. change 0x3FF with (Z.ones 10). rewrite Z.land_ones by lia. reflexivity. Qed.

Lemma lor_128 t : 0 <= t < 64 -> Z.lor 0x80 t = 128 + t.
Proof.
  intros Ht. change 0x80 with (Z.shiftl 2 6).
  rewrite lor_shiftl_add by (simpl; lia). reflexivity.
Qed.

Lemma continuation_byte x : Z.lor 0x80 (Z.land x 0x3F) = 128 + x mod 64.
Proof.
  rewrite land_63. apply lor_128. apply Z.mod_pos_bound. lia.
Qed.

Lemma accumulate cp t :
  0 <= t < 64 -> Z.lor (Z.shiftl cp 6) (Z.land (128 + t) 0x3F) = 64 * cp + t.
Proof.
  intros Ht. rewrite land_63.
  replace ((128 + t) mod 64) with t
    by (apply (Z.mod_unique _ _ 2); lia).
  rewrite lor_shiftl_add by (simpl; lia). change (2 ^ 6) with 64. lia.
Qed.

(** *** Ranges *)

Lemma in_range_true lo hi x : lo <= x <= hi -> in_range lo hi x = true.
Proof. intros H. unfold in_range. apply andb_true_intro. split; apply Z.leb_le; lia. Qed.

Lemma in_range_false lo hi x : x < lo \/ hi < x -> in_range lo hi x = false.
Proof.
  intros H. unfold in_range. apply andb_false_iff.
  destruct H; [left | right]; apply Z.leb_gt; lia.
Qed.

Lemma in_range_spec lo hi x : in_range lo hi x = true <-> lo <= x <= hi.
Proof. unfold in_range. rewrite andb_true_iff, !Z.leb_le. tauto. Qed.

(** *** The encoder, range by range *)

Lemma utf8_encode_1 cp : 0 <= cp <= 0x7F -> utf8_encode cp = [cp].
Proof. intros H. unfold utf8_encode. rewrite in_range_true by lia. reflexivity. Qed.

Lemma utf8_encode_2 cp :
  0x80 <= cp <= 0x7FF -> utf8_encode cp = [192 + cp / 64; 128 + cp mod 64].
Proof.
  intros H. unfold utf8_encode.
  rewrite in_range_false by lia. rewrite in_range_true by lia.
  cbn [utf8_continuation].
  change (6 * Z.of_nat 1) with 6. change (6 * Z.of_nat 0) with 0.
  rewrite Z.shiftr_0_r, continuation_byte, Z.shiftr_div_pow2 by lia.
  change (2 ^ 6) with 64. f_equal. lia.
Qed.

Lemma utf8_encode_3 cp :
  0x800 <= cp <= 0xFFFF ->
  utf8_encode cp =
    [224 + cp / 4096; 128 + (cp / 64) mod 64; 128 + cp mod 64].
Proof.
  intros H. unfold utf8_encode.
  rewrite in_range_false by lia. rewrite in_range_false by lia.
  rewrite in_range_true by lia.
  cbn [utf8_continuation].
  change (6 * Z.of_nat 2) with 12. change (6 * Z.of_nat 1) with 6.
  change (6 * Z.of_nat 0) with 0.
  rewrite Z.shiftr_0_r, !continuation_byte, !Z.shiftr_div_pow2 by lia.
  change (2 ^ 6) with 64. change (2 ^ 12) with 4096. f_equal. lia.
Qed.

Lemma utf8_encode_4 cp :
  0x10000 <= cp ->
  utf8_encode cp =
    [240 + cp / 262144; 128 + (cp / 4096) mod 64;
     128 + (cp / 64) mod 64; 128 + cp mod 64].
Proof.
  intros H. unfold utf8_encode.
  rewrite in_range_false by lia. rewrite in_range_false by lia.
  rewrite in_range_false by lia.
  cbn [utf8_continuation].
  change (6 * Z.of_nat 3) with 18. change (6 * Z.of_nat 2) with 12.
  change (6 * Z.of_nat 1) with 6. change (6 * Z.of_nat 0) with 0.
  rewrite Z.shiftr_0_r, !continuation_byte, !Z.shiftr_div_pow2 by lia.
  change (2 ^ 6) with 64. change (2 ^ 12) with 4096.
  change (2 ^ 18) with 262144. f_equal. lia.
Qed.

(** *** The decoder, byte by byte *)

Lemma handler_ascii b :
  0 <= b <= 0x7F -> handler utf8_decoder_new b = (utf8_decoder_new, [b]).
Proof.
  intros H. unfold handler, handle_lead. cbn.
  rewrite in_range_true by lia. reflexivity.
Qed.

Lemma handler_lead2 a :
  2 <= a < 32 ->
  handler utf8_decoder_new (192 + a) = (Utf8Decoder a 0 1 0x80 0xBF, []).
Proof.
  intros H. unfold handler, handle_lead.
  cbn [utf8_decoder_new bytes_needed bytes_seen lower_boundary upper_boundary].
  change (0 =? 0) with true. cbv iota.
  rewrite in_range_false by lia. rewrite in_range_true by lia.
  rewrite land_31.
  replace ((192 + a) mod 32) with a by (apply (Z.mod_unique _ _ 6); lia).
  reflexivity.
Qed.

Lemma handler_lead3 a :
  0 <= a < 16 ->
  handler utf8_decoder_new (224 + a) =
    (Utf8Decoder a 0 2 (if a =? 0 then 0xA0 else 0x80)
       (if a =? 13 then 0x9F else 0xBF), []).
Proof.
  intros H. unfold handler, handle_lead.
  cbn [utf8_decoder_new bytes_needed bytes_seen lower_boundary upper_boundary].
  change (0 =? 0) with true. cbv iota.
  rewrite in_range_false by lia. rewrite in_range_false by lia.
  rewrite in_range_true by lia.
  rewrite land_15.
  replace ((224 + a) mod 16) with a by (apply (Z.mod_unique _ _ 14); lia).
  destruct (Z.eqb_spec (224 + a) 0xE0), (Z.eqb_spec a 0); try lia;
    destruct (Z.eqb_spec (224 + a) 0xED), (Z.eqb_spec a 13); try lia;
    reflexivity.
Qed.

Lemma handler_lead4 a :
  0 <= a <= 4 ->
  handler utf8_decoder_new (240 + a) =
    (Utf8Decoder a 0 3 (if a =? 0 then 0x90 else 0x80)
       (if a =? 4 then 0x8F else 0xBF), []).
Proof.
  intros H. unfold handler, handle_lead.
  cbn [utf8_decoder_new bytes_needed bytes_seen lower_boundary upper_boundary].
  change (0 =? 0) with true. cbv iota.
  rewrite in_range_false by lia. rewrite in_range_false by lia.
  rewrite in_range_false by lia. rewrite in_range_true by lia.
  rewrite land_7.
  replace ((240 + a) mod 8) with a by (apply (Z.mod_unique _ _ 30); lia).
  destruct (Z.eqb_spec (240 + a) 0xF0), (Z.eqb_spec a 0); try lia;
    destruct (Z.eqb_spec (240 + a) 0xF4), (Z.eqb_spec a 4); try lia;
    reflexivity.
Qed.

Lemma handler_continuation cpd seen needed lo hi t :
  needed <> 0 -> 0 <= t < 64 -> lo <= 128 + t <= hi ->
  handler (Utf8Decoder cpd seen needed lo hi) (128 + t) =
    if seen + 1 =? needed then (utf8_decoder_new, [64 * cpd + t])
    else (Utf8Decoder (64 * cpd + t) (seen + 1) needed 0x80 0xBF, []).
Proof.
  intros Hn Ht Hr. unfold handler.
  cbn [bytes_needed bytes_seen lower_boundary upper_boundary code_point].
  destruct (Z.eqb_spec needed 0) as [|_]; [contradiction|].
  rewrite in_range_true by lia. cbn [negb].
  rewrite accumulate by lia. reflexivity.
Qed.

Lemma process_queue_app d xs ys :
  process_queue d (xs ++ ys) =
    let (d1, out1) := process_queue d xs in
    let (d2, out2) := process_queue d1 ys in
    (d2, out1 ++ out2).
Proof.
  revert d. induction xs as [|x xs IH]; intros d; cbn [process_queue app].
  - destruct (process_queue d ys). reflexivity.
  - destruct (handler d x) as [d1 o1]. rewrite IH.
    destruct (process_queue d1 xs) as [d2 o2].
    destruct (process_queue d2 ys) as [d3 o3].
    rewrite app_assoc. reflexivity.
Qed.

(** *** Decoding the bytes of one scalar value *)

Lemma is_scalar_value_spec cp :
  is_scalar_value cp = true <->
  0 <= cp <= 0x10FFFF /\ (cp < 0xD800 \/ 0xDFFF < cp).
Proof.
  unfold is_scalar_value, is_surrogate.
  rewrite andb_true_iff, negb_true_iff, in_range_spec.
  split; intros [H1 H2]; split; try exact H1.
  - destruct (Z_lt_dec cp 0xD800); [left; assumption|].
    destruct (Z_lt_dec 0xDFFF cp); [right; assumption|].
    rewrite in_range_true in H2 by lia. discriminate.
  - apply in_range_false. exact H2.
Qed.

Lemma steps2 cp :
  0x80 <= cp <= 0x7FF ->
  exists d1,
    handler utf8_decoder_new (192 + cp / 64) = (d1, []) /\
    handler d1 (128 + cp mod 64) = (utf8_decoder_new, [cp]) /\
    bytes_needed d1 = 1 /\ bytes_seen d1 = 0.
Proof.
  intros H.
  assert (Ha : 2 <= cp / 64 < 32) by (Z.div_mod_to_equations; lia).
  assert (Ht : 0 <= cp mod 64 < 64) by (apply Z.mod_pos_bound; lia).
  assert (Hcp : 64 * (cp / 64) + cp mod 64 = cp)
    by (Z.div_mod_to_equations; lia).
  eexists. repeat apply conj; [apply handler_lead2; exact Ha| |..].
  - rewrite handler_continuation by lia.
    change (0 + 1 =? 1) with true. cbv iota. rewrite Hcp. reflexivity.
  - reflexivity.
  - reflexivity.
Qed.

Lemma steps3 cp :
  0x800 <= cp <= 0xFFFF -> (cp < 0xD800 \/ 0xDFFF < cp) ->
  exists d1 d2,
    handler utf8_decoder_new (224 + cp / 4096) = (d1, []) /\
    handler d1 (128 + (cp / 64) mod 64) = (d2, []) /\
    handler d2 (128 + cp mod 64) = (utf8_decoder_new, [cp]) /\
    bytes_needed d1 = 2 /\ bytes_seen d1 = 0 /\
    bytes_needed d2 = 2 /\ bytes_seen d2 = 1.
Proof.
  intros H Hs.
  assert (Ha : 0 <= cp / 4096 < 16) by (Z.div_mod_to_equations; lia).
  assert (Hb : 0 <= (cp / 64) mod 64 < 64) by (apply Z.mod_pos_bound; lia).
  assert (Ht : 0 <= cp mod 64 < 64) by (apply Z.mod_pos_bound; lia).
  assert (Hcp : 64 * (64 * (cp / 4096) + (cp / 64) mod 64) + cp mod 64 = cp)
    by (Z.div_mod_to_equations; lia).
  assert (Hlo : cp / 4096 = 0 -> 32 <= (cp / 64) mod 64)
    by (Z.div_mod_to_equations; lia).
  assert (Hhi : cp / 4096 = 13 -> (cp / 64) mod 64 < 32)
    by (Z.div_mod_to_equations; lia).
  eexists. eexists.
  repeat apply conj; [apply handler_lead3; exact Ha| | |..].
  - rewrite handler_continuation; [|lia|lia|].
    + change (0 + 1 =? 2) with false. cbv iota. reflexivity.
    + destruct (Z.eqb_spec (cp / 4096) 0), (Z.eqb_spec (cp / 4096) 13); lia.
  - rewrite handler_continuation by lia.
    change (1 + 1 =? 2) with true. cbv iota. rewrite Hcp. reflexivity.
  - reflexivity.
  - reflexivity.
  - reflexivity.
  - reflexivity.
Qed.

Lemma steps4 cp :
  0x10000 <= cp <= 0x10FFFF ->
  exists d1 d2 d3,
    handler utf8_decoder_new (240 + cp / 262144) = (d1, []) /\
    handler d1 (128 + (cp / 4096) mod 64) = (d2, []) /\
    handler d2 (128 + (cp / 64) mod 64) = (d3, []) /\
    handler d3 (128 + cp mod 64) = (utf8_decoder_new, [cp]) /\
    bytes_needed d1 = 3 /\ bytes_seen d1 = 0 /\
    bytes_needed d2 = 3 /\ bytes_seen d2 = 1 /\
    bytes_needed d3 = 3 /\ bytes_seen d3 = 2.
Proof.
  intros H.
  assert (Ha : 0 <= cp / 262144 <= 4) by (Z.div_mod_to_equations; lia).
  assert (Hb : 0 <= (cp / 4096) mod 64 < 64) by (apply Z.mod_pos_bound; lia).
  assert (Hc : 0 <= (cp / 64) mod 64 < 64) by (apply Z.mod_pos_bound; lia).
  assert (Ht : 0 <= cp mod 64 < 64) by (apply Z.mod_pos_bound; lia).
  assert (Hcp : 64 * (64 * (64 * (cp / 262144) + (cp / 4096) mod 64)
                      + (cp / 64) mod 64) + cp mod 64 = cp)
    by (Z.div_mod_to_equations; lia).
  assert (Hlo : cp / 262144 = 0 -> 16 <= (cp / 4096) mod 64)
    by (Z.div_mod_to_equations; lia).
  assert (Hhi : cp / 262144 = 4 -> (cp / 4096) mod 64 < 16)
    by (Z.div_mod_to_equations; lia).
  eexists. eexists. eexists.
  repeat apply conj; [apply handler_lead4; exact Ha| | | |..].
  - rewrite handler_continuation; [|lia|lia|].
    + change (0 + 1 =? 3) with false. cbv iota. reflexivity.
    + destruct (Z.eqb_spec (cp / 262144) 0), (Z.eqb_spec (cp / 262144) 4); lia.
  - rewrite handler_continuation by lia.
    change (1 + 1 =? 3) with false. cbv iota. reflexivity.
  - rewrite handler_continuation by lia.
    change (2 + 1 =? 3) with true. cbv iota. rewrite Hcp. reflexivity.
  - reflexivity.
  - reflexivity.
  - reflexivity.
  - reflexivity.
  - reflexivity.
  - reflexivity.
Qed.

Lemma process_encoded cp :
  is_scalar_value cp = true ->
  process_queue utf8_decoder_new (utf8_encode cp) = (utf8_decoder_new, [cp]).
Proof.
  intros Hs. apply is_scalar_value_spec in Hs. destruct Hs as [Hr Hs].
  destruct (Z_le_dec cp 0x7F) as [H1|H1].
  { rewrite utf8_encode_1 by lia. cbn [process_queue].
    rewrite handler_ascii by lia. reflexivity. }
  destruct (Z_le_dec cp 0x7FF) as [H2|H2].
  { rewrite utf8_encode_2 by lia.
    destruct (steps2 cp) as [d1 [E1 [E2 _]]]; [lia|].
    cbn [process_queue]. rewrite E1, E2. reflexivity. }
  destruct (Z_le_dec cp 0xFFFF) as [H3|H3].
  { rewrite utf8_encode_3 by lia.
    destruct (steps3 cp) as [d1 [d2 [E1 [E2 [E3 _]]]]]; [lia|lia|].
    cbn [process_queue]. rewrite E1, E2, E3. reflexivity. }
  rewrite utf8_encode_4 by lia.
  destruct (steps4 cp) as [d1 [d2 [d3 [E1 [E2 [E3 [E4 _]]]]]]]; [lia|].
  cbn [process_queue]. rewrite E1, E2, E3, E4. reflexivity.
Qed.

(** A scalar value of several bytes cut after [k] bytes: the first part
    emits nothing and leaves the decoder waiting, the second part completes
    the scalar value. *)
Lemma process_split cp k :
  is_scalar_value cp = true -> 0x80 <= cp ->
  (0 < k < List.length (utf8_encode cp))%nat ->
  exists d1,
    process_queue utf8_decoder_new (firstn k (utf8_encode cp)) = (d1, []) /\
    bytes_needed d1 = Z.of_nat (List.length (utf8_encode cp)) - 1 /\
    bytes_seen d1 = Z.of_nat k - 1 /\
    process_queue d1 (skipn k (utf8_encode cp)) = (utf8_decoder_new, [cp]).
Proof.
  intros Hs Hmin. apply is_scalar_value_spec in Hs. destruct Hs as [Hr Hs].
  destruct (Z_le_dec cp 0x7FF) as [H2|H2].
  { rewrite utf8_encode_2 by lia. cbn [List.length]. intros Hk.
    destruct (steps2 cp) as [d1 [E1 [E2 [N1 S1]]]]; [lia|].
    assert (k = 1%nat) as -> by lia.
    exists d1. cbn [firstn skipn process_queue]. rewrite E1, E2.
    repeat split; assumption. }
  destruct (Z_le_dec cp 0xFFFF) as [H3|H3].
  { rewrite utf8_encode_3 by lia. cbn [List.length]. intros Hk.
    destruct (steps3 cp)
      as [d1 [d2 [E1 [E2 [E3 [N1 [S1 [N2 S2]]]]]]]]; [lia|lia|].
    assert (k = 1 \/ k = 2)%nat as [-> | ->] by lia.
    - exists d1. cbn [firstn skipn process_queue]. rewrite E1, E2, E3.
      repeat split; assumption.
    - exists d2. cbn [firstn skipn process_queue]. rewrite E1, E2, E3.
      repeat split; assumption. }
  rewrite utf8_encode_4 by lia. cbn [List.length]. intros Hk.
  destruct (steps4 cp)
    as [d1 [d2 [d3 [E1 [E2 [E3 [E4 [N1 [S1 [N2 [S2 [N3 S3]]]]]]]]]]]]; [lia|].
  assert (k = 1 \/ k = 2 \/ k = 3)%nat as [-> | [-> | ->]] by lia.
  - exists d1. cbn [firstn skipn process_queue]. rewrite E1, E2, E3, E4.
    repeat split; assumption.
  - exists d2. cbn [firstn skipn process_queue]. rewrite E1, E2, E3, E4.
    repeat split; assumption.
  - exists d3. cbn [firstn skipn process_queue]. rewrite E1, E2, E3, E4.
    repeat split; assumption.
Qed.

Lemma process_encoded_all cps :
  Forall (fun cp => is_scalar_value cp = true) cps ->
  process_queue utf8_decoder_new (flat_map utf8_encode cps) =
    (utf8_decoder_new, cps).
Proof.
  induction 1 as [|cp cps Hcp _ IH]; [reflexivity|].
  cbn [flat_map]. rewrite process_queue_app, (process_encoded cp Hcp), IH.
  reflexivity.
Qed.

(** *** Strings and scalar values *)

Lemma lead_is_surrogate c :
  is_lead_surrogate c = true ->
  is_surrogate c = true /\ is_trail_surrogate c = false /\
  0xD800 <= c <= 0xDBFF.
Proof.
  unfold is_lead_surrogate, is_surrogate, is_trail_surrogate.
  rewrite in_range_spec. intros H.
  rewrite in_range_true by lia. rewrite in_range_false by lia. auto.
Qed.

(** Induction along the way [isWellFormed] reads a string. *)
Lemma well_formed_ind (P : jsstring -> Prop) :
  P [] ->
  (forall c s, is_surrogate c = false -> 0 <= c <= 0xFFFF ->
               isWellFormed s = true -> P s -> P (c :: s)) ->
  (forall c d s, 0xD800 <= c <= 0xDBFF -> 0xDC00 <= d <= 0xDFFF ->
                 isWellFormed s = true -> P s -> P (c :: d :: s)) ->
  forall s, isWellFormed s = true -> P s.
Proof.
  intros Hnil Hone Hpair s.
  assert (H : forall n s, (List.length s <= n)%nat ->
                          isWellFormed s = true -> P s).
  { clear s. induction n as [|n IH]; intros s Hlen Hwf.
    - destruct s; [exact Hnil | simpl in Hlen; lia].
    - destruct s as [|c s]; [exact Hnil|].
      cbn [isWellFormed] in Hwf. cbn [List.length] in Hlen.
      destruct (is_surrogate c) eqn:Es; cbn [negb] in Hwf.
      + destruct (is_lead_surrogate c) eqn:El; [|discriminate].
        destruct s as [|d s]; [discriminate|].
        apply andb_true_iff in Hwf. destruct Hwf as [Hd Hwf].
        apply lead_is_surrogate in El. destruct El as [_ [_ Hc]].
        apply in_range_spec in Hd. cbn [List.length] in Hlen.
        apply Hpair; try assumption. apply IH; [lia | exact Hwf].
      + apply andb_true_iff in Hwf. destruct Hwf as [Hc Hwf].
        apply in_range_spec in Hc.
        apply Hone; try assumption. apply IH; [lia | exact Hwf]. }
  apply (H (List.length s)). lia.
Qed.

Lemma to_scalar_values_one c s :
  is_surrogate c = false ->
  to_scalar_values (c :: s) = c :: to_scalar_values s.
Proof. intros H. cbn [to_scalar_values]. rewrite H. reflexivity. Qed.

Lemma to_scalar_values_pair c d s :
  0xD800 <= c <= 0xDBFF -> 0xDC00 <= d <= 0xDFFF ->
  to_scalar_values (c :: d :: s) =
    (0x10000 + 1024 * (c - 0xD800) + (d - 0xDC00)) :: to_scalar_values s.
Proof.
  intros Hc Hd. cbn [to_scalar_values].
  unfold is_surrogate, is_trail_surrogate.
  rewrite (in_range_true 0xD800 0xDFFF c) by lia. cbn [negb].
  rewrite (in_range_false 0xDC00 0xDFFF c) by lia.
  rewrite (in_range_true 0xDC00 0xDFFF d) by lia.
  rewrite !land_1023. change (2 ^ 10) with 1024.
  replace (c mod 1024) with (c - 0xD800)
    by (apply (Z.mod_unique _ _ 54); lia).
  replace (d mod 1024) with (d - 0xDC00)
    by (apply (Z.mod_unique _ _ 55); lia).
  reflexivity.
Qed.

Lemma code_units_pair c d :
  0xD800 <= c <= 0xDBFF -> 0xDC00 <= d <= 0xDFFF ->
  code_units (0x10000 + 1024 * (c - 0xD800) + (d - 0xDC00)) = [c; d].
Proof.
  intros Hc Hd. unfold code_units.
  destruct (Z.leb_spec (0x10000 + 1024 * (c - 0xD800) + (d - 0xDC00)) 0xFFFF);
    [lia|].
  rewrite land_1023, Z.shiftr_div_pow2 by lia. change (2 ^ 10) with 1024.
  f_equal; [|f_equal]; Z.div_mod_to_equations; lia.
Qed.

Lemma from_to_scalar_values s :
  isWellFormed s = true -> from_scalar_values (to_scalar_values s) = s.
Proof.
  revert s. apply well_formed_ind.
  - reflexivity.
  - intros c s Hs Hc Hwf IH.
    rewrite to_scalar_values_one by assumption.
    unfold from_scalar_values in *. cbn [flat_map]. rewrite IH.
    unfold code_units. destruct (Z.leb_spec c 0xFFFF); [reflexivity | lia].
  - intros c d s Hc Hd Hwf IH.
    rewrite to_scalar_values_pair by assumption.
    unfold from_scalar_values in *. cbn [flat_map].
    rewrite IH, code_units_pair by assumption. reflexivity.
Qed.

Lemma to_scalar_values_scalar s :
  isWellFormed s = true ->
  Forall (fun cp => is_scalar_value cp = true) (to_scalar_values s).
Proof.
  revert s.
  apply (well_formed_ind
           (fun s => Forall (fun cp => is_scalar_value cp = true)
                       (to_scalar_values s))).
  - constructor.
  - intros c s Hs Hc Hwf IH.
    rewrite to_scalar_values_one by assumption. constructor; [|assumption].
    unfold is_scalar_value. rewrite Hs, in_range_true by lia. reflexivity.
  - intros c d s Hc Hd Hwf IH.
    rewrite to_scalar_values_pair by assumption. constructor; [|assumption].
    apply is_scalar_value_spec. split; [lia | right; lia].
Qed.

Lemma hd_to_scalar_values s :
  isWellFormed s = true -> hd_error s <> Some BOM ->
  hd_error (to_scalar_values s) <> Some BOM.
Proof.
  revert s.
  apply (well_formed_ind
           (fun s => hd_error s <> Some BOM ->
                     hd_error (to_scalar_values s) <> Some BOM)).
  - intros Hhd. exact Hhd.
  - intros c s Hs Hc Hwf IH Hhd.
    rewrite to_scalar_values_one by assumption. exact Hhd.
  - intros c d s Hc Hd Hwf IH Hhd.
    rewrite to_scalar_values_pair by assumption. cbn [hd_error].
    intros E.
    assert (E' : 0x10000 + 1024 * (c - 0xD800) + (d - 0xDC00) = BOM)
      by congruence.
    unfold BOM in E'. lia.
Qed.

Lemma serialize_no_BOM cps :
  hd_error cps <> Some BOM -> snd (serialize false cps) = cps.
Proof.
  destruct cps as [|cp cps]; [reflexivity|]. cbn. intros H.
  destruct (Z.eqb_spec cp BOM); [subst; congruence | reflexivity].
Qed.

End EncodingFacts.

(** ** TextDecoderStream, dataViewToString, stringToUint8Array *)

Module CodecFacts.
Import JS Encoding EncodingFacts.

Lemma decode_stream_split td cp k :
  is_scalar_value cp = true -> 0x80 <= cp ->
  (do_not_flush td = true -> decoder td = utf8_decoder_new) ->
  (cp = BOM -> do_not_flush td = true /\ BOM_seen td = true) ->
  (0 < k < List.length (utf8_encode cp))%nat ->
  let (td1, text1) := decode td (firstn k (utf8_encode cp)) true in
  let (td2, text2) := decode td1 (skipn k (utf8_encode cp)) true in
  text1 = [] /\ text2 = code_units cp /\
  bytes_needed (decoder td1) = Z.of_nat (List.length (utf8_encode cp)) - 1 /\
  bytes_seen (decoder td1) = Z.of_nat k - 1 /\
  decoder td2 = utf8_decoder_new.
Proof.
  intros Hs Hmin Hready Hbom Hk.
  destruct (process_split cp k Hs Hmin Hk) as [d1 [E1 [N1 [S1 E2]]]].
  assert (Hser : forall seen,
             (cp = BOM -> seen = true) ->
             snd (serialize seen [cp]) = [cp]).
  { intros seen H. cbn. destruct seen; [reflexivity|].
    destruct (Z.eqb_spec cp BOM) as [e|_]; [|reflexivity].
    specialize (H e). discriminate. }
  destruct td as [d seen dnf]. cbn [do_not_flush decoder BOM_seen] in *.
  unfold decode. cbn [do_not_flush decoder BOM_seen].
  destruct dnf.
  - rewrite (Hready eq_refl). cbn [decoder BOM_seen do_not_flush].
    rewrite E1. cbn [serialize].
    cbn [do_not_flush decoder BOM_seen]. rewrite E2.
    specialize (Hser seen (fun e => proj2 (Hbom e))).
    destruct (serialize seen [cp]) as [seen' items]. cbn [snd] in Hser.
    subst items. cbn [decoder from_scalar_values flat_map].
    rewrite app_nil_r. repeat split; assumption.
  - cbn [decoder BOM_seen do_not_flush].
    rewrite E1. cbn [serialize].
    cbn [do_not_flush decoder BOM_seen]. rewrite E2.
    assert (Hser' : snd (serialize false [cp]) = [cp]).
    { apply Hser. intros e. destruct (Hbom e). discriminate. }
    destruct (serialize false [cp]) as [seen' items]. cbn [snd] in Hser'.
    subst items. cbn [decoder from_scalar_values flat_map].
    rewrite app_nil_r. repeat split; assumption.
Qed.

(** C3, as the code has it in TextDecoderStream. The decoding stage of
    [createSerialReader] is streaming: when the bytes of a scalar value of
    two to four UTF-8 bytes are cut anywhere between two consecutive chunks,
    the first [transform] enqueues the empty string and keeps the unfinished
    sequence in the decoder, and the second enqueues exactly that character,
    with no replacement character. The decoder is taken at a character
    boundary, and the character is not a byte-order mark opening the
    stream (which the decoder removes). *)
Theorem TextDecoderStream_reassembles_split_character :
  forall (td : TextDecoder) (cp : Z) (k : nat),
    is_scalar_value cp = true -> 0x80 <= cp ->
    (do_not_flush td = true -> decoder td = utf8_decoder_new) ->
    (cp = BOM -> do_not_flush td = true /\ BOM_seen td = true) ->
    (0 < k < List.length (utf8_encode cp))%nat ->
    let (td1, out1) :=
      TextDecoderStream.transform td (firstn k (utf8_encode cp)) in
    let (td2, out2) :=
      TextDecoderStream.transform td1 (skipn k (utf8_encode cp)) in
    out1 = [[]] /\ out2 = [code_units cp] /\
    bytes_needed (decoder td1) =
      Z.of_nat (List.length (utf8_encode cp)) - 1 /\
    bytes_seen (decoder td1) = Z.of_nat k - 1 /\
    decoder td2 = utf8_decoder_new.
Proof.
  intros td cp k Hs Hmin Hready Hbom Hk.
  pose proof (decode_stream_split td cp k Hs Hmin Hready Hbom Hk) as H.
  unfold TextDecoderStream.transform.
  destruct (decode td (firstn k (utf8_encode cp)) true) as [td1 text1].
  destruct (decode td1 (skipn k (utf8_encode cp)) true) as [td2 text2].
  destruct H as [-> [-> [H1 [H2 H3]]]]. repeat split; assumption.
Qed.

Lemma TextDecoderStream_reassembles_split_character_witness :
  let (td1, out1) :=
    TextDecoderStream.transform TextDecoder_new
      (firstn 2 (utf8_encode 0x20AC)) in
  let (td2, out2) :=
    TextDecoderStream.transform td1 (skipn 2 (utf8_encode 0x20AC)) in
  out1 = [[]] /\ out2 = [code_units 0x20AC] /\
  bytes_needed (decoder td1) =
    Z.of_nat (List.length (utf8_encode 0x20AC)) - 1 /\
  bytes_seen (decoder td1) = Z.of_nat 2 - 1 /\
  decoder td2 = utf8_decoder_new.
Proof.
  apply (TextDecoderStream_reassembles_split_character
           TextDecoder_new 0x20AC 2%nat).
  - reflexivity.
  - lia.
  - intros H. discriminate H.
  - intros H. discriminate H.
  - simpl. lia.
Defined.

(** C3, as the claim has it, fails for the three-byte character U+FEFF at
    the start of a stream: fed as two bytes then one byte, nothing of it
    reaches the output. *)
Lemma TextDecoderStream_drops_split_leading_BOM :
  utf8_encode BOM = [0xEF; 0xBB; 0xBF] /\
  TransformStream.run TextDecoderStream.make [[0xEF; 0xBB]; [0xBF]] =
    [[]; []] /\
  ~ In BOM (concat
      (TransformStream.run TextDecoderStream.make [[0xEF; 0xBB]; [0xBF]])).
Proof. repeat split. intros H. exact H. Qed.

(** The euro sign cut as two bytes then one byte: the stream of
    [createSerialReader] delivers it, the read loop of the serial and
    Bluetooth [App.vue], which calls [decode] without [stream], pushes two
    replacement characters instead. *)
Lemma createSerialReader_split_euro :
  TransformStream.run SerialTransforms.createSerialReader
    [[0xE2; 0x82]; [0xAC]] = [[0x20AC]].
Proof. reflexivity. Qed.

Lemma startReading_garbles_split_character :
  utf8_encode 0x20AC = [0xE2; 0x82; 0xAC] /\
  App.startReading [] [[0xE2; 0x82; 0xAC]] = [[0x20AC]] /\
  App.startReading [] [[0xE2; 0x82]; [0xAC]] = [[REPLACEMENT]; [REPLACEMENT]].
Proof. repeat split. Qed.

(** *** The stream from bytes to lines *)

Lemma serialize_app seen o1 o2 :
  serialize seen (o1 ++ o2) =
    let (s1, i1) := serialize seen o1 in
    let (s2, i2) := serialize s1 o2 in
    (s2, i1 ++ i2).
Proof.
  destruct o1 as [|x o1]; cbn [app serialize].
  - destruct (serialize seen o2). reflexivity.
  - destruct seen; cbn [serialize].
    + destruct o2; cbn [serialize]; rewrite ?app_nil_r; reflexivity.
    + destruct (x =? BOM); destruct o2; cbn [serialize];
        rewrite ?app_nil_r; reflexivity.
Qed.

Lemma decode_stream_app td a b :
  decode td (a ++ b) true =
    let (td1, t1) := decode td a true in
    let (td2, t2) := decode td1 b true in
    (td2, t1 ++ t2).
Proof.
  unfold decode.
  set (td0 := if do_not_flush td then td
              else MkTextDecoder utf8_decoder_new false (do_not_flush td)).
  rewrite process_queue_app.
  destruct (process_queue (decoder td0) a) as [d1 o1].
  destruct (process_queue d1 b) as [d2 o2] eqn:E2.
  rewrite serialize_app.
  destruct (serialize (BOM_seen td0) o1) as [s1 i1].
  cbn [do_not_flush decoder BOM_seen]. rewrite E2.
  destruct (serialize s1 o2) as [s2 i2].
  unfold from_scalar_values. rewrite flat_map_app. reflexivity.
Qed.

(** The text enqueued by a TextDecoderStream, chunk after chunk, is the
    text of one streaming [decode] of all the bytes. *)
Lemma TextDecoderStream_text chunks : forall td,
  concat (snd (TransformStream.write_all TextDecoderStream.make td chunks)) =
  snd (decode td (concat chunks) true).
Proof.
  induction chunks as [|c rest IH]; intros td.
  - cbn [TransformStream.write_all concat snd]. unfold decode.
    cbn [process_queue]. destruct (do_not_flush td); reflexivity.
  - cbn [TransformStream.write_all concat TextDecoderStream.make
         TransformStream.transform].
    unfold TextDecoderStream.transform.
    rewrite decode_stream_app.
    destruct (decode td c true) as [td1 t1].
    specialize (IH td1).
    change (TransformStream.write_all TextDecoderStream.make td1 rest)
      with (TransformStream.write_all
              (TransformStream.Transformer TextDecoder_new
                 TextDecoderStream.transform (fun decoder => (decoder, [])))
              td1 rest) in IH.
    unfold TextDecoderStream.transform in IH.
    destruct (TransformStream.write_all _ td1 rest) as [td2 out].
    cbn [snd concat] in *.
    destruct (decode td1 (concat rest) true) as [td3 t3].
    cbn [snd] in *. subst t3. reflexivity.
Qed.

(** X1. For every sequence of bytes and every way of cutting it into
    chunks, the lines read from [createSerialReader] are those read when the
    bytes arrive as one chunk. *)
Theorem createSerialReader_chunking_does_not_change_lines :
  forall (input : bytes) (chunks : list bytes),
    concat chunks = input ->
    TransformStream.run SerialTransforms.createSerialReader chunks =
    TransformStream.run SerialTransforms.createSerialReader [input].
Proof.
  intros input chunks <-. unfold SerialTransforms.createSerialReader.
  rewrite !FramingFacts.run_pipeThrough.
  etransitivity; [apply LineBreakFacts.run_concat|].
  symmetry. etransitivity; [apply LineBreakFacts.run_concat|]. symmetry.
  f_equal. f_equal.
  unfold TransformStream.run.
  pose proof (TextDecoderStream_text chunks TextDecoder_new) as H1.
  pose proof (TextDecoderStream_text (@cons bytes (concat chunks) nil)
                TextDecoder_new) as H2.
  change (TransformStream.start TextDecoderStream.make)
    with TextDecoder_new.
  destruct (TransformStream.write_all TextDecoderStream.make
              TextDecoder_new chunks) as [td1 o1].
  destruct (TransformStream.write_all TextDecoderStream.make
              TextDecoder_new (@cons bytes (concat chunks) nil)) as [td2 o2].
  cbn [snd TransformStream.flush TextDecoderStream.make] in *.
  rewrite !app_nil_r, H1, H2. cbn [concat]. rewrite app_nil_r. reflexivity.
Qed.

(** *** The Bluetooth text conversions *)

Lemma decode_encode s :
  isWellFormed s = true -> hd_error s <> Some BOM ->
  snd (decode TextDecoder_new (TextEncoder_encode s) false) = s.
Proof.
  intros Hwf Hhd. unfold decode, TextEncoder_encode.
  cbn [TextDecoder_new do_not_flush decoder BOM_seen].
  rewrite (process_encoded_all _ (to_scalar_values_scalar s Hwf)).
  change (handle_end utf8_decoder_new) with (utf8_decoder_new, @nil Z).
  cbv iota. rewrite app_nil_r.
  pose proof (serialize_no_BOM _ (hd_to_scalar_values s Hwf Hhd)) as Hser.
  destruct (serialize false (to_scalar_values s)) as [seen items].
  cbn [snd] in *. subst items. apply from_to_scalar_values. exact Hwf.
Qed.

(** C10, as the code has it. For every well-formed string (no surrogate
    without its partner) that does not begin with U+FEFF,
    [dataViewToString] on a DataView over [stringToUint8Array(s)] gives
    back [s]. *)
Theorem dataViewToString_inverts_stringToUint8Array :
  forall s : jsstring,
    isWellFormed s = true -> hd_error s <> Some BOM ->
    BleTransforms.dataViewToString
      (BleTransforms.DataView_of (BleTransforms.stringToUint8Array s)) = s.
Proof.
  intros s Hwf Hhd.
  unfold BleTransforms.dataViewToString, BleTransforms.DataView_of,
    BleTransforms.stringToUint8Array, BleTransforms.u8_contents.
  cbn [BleTransforms.buffer BleTransforms.byteOffset BleTransforms.byteLength
       BleTransforms.u8_buffer BleTransforms.u8_byteOffset
       BleTransforms.u8_length skipn].
  rewrite firstn_all. apply decode_encode; assumption.
Qed.

Lemma dataViewToString_inverts_stringToUint8Array_witness :
  BleTransforms.dataViewToString
    (BleTransforms.DataView_of
       (BleTransforms.stringToUint8Array [0xD83D; 0xDE00; 0x20AC; 0x41])) =
  [0xD83D; 0xDE00; 0x20AC; 0x41].
Proof.
  apply (dataViewToString_inverts_stringToUint8Array
           [0xD83D; 0xDE00; 0x20AC; 0x41]).
  - reflexivity.
  - intros H. discriminate H.
Defined.

(** C10, as the claim has it, fails: a surrogate without its partner comes
    back as U+FFFD, and a leading U+FEFF does not come back at all. *)
Lemma roundtrip_loses_lone_surrogate_and_leading_BOM :
  BleTransforms.dataViewToString
    (BleTransforms.DataView_of (BleTransforms.stringToUint8Array [0xD800]))
    = [REPLACEMENT] /\
  BleTransforms.dataViewToString
    (BleTransforms.DataView_of (BleTransforms.stringToUint8Array [0xD800]))
    <> [0xD800] /\
  BleTransforms.dataViewToString
    (BleTransforms.DataView_of
       (BleTransforms.stringToUint8Array [BOM; 0x41])) = [0x41] /\
  BleTransforms.dataViewToString
    (BleTransforms.DataView_of
       (BleTransforms.stringToUint8Array [BOM; 0x41])) <> [BOM; 0x41].
Proof. repeat split; discriminate. Qed.

End CodecFacts.

(** ** Sequencing of async computations *)

Module AsyncFacts.
Import Async.

Section Laws.
Context {Platform St Call : Type}.

Lemma bind_ret_l {A B} (a : A) (k : A -> Async.M Platform St Call B) p s :
  bind (ret a) k p s = k a p s.
Proof.
  unfold bind, ret. destruct (k a p s) as [[r s'] t]. reflexivity.
Qed.

Lemma bind_ret_r {A} (m : Async.M Platform St Call A) p s : bind m ret p s = m p s.
Proof.
  unfold bind, ret. destruct (m p s) as [[[e|a] s'] t];
    rewrite ?app_nil_r; reflexivity.
Qed.

Lemma bind_assoc {A B C} (m : Async.M Platform St Call A) (k : A -> Async.M Platform St Call B) (h : B -> Async.M Platform St Call C) p s :
  bind (bind m k) h p s = bind m (fun a => bind (k a) h) p s.
Proof.
  unfold bind. destruct (m p s) as [[[e|a] s1] t1]; [reflexivity|].
  destruct (k a p s1) as [[[e|b] s2] t2]; [reflexivity|].
  destruct (h b p s2) as [[r s3] t3]. rewrite app_assoc. reflexivity.
Qed.

(** A body that throws nothing is not affected by its [catch]. *)
Lemma try_catch_no_throw {A} (body : Async.M Platform St Call A) handler p s a s' t :
  body p s = (inr a, s', t) -> try_catch body handler p s = (inr a, s', t).
Proof. intros H. unfold try_catch. rewrite H. reflexivity. Qed.

(** A [try]/[catch] whose handler throws nothing throws nothing. *)
Lemma try_catch_total {A} (body : Async.M Platform St Call A) handler p s :
  (forall e p s, exists a s' t, handler e p s = (inr a, s', t)) ->
  exists a s' t, try_catch body handler p s = (inr a, s', t).
Proof.
  intros Hh. unfold try_catch.
  destruct (body p s) as [[[e|a] s1] t1].
  - destruct (Hh e p s1) as [a [s2 [t2 E]]]. rewrite E. eauto.
  - eauto.
Qed.

End Laws.

End AsyncFacts.

(** ** The serial composables *)

Module SerialFacts.
Import JS Async.
Local Open Scope string_scope.

Ltac unfold_async :=
  unfold try_catch, bind, gets, modify, await, perform, when_some, ret.

Ltac case_outcome H :=
  match goal with
  | |- context [match ?o with inl _ => _ | inr _ => _ end] =>
      destruct o as [?e | []] eqn:H
  end.

(** The state and the platform of the counterexample: reader 2, writer 3 and
    port 1 are held, and closing the writer is rejected. *)
Lemma disconnect_writer_failure_run :
  UseSerial.disconnect
    (UseSerial.Platform
       (fun _ => inr tt)
       (fun _ => inl (ErrorObject "InvalidStateError" "writer is locked"))
       (fun _ => inr tt)
       (fun _ _ => inr tt))
    (UseSerial.State (Some 1%nat) true None (Some 2%nat) (Some 3%nat)) =
  (inr tt,
   UseSerial.State (Some 1%nat) true (Some "writer is locked") None
     (Some 3%nat),
   [UseSerial.ReaderCancel 2%nat; UseSerial.WriterClose 3%nat;
    UseSerial.ConsoleError "Disconnect failed:"
      (ErrorObject "InvalidStateError" "writer is locked")]).
Proof. reflexivity. Qed.

(** C4, as the claim has it, fails: when closing the writer is rejected,
    closing the port is not attempted and the session does not end Closed:
    the writer and the port are still held and [isConnected] is still
    true. *)
Lemma disconnect_writer_failure_leaves_port_open :
  let '(_, s', trace) :=
    UseSerial.disconnect
      (UseSerial.Platform
         (fun _ => inr tt)
         (fun _ => inl (ErrorObject "InvalidStateError" "writer is locked"))
         (fun _ => inr tt)
         (fun _ _ => inr tt))
      (UseSerial.State (Some 1%nat) true None (Some 2%nat) (Some 3%nat)) in
  ~ In (UseSerial.PortClose 1%nat) trace /\
  UseSerial.port s' = Some 1%nat /\
  UseSerial.writer s' = Some 3%nat /\
  UseSerial.isConnected s' = true.
Proof.
  rewrite disconnect_writer_failure_run. repeat split.
  intros [H|[H|[H|[]]]]; discriminate H.
Qed.

Ltac same_outcome :=
  repeat match goal with
         | H : Some _ = Some _ |- _ => injection H as H; subst
         | H : None = Some _ |- _ => discriminate H
         | H : forall h, Some ?x = Some h -> _ |- _ =>
             specialize (H x eq_refl)
         | H : forall m pt, Some ?x = Some m -> Some ?y = Some pt -> _ |- _ =>
             specialize (H x y eq_refl eq_refl)
         end;
  repeat match goal with
         | H1 : ?x = inl _, H2 : ?x = inl _ |- _ =>
             rewrite H1 in H2; injection H2 as H2; subst
         | H1 : ?x = inl _, H2 : ?x = inr _ |- _ =>
             rewrite H1 in H2; discriminate H2
         end.

(** C4, as the code has it. [disconnect] never throws. It takes the
    release steps in order (cancel the reader, close the writer, close the
    port), each only when its handle is set, and stops at the first step
    that is rejected: the error message is recorded, the handles released
    so far are cleared, the handle of the rejected step and the later ones
    stay, [isConnected] stays and no later step is attempted. When every
    step resolves the session ends Closed: reader, writer and port cleared,
    [isConnected] false, no error. The SerialManager variant does the same
    with its two steps (cancel the reader, close the port through the
    manager). *)
Theorem disconnect_stops_at_first_rejected_step :
  (forall (p : UseSerial.platform) (s : UseSerial.state),
     let '(r, s', trace) := UseSerial.disconnect p s in
     r = inr tt /\
     ((forall h, UseSerial.reader s = Some h ->
                 UseSerial.reader_cancel p h = inr tt) ->
      (forall h, UseSerial.writer s = Some h ->
                 UseSerial.writer_close p h = inr tt) ->
      (forall h, UseSerial.port s = Some h ->
                 UseSerial.port_close p h = inr tt) ->
      s' = UseSerial.State None false None None None) /\
     (forall h e,
        UseSerial.reader s = Some h -> UseSerial.reader_cancel p h = inl e ->
        s' = UseSerial.set_error
               (Some (message_or e "Failed to disconnect")) s /\
        trace = [UseSerial.ReaderCancel h;
                 UseSerial.ConsoleError "Disconnect failed:" e]) /\
     (forall h e,
        (forall r, UseSerial.reader s = Some r ->
                   UseSerial.reader_cancel p r = inr tt) ->
        UseSerial.writer s = Some h -> UseSerial.writer_close p h = inl e ->
        s' = UseSerial.set_error
               (Some (message_or e "Failed to disconnect"))
               (UseSerial.set_reader None s) /\
        (forall pt, ~ In (UseSerial.PortClose pt) trace)) /\
     (forall h e,
        (forall r, UseSerial.reader s = Some r ->
                   UseSerial.reader_cancel p r = inr tt) ->
        (forall w, UseSerial.writer s = Some w ->
                   UseSerial.writer_close p w = inr tt) ->
        UseSerial.port s = Some h -> UseSerial.port_close p h = inl e ->
        s' = UseSerial.set_error
               (Some (message_or e "Failed to disconnect"))
               (UseSerial.set_writer None (UseSerial.set_reader None s)))) /\
  (forall (p : UseSerialManager.platform) (s : UseSerialManager.state),
     let '(r, s', trace) := UseSerialManager.disconnect p s in
     r = inr tt /\
     ((forall h, UseSerialManager.reader s = Some h ->
                 UseSerialManager.reader_cancel p h = inr tt) ->
      (forall m pt, UseSerialManager.manager s = Some m ->
                    UseSerialManager.port s = Some pt ->
                    UseSerialManager.closePort p m = inr tt) ->
      UseSerialManager.reader s' = None /\
      UseSerialManager.isConnected s' = false /\
      UseSerialManager.error s' = None /\
      (UseSerialManager.manager s <> None ->
       UseSerialManager.port s' = None)) /\
     (forall h e,
        UseSerialManager.reader s = Some h ->
        UseSerialManager.reader_cancel p h = inl e ->
        s' = UseSerialManager.set_error
               (Some (message_or e "Failed to disconnect")) s /\
        trace = [UseSerialManager.ReaderCancel h;
                 UseSerialManager.ConsoleError "Disconnect failed:" e]) /\
     (forall m pt e,
        (forall r, UseSerialManager.reader s = Some r ->
                   UseSerialManager.reader_cancel p r = inr tt) ->
        UseSerialManager.manager s = Some m ->
        UseSerialManager.port s = Some pt ->
        UseSerialManager.closePort p m = inl e ->
        s' = UseSerialManager.set_error
               (Some (message_or e "Failed to disconnect"))
               (UseSerialManager.set_reader None s))).
Proof.
  split; intros p s.
  - destruct s as [pt c err r w].
    unfold UseSerial.disconnect. unfold_async.
    cbn [UseSerial.reader UseSerial.writer UseSerial.port UseSerial.set_error
         UseSerial.set_reader UseSerial.set_writer UseSerial.set_port
         UseSerial.set_isConnected UseSerial.isConnected UseSerial.error].
    destruct r as [r|];
      [destruct (UseSerial.reader_cancel p r) as [e1|[]] eqn:E1|];
      (destruct w as [w|];
       [destruct (UseSerial.writer_close p w) as [e2|[]] eqn:E2|]);
      (destruct pt as [pt|];
       [destruct (UseSerial.port_close p pt) as [e3|[]] eqn:E3|]);
      repeat (cbn; first [rewrite E1 | rewrite E2 | rewrite E3]); cbn.
    all: repeat apply conj; try reflexivity; intros.
    all: same_outcome.
    all: try reflexivity.
    all: try (split; [reflexivity|]).
    all: try reflexivity.
    all: intros pt' Hin; cbn in Hin; intuition discriminate.
  - destruct s as [m pt c err r].
    unfold UseSerialManager.disconnect. unfold_async.
    cbn [UseSerialManager.reader UseSerialManager.manager
         UseSerialManager.port UseSerialManager.set_error
         UseSerialManager.set_reader UseSerialManager.set_port
         UseSerialManager.set_isConnected UseSerialManager.isConnected
         UseSerialManager.error].
    destruct r as [r|];
      [destruct (UseSerialManager.reader_cancel p r) as [e1|[]] eqn:E1|];
      (destruct m as [m|];
       [destruct (UseSerialManager.closePort p m) as [e2|[]] eqn:E2|]);
      destruct pt as [pt|];
      repeat (cbn; first [rewrite E1 | rewrite E2]); cbn.
    all: repeat apply conj; try reflexivity; intros.
    all: same_outcome.
    all: try reflexivity.
    all: try (split; reflexivity).
    all: repeat split; congruence.
Qed.

Lemma disconnect_stops_at_first_rejected_step_witness :
  let '(_, s', trace) :=
    UseSerial.disconnect
      (UseSerial.Platform
         (fun _ => inr tt)
         (fun _ => inl (ErrorObject "InvalidStateError" "writer is locked"))
         (fun _ => inr tt)
         (fun _ _ => inr tt))
      (UseSerial.State (Some 1%nat) true None (Some 2%nat) (Some 3%nat)) in
  s' = UseSerial.set_error (Some "writer is locked")
         (UseSerial.set_reader None
            (UseSerial.State (Some 1%nat) true None (Some 2%nat)
               (Some 3%nat))) /\
  (forall pt, ~ In (UseSerial.PortClose pt) trace).
Proof.
  pose proof (proj1 disconnect_stops_at_first_rejected_step
                (UseSerial.Platform
                   (fun _ => inr tt)
                   (fun _ =>
                      inl (ErrorObject "InvalidStateError" "writer is locked"))
                   (fun _ => inr tt)
                   (fun _ _ => inr tt))
                (UseSerial.State (Some 1%nat) true None (Some 2%nat)
                   (Some 3%nat))) as H.
  rewrite disconnect_writer_failure_run in *.
  destruct H as [_ [_ [_ [H _]]]].
  apply (H 3%nat (ErrorObject "InvalidStateError" "writer is locked"));
    [intros r _ | | ]; reflexivity.
Defined.

(** C6. For every text, [write] without an active writer (or, in the
    SerialManager variant, without a manager or while not connected) records
    "No active connection" as the last error, throws nothing, writes nothing
    and leaves every other ref as it was. With a writer it makes exactly one
    write, of the UTF-8 encoding of the text and nothing more, and throws
    nothing. *)
Theorem write_needs_connection_and_writes_text_once :
  (forall (p : UseSerial.platform) (s : UseSerial.state) (data : jsstring),
     UseSerial.writer s = None ->
     UseSerial.write data p s =
       (inr tt, UseSerial.set_error (Some "No active connection") s, [])) /\
  (forall (p : UseSerial.platform) (s : UseSerial.state) (data : jsstring)
          (w : UseSerial.Writer),
     UseSerial.writer s = Some w ->
     let '(r, s', trace) := UseSerial.write data p s in
     r = inr tt /\
     hd_error trace =
       Some (UseSerial.WriterWrite w (Encoding.TextEncoder_encode data)) /\
     UseSerial.written trace = [Encoding.TextEncoder_encode data]) /\
  (forall (p : UseSerialManager.platform) (s : UseSerialManager.state)
          (data : jsstring),
     UseSerialManager.manager s = None \/
     UseSerialManager.isConnected s = false ->
     UseSerialManager.write data p s =
       (inr tt,
        UseSerialManager.set_error (Some "No active connection") s, [])) /\
  (forall (p : UseSerialManager.platform) (s : UseSerialManager.state)
          (data : jsstring) (m : UseSerialManager.SerialManager),
     UseSerialManager.manager s = Some m ->
     UseSerialManager.isConnected s = true ->
     let '(r, s', trace) := UseSerialManager.write data p s in
     r = inr tt /\
     hd_error trace =
       Some (UseSerialManager.WriteData m (Encoding.TextEncoder_encode data)) /\
     UseSerialManager.written trace = [Encoding.TextEncoder_encode data]).
Proof.
  repeat apply conj.
  - intros p s data H. destruct s as [pt c err r w]. cbn in H. subst w.
    reflexivity.
  - intros p s data w H. destruct s as [pt c err r w']. cbn in H. subst w'.
    unfold UseSerial.write. unfold_async. cbn.
    destruct (UseSerial.writer_write p w (Encoding.TextEncoder_encode data))
      as [e|[]]; cbn; repeat split.
  - intros p s data H. destruct s as [m pt c err r]. cbn in H.
    destruct H as [-> | ->]; [reflexivity|].
    destruct m; reflexivity.
  - intros p s data m Hm Hc. destruct s as [m' pt c err r]. cbn in Hm, Hc.
    subst m' c.
    unfold UseSerialManager.write. unfold_async. cbn.
    destruct (UseSerialManager.writeData p m (Encoding.TextEncoder_encode data))
      as [e|[]]; cbn; repeat split.
Qed.

(** The message sent by [sendMessage] for the input "AT": [write] is given
    the text with the newline that the caller appended, and writes those
    three bytes. *)
Lemma write_needs_connection_and_writes_text_once_witness :
  UseSerial.write (lit "AT" ++ [NL])%list
    (UseSerial.Platform (fun _ => inr tt) (fun _ => inr tt)
       (fun _ => inr tt) (fun _ _ => inr tt))
    (UseSerial.State (Some 1%nat) true None None None) =
    (inr tt,
     UseSerial.set_error (Some "No active connection")
       (UseSerial.State (Some 1%nat) true None None None), []) /\
  let '(r, s', trace) :=
    UseSerial.write (lit "AT" ++ [NL])%list
      (UseSerial.Platform (fun _ => inr tt) (fun _ => inr tt)
         (fun _ => inr tt) (fun _ _ => inr tt))
      (UseSerial.State (Some 1%nat) true None None (Some 3%nat)) in
  r = inr tt /\
  hd_error trace =
    Some (UseSerial.WriterWrite 3%nat
            (Encoding.TextEncoder_encode (lit "AT" ++ [NL])%list)) /\
  UseSerial.written trace = [Encoding.TextEncoder_encode (lit "AT" ++ [NL])%list].
Proof.
  destruct write_needs_connection_and_writes_text_once as [H1 [H2 _]].
  split.
  - apply H1. reflexivity.
  - apply (H2 _ _ _ 3%nat). reflexivity.
Defined.

Example write_AT_bytes :
  Encoding.TextEncoder_encode (lit "AT" ++ [NL])%list = [65; 84; 10].
Proof. reflexivity. Qed.

End SerialFacts.

(** ** The Bluetooth composable *)

Module BluetoothFacts.
Import JS Async UseBluetooth.
Local Open Scope string_scope.

Ltac unfold_async :=
  unfold try_catch, bind, gets, modify, await, perform, observe, throw,
    when_some, deref, ret.

(** C5. [connect] hands the platform its disconnect listener (the first
    function given to [connectToServer]). Whenever that listener is called,
    in any state and without [disconnect()] being called, the list of
    services becomes empty, the selected service and the selected
    characteristic become null and [isConnected] becomes false; the listener
    makes no platform call ([gatt.disconnect()] is not called) and leaves
    the last error as it was. *)
Theorem disconnect_listener_resets_downstream_state :
  (forall (p : platform) (s : state) m d,
     manager s = Some m -> device s = Some d ->
     let '(_, _, trace) := connect p s in
     hd_error trace = Some (ConnectToServer m OnDisconnected OnServiceAdded)) /\
  (forall (p : platform) (s : state),
     let '(r, s', trace) := invoke OnDisconnected p s in
     r = inr tt /\
     services s' = [] /\
     currentService s' = None /\
     currentCharacteristic s' = None /\
     isConnected s' = false /\
     device s' = None /\
     manager s' = manager s /\
     error s' = error s /\
     trace = [ConsoleLog "Disconnected:"] /\
     (forall d, ~ In (GattDisconnect d) trace)).
Proof.
  split.
  - intros p s m d Hm Hd. destruct s as [m' d' c e sv cs cc].
    cbn in Hm, Hd. subst m' d'.
    unfold connect. unfold_async. cbn.
    destruct (connectToServer p m OnDisconnected OnServiceAdded) as [err|[]];
      reflexivity.
  - intros p s. cbn. repeat split.
    intros d [H|[]]. discriminate H.
Qed.

Lemma disconnect_listener_resets_downstream_state_witness :
  let '(_, _, trace) :=
    connect
      (Platform (fun _ _ _ => inr tt)
         (fun _ _ => inl OtherValue) (fun _ _ _ => inl OtherValue)
         (fun _ => true) (fun _ => inr tt) (fun _ => inr tt))
      (State (Some 1%nat) (Some 2%nat) false None [] None None) in
  hd_error trace =
    Some (ConnectToServer 1%nat OnDisconnected OnServiceAdded).
Proof.
  apply (proj1 disconnect_listener_resets_downstream_state
           (Platform (fun _ _ _ => inr tt)
              (fun _ _ => inl OtherValue) (fun _ _ _ => inl OtherValue)
              (fun _ => true) (fun _ => inr tt) (fun _ => inr tt))
           (State (Some 1%nat) (Some 2%nat) false None [] None None)
           1%nat 2%nat); reflexivity.
Defined.

(** [disconnect()] itself, for comparison: it clears the last error and,
    when the device is connected, calls [gatt.disconnect()]. *)
Example disconnect_calls_gatt_disconnect :
  disconnect
    (Platform (fun _ _ _ => inr tt)
       (fun _ _ => inl OtherValue) (fun _ _ _ => inl OtherValue)
       (fun _ => true) (fun _ => inr tt) (fun _ => inr tt))
    (State (Some 1%nat) (Some 2%nat) true (Some "old") [] None None) =
  (inr tt, State (Some 1%nat) None false None [] None None,
   [GattDisconnect 2%nat]).
Proof. reflexivity. Qed.

(** C7. In every state with a selected service, a [selectCharacteristic]
    that fails (the last error is set: the platform rejected the lookup,
    for instance with a NotFoundError for an identifier of another service,
    or the manager is missing) throws nothing and leaves the selected
    service, the selected characteristic and every other ref but the last
    error as they were; when the platform rejects the lookup, its message is
    the last error. *)
Theorem failed_selectCharacteristic_keeps_selection :
  forall (p : platform) (s : state) (svc : BluetoothRemoteGATTService)
         (charUuid : string) (valueChangedCallback : option callback),
    currentService s = Some svc ->
    let '(r, s', _) := selectCharacteristic charUuid valueChangedCallback p s in
    r = inr tt /\
    (error s' <> None ->
     currentService s' = Some svc /\
     currentCharacteristic s' = currentCharacteristic s /\
     s' = set_error (error s') s) /\
    (forall m e,
       manager s = Some m ->
       getCharacteristic p m charUuid
         (match valueChangedCallback with
          | Some cb => cb
          | None => LogValueChanged
          end) = inl e ->
       error s' = Some (message_or e "Failed to select characteristic")).
Proof.
  intros p s svc charUuid vcb Hsvc. destruct s as [m d c e sv cs cc].
  cbn in Hsvc. subst cs.
  unfold selectCharacteristic. unfold_async. cbn.
  destruct m as [m|]; cbn.
  - destruct (getCharacteristic p m charUuid
                match vcb with Some cb => cb | None => LogValueChanged end)
      as [err|ch] eqn:E; cbn.
    + repeat split. intros m' e' Hm' He'. injection Hm' as <-.
      rewrite E in He'. injection He' as <-. reflexivity.
    + repeat split; congruence.
  - repeat split. intros m' e' Hm'. discriminate Hm'.
Qed.

(** [selectService] succeeds, then [selectCharacteristic] is given an
    identifier that the platform does not find in that service. *)
Lemma failed_selectCharacteristic_keeps_selection_witness :
  let '(r, s', _) :=
    selectCharacteristic "6e400002-b5a3-f393-e0a9-e50e24dcca9e" None
      (Platform (fun _ _ _ => inr tt)
         (fun _ u => inr (Service 1 u))
         (fun _ _ _ =>
            inl (ErrorObject "NotFoundError"
                   "No Characteristics matching UUID found in Service."))
         (fun _ => true) (fun _ => inr tt) (fun _ => inr tt))
      (State (Some 1%nat) (Some 2%nat) true None []
         (Some (Service 1 "0000180f-0000-1000-8000-00805f9b34fb")) None) in
  r = inr tt /\
  (error s' <> None ->
   currentService s' =
     Some (Service 1 "0000180f-0000-1000-8000-00805f9b34fb") /\
   currentCharacteristic s' = None /\
   s' = set_error (error s')
          (State (Some 1%nat) (Some 2%nat) true None []
             (Some (Service 1 "0000180f-0000-1000-8000-00805f9b34fb"))
             None)) /\
  (forall m e,
     Some 1%nat = Some m ->
     @inl thrown BluetoothRemoteGATTCharacteristic
       (ErrorObject "NotFoundError"
          "No Characteristics matching UUID found in Service.") = inl e ->
     error s' = Some (message_or e "Failed to select characteristic")).
Proof.
  apply (failed_selectCharacteristic_keeps_selection
           (Platform (fun _ _ _ => inr tt)
              (fun _ u => inr (Service 1 u))
              (fun _ _ _ =>
                 inl (ErrorObject "NotFoundError"
                        "No Characteristics matching UUID found in Service."))
              (fun _ => true) (fun _ => inr tt) (fun _ => inr tt))
           (State (Some 1%nat) (Some 2%nat) true None []
              (Some (Service 1 "0000180f-0000-1000-8000-00805f9b34fb")) None)
           (Service 1 "0000180f-0000-1000-8000-00805f9b34fb")).
  reflexivity.
Defined.

Example failed_selectCharacteristic_run :
  selectCharacteristic "6e400002-b5a3-f393-e0a9-e50e24dcca9e" None
    (Platform (fun _ _ _ => inr tt)
       (fun _ u => inr (Service 1 u))
       (fun _ _ _ =>
          inl (ErrorObject "NotFoundError"
                 "No Characteristics matching UUID found in Service."))
       (fun _ => true) (fun _ => inr tt) (fun _ => inr tt))
    (State (Some 1%nat) (Some 2%nat) true None []
       (Some (Service 1 "0000180f-0000-1000-8000-00805f9b34fb")) None) =
  (inr tt,
   State (Some 1%nat) (Some 2%nat) true
     (Some "No Characteristics matching UUID found in Service.") []
     (Some (Service 1 "0000180f-0000-1000-8000-00805f9b34fb")) None,
   [GetCharacteristic 1%nat "6e400002-b5a3-f393-e0a9-e50e24dcca9e"
      LogValueChanged;
    ConsoleError "Select characteristic failed:"
      (ErrorObject "NotFoundError"
         "No Characteristics matching UUID found in Service.")]).
Proof. reflexivity. Qed.

Lemma listeners_no_add c trace :
  (forall c' type l, ~ In (AddEventListener c' type l) trace) ->
  forall before, listeners c before trace = before.
Proof.
  induction trace as [|x trace IH]; intros Hno before; [reflexivity|].
  assert (Hrest : forall c' type l, ~ In (AddEventListener c' type l) trace).
  { intros c' type l Hin. apply (Hno c' type l). right. exact Hin. }
  destruct x; cbn [listeners]; try (apply IH; exact Hrest).
  exfalso. eapply Hno. left. reflexivity.
Qed.

(** C8, as the claim has it, fails: the composable does not look at the
    capabilities of the characteristic. A characteristic without the notify
    bit but with the indicate bit, on a platform that follows Web Bluetooth:
    the platform starts the value stream, [startNotifications] records no
    error and registers the listener, and a value change then calls it. *)
Lemma startNotifications_registers_listener_without_notify_bit :
  let '(r, s', trace) :=
    startNotifications (Caller 7)
      (Platform (fun _ _ _ => inr tt)
         (fun _ _ => inl OtherValue) (fun _ _ _ => inl OtherValue)
         (fun _ => true) (fun _ => inr tt)
         (fun c =>
            if notify (properties c) || indicate (properties c)
            then inr tt
            else inl (ErrorObject "NotSupportedError"
                        "GATT operation not supported.")))
      (State (Some 1%nat) (Some 2%nat) true None []
         (Some (Service 1 "6e400001-b5a3-f393-e0a9-e50e24dcca9e"))
         (Some (Characteristic 5
                  (Service 1 "6e400001-b5a3-f393-e0a9-e50e24dcca9e")
                  "6e400003-b5a3-f393-e0a9-e50e24dcca9e"
                  (Properties false true false false false true
                     false false false)))) in
  rejects_unsupported_notifications
    (Platform (fun _ _ _ => inr tt)
       (fun _ _ => inl OtherValue) (fun _ _ _ => inl OtherValue)
       (fun _ => true) (fun _ => inr tt)
       (fun c =>
          if notify (properties c) || indicate (properties c)
          then inr tt
          else inl (ErrorObject "NotSupportedError"
                      "GATT operation not supported."))) /\
  notify (Properties false true false false false true false false false) =
    false /\
  r = inr tt /\
  error s' = None /\
  listeners
    (Characteristic 5
       (Service 1 "6e400001-b5a3-f393-e0a9-e50e24dcca9e")
       "6e400003-b5a3-f393-e0a9-e50e24dcca9e"
       (Properties false true false false false true false false false))
    [] trace = [Caller 7] /\
  snd (dispatch [Caller 7]
         (Platform (fun _ _ _ => inr tt)
            (fun _ _ => inl OtherValue) (fun _ _ _ => inl OtherValue)
            (fun _ => true) (fun _ => inr tt)
            (fun c =>
               if notify (properties c) || indicate (properties c)
               then inr tt
               else inl (ErrorObject "NotSupportedError"
                           "GATT operation not supported.")))
         s') = [CallCaller 7].
Proof.
  cbn. repeat apply conj; try reflexivity.
  intros c Hn Hi. exists "GATT operation not supported.".
  cbn. rewrite Hn, Hi. reflexivity.
Qed.

(** C8, as the code has it. [startNotifications] makes no capability check
    of its own: on a selected characteristic it throws nothing, changes no
    ref but the last error and first calls [startNotifications()] of the
    platform, whatever the capability bits. When that call is rejected, the
    rejection's message is the last error and no listener is registered: no
    [addEventListener] call is made, so the listeners of the
    characteristic, which a value change would call, are the ones it had.
    When it resolves, no error is recorded and the one call that follows
    registers the listener. A platform that follows Web Bluetooth rejects
    the call with a NotSupportedError for a characteristic with neither the
    notify nor the indicate bit, which then is the error recorded. On every
    platform and in every state, the listener is added only once
    [startNotifications()] of the platform has resolved, right after it. *)
Theorem startNotifications_registers_listener_only_when_platform_starts :
  forall (p : platform) (s : state) (c : BluetoothRemoteGATTCharacteristic)
         (callback : callback),
    currentCharacteristic s = Some c ->
    (let '(r, s', trace) := startNotifications callback p s in
     r = inr tt /\
     hd_error trace = Some (StartNotifications c) /\
     s' = set_error (error s') s /\
     match startNotifications_of p c with
     | inr _ =>
         error s' = None /\
         trace = [StartNotifications c;
                  AddEventListener c "characteristicvaluechanged" callback]
     | inl e =>
         error s' = Some (message_or e "Failed to start notifications") /\
         (forall c' type l, ~ In (AddEventListener c' type l) trace) /\
         (forall before, listeners c before trace = before)
     end) /\
    (rejects_unsupported_notifications p ->
     notify (properties c) = false ->
     indicate (properties c) = false ->
     let '(_, s', trace) := startNotifications callback p s in
     (exists message,
        startNotifications_of p c =
          inl (ErrorObject "NotSupportedError" message) /\
        error s' = Some message) /\
     (forall c' type l, ~ In (AddEventListener c' type l) trace) /\
     (forall before, listeners c before trace = before)) /\
    (forall (p' : platform) (s0 : state) c' type l,
       let '(_, _, trace) := startNotifications callback p' s0 in
       In (AddEventListener c' type l) trace ->
       currentCharacteristic s0 = Some c' /\
       startNotifications_of p' c' = inr tt /\
       trace = [StartNotifications c';
                AddEventListener c' "characteristicvaluechanged" callback]).
Proof.
  intros p s c cb Hc.
  assert (Hrej : forall e,
            startNotifications_of p c = inl e ->
            startNotifications cb p s =
              (inr tt,
               set_error (Some (message_or e "Failed to start notifications"))
                 s,
               [StartNotifications c;
                ConsoleError "Start notifications failed:" e])).
  { intros e He. destruct s as [m d co er sv cs cc]. cbn in Hc. subst cc.
    unfold startNotifications. unfold_async. cbn. rewrite He. reflexivity. }
  assert (Hno : forall e c' type l,
            ~ In (AddEventListener c' type l)
                [StartNotifications c;
                 ConsoleError "Start notifications failed:" e]).
  { intros e c' type l [H|[H|[]]]; discriminate H. }
  split; [|split].
  - destruct (startNotifications_of p c) as [e|[]] eqn:E.
    + rewrite (Hrej e eq_refl). destruct s as [m d co er sv cs cc].
      repeat apply conj; try reflexivity. apply Hno.
    + destruct s as [m d co er sv cs cc]. cbn in Hc. subst cc.
      unfold startNotifications. unfold_async. cbn. rewrite E. cbn.
      repeat apply conj; reflexivity.
  - intros Hp Hn Hi. destruct (Hp c Hn Hi) as [msg Hmsg].
    rewrite (Hrej _ Hmsg). destruct s as [m d co er sv cs cc].
    split; [exists msg; split; [exact Hmsg | reflexivity]|].
    split; [apply Hno | intros before; reflexivity].
  - intros p' s0 c' type l. destruct s0 as [m d co e sv cs cc].
    unfold startNotifications. unfold_async. cbn.
    destruct cc as [c0|]; cbn.
    + destruct (startNotifications_of p' c0) as [err|[]] eqn:E; cbn.
      * intros [H|[H|[]]]; discriminate H.
      * intros [H|[H|[]]]; [discriminate H|].
        injection H as <- _ _. repeat split. exact E.
    + intros [].
Qed.

(** A write-only characteristic on a platform that follows Web Bluetooth:
    the platform's NotSupportedError is recorded and no listener is
    added. *)
Lemma startNotifications_registers_listener_only_when_platform_starts_witness :
  let '(r, s', trace) :=
    startNotifications (Caller 7)
      (Platform (fun _ _ _ => inr tt)
         (fun _ _ => inl OtherValue) (fun _ _ _ => inl OtherValue)
         (fun _ => true) (fun _ => inr tt)
         (fun c =>
            if notify (properties c) || indicate (properties c)
            then inr tt
            else inl (ErrorObject "NotSupportedError"
                        "GATT operation not supported.")))
      (State (Some 1%nat) (Some 2%nat) true None []
         (Some (Service 1 "6e400001-b5a3-f393-e0a9-e50e24dcca9e"))
         (Some (Characteristic 5
                  (Service 1 "6e400001-b5a3-f393-e0a9-e50e24dcca9e")
                  "6e400002-b5a3-f393-e0a9-e50e24dcca9e"
                  (Properties false false true true false false
                     false false false)))) in
  r = inr tt /\
  hd_error trace =
    Some (StartNotifications
            (Characteristic 5
               (Service 1 "6e400001-b5a3-f393-e0a9-e50e24dcca9e")
               "6e400002-b5a3-f393-e0a9-e50e24dcca9e"
               (Properties false false true true false false
                  false false false))) /\
  s' = set_error (error s')
         (State (Some 1%nat) (Some 2%nat) true None []
            (Some (Service 1 "6e400001-b5a3-f393-e0a9-e50e24dcca9e"))
            (Some (Characteristic 5
                     (Service 1 "6e400001-b5a3-f393-e0a9-e50e24dcca9e")
                     "6e400002-b5a3-f393-e0a9-e50e24dcca9e"
                     (Properties false false true true false false
                        false false false)))) /\
  error s' = Some "GATT operation not supported." /\
  (forall c' type l, ~ In (AddEventListener c' type l) trace) /\
  (forall before,
     listeners
       (Characteristic 5
          (Service 1 "6e400001-b5a3-f393-e0a9-e50e24dcca9e")
          "6e400002-b5a3-f393-e0a9-e50e24dcca9e"
          (Properties false false true true false false false false false))
       before trace = before).
Proof.
  exact (proj1
           (startNotifications_registers_listener_only_when_platform_starts
              (Platform (fun _ _ _ => inr tt)
                 (fun _ _ => inl OtherValue) (fun _ _ _ => inl OtherValue)
                 (fun _ => true) (fun _ => inr tt)
                 (fun c =>
                    if notify (properties c) || indicate (properties c)
                    then inr tt
                    else inl (ErrorObject "NotSupportedError"
                                "GATT operation not supported.")))
              (State (Some 1%nat) (Some 2%nat) true None []
                 (Some (Service 1 "6e400001-b5a3-f393-e0a9-e50e24dcca9e"))
                 (Some (Characteristic 5
                          (Service 1 "6e400001-b5a3-f393-e0a9-e50e24dcca9e")
                          "6e400002-b5a3-f393-e0a9-e50e24dcca9e"
                          (Properties false false true true false false
                             false false false))))
              (Characteristic 5
                 (Service 1 "6e400001-b5a3-f393-e0a9-e50e24dcca9e")
                 "6e400002-b5a3-f393-e0a9-e50e24dcca9e"
                 (Properties false false true true false false
                    false false false))
              (Caller 7) eq_refl)).
Defined.

(** On a characteristic that can notify, the listener follows the start of
    the notifications; a value change then calls it. *)
Example startNotifications_supported_run :
  startNotifications (Caller 7)
    (Platform (fun _ _ _ => inr tt)
       (fun _ _ => inl OtherValue) (fun _ _ _ => inl OtherValue)
       (fun _ => true) (fun _ => inr tt) (fun _ => inr tt))
    (State (Some 1%nat) (Some 2%nat) true None [] None
       (Some (Characteristic 5 (Service 1 "s") "c"
                (Properties false false false false true false
                   false false false)))) =
  (inr tt,
   State (Some 1%nat) (Some 2%nat) true None [] None
     (Some (Characteristic 5 (Service 1 "s") "c"
              (Properties false false false false true false
                 false false false))),
   [StartNotifications
      (Characteristic 5 (Service 1 "s") "c"
         (Properties false false false false true false false false false));
    AddEventListener
      (Characteristic 5 (Service 1 "s") "c"
         (Properties false false false false true false false false false))
      "characteristicvaluechanged" (Caller 7)]).
Proof. reflexivity. Qed.

End BluetoothFacts.

(* ===================================================================== *)
(** * Part III: further properties of the sources                         *)
(* ===================================================================== *)

(** ** The streams of serialTransforms.ts *)

Module PipelineFacts.
Import JS Encoding EncodingFacts FramingFacts.

(** The lines read from [createSerialReader] are the lines of the text
    that one streaming [decode] makes of all the bytes. *)
Lemma createSerialReader_lines (chunks : list bytes) :
  TransformStream.run SerialTransforms.createSerialReader chunks =
  TransformStream.run LineBreakTransformer.make
    [snd (decode TextDecoder_new (concat chunks) true)].
Proof.
  unfold SerialTransforms.createSerialReader.
  rewrite run_pipeThrough.
  etransitivity; [apply LineBreakFacts.run_concat|].
  f_equal. f_equal.
  unfold TransformStream.run.
  pose proof (CodecFacts.TextDecoderStream_text chunks TextDecoder_new) as H.
  change (TransformStream.start TextDecoderStream.make)
    with TextDecoder_new.
  destruct (TransformStream.write_all TextDecoderStream.make
              TextDecoder_new chunks) as [td out].
  cbn [snd TransformStream.flush TextDecoderStream.make] in *.
  rewrite app_nil_r. exact H.
Qed.

Lemma createSerialReader_chunking_does_not_change_lines_witness :
  concat [[0x41; 0xE2]; [0x82; 0xAC; 0x0A; 0x42]] =
    [0x41; 0xE2; 0x82; 0xAC; 0x0A; 0x42] /\
  TransformStream.run SerialTransforms.createSerialReader
    [[0x41; 0xE2]; [0x82; 0xAC; 0x0A; 0x42]] =
  TransformStream.run SerialTransforms.createSerialReader
    [[0x41; 0xE2; 0x82; 0xAC; 0x0A; 0x42]].
Proof.
  split; [reflexivity|].
  apply (CodecFacts.createSerialReader_chunking_does_not_change_lines
           [0x41; 0xE2; 0x82; 0xAC; 0x0A; 0x42]
           [[0x41; 0xE2]; [0x82; 0xAC; 0x0A; 0x42]]).
  reflexivity.
Defined.

(** X2. Whatever the cuts between the chunks, the strings enqueued by a
    TextDecoderStream, put end to end, are the text that one streaming
    [decode] makes of all the bytes. *)
Theorem TextDecoderStream_text_is_one_streaming_decode :
  forall chunks : list bytes,
    concat (TransformStream.run TextDecoderStream.make chunks) =
    snd (decode TextDecoder_new (concat chunks) true).
Proof.
  intros chunks. unfold TransformStream.run.
  pose proof (CodecFacts.TextDecoderStream_text chunks TextDecoder_new) as H.
  change (TransformStream.start TextDecoderStream.make)
    with TextDecoder_new.
  destruct (TransformStream.write_all TextDecoderStream.make
              TextDecoder_new chunks) as [td out].
  cbn [snd TransformStream.flush TextDecoderStream.make] in *.
  rewrite app_nil_r. exact H.
Qed.

(** X3. The lines read from a LineBreakTransformer are the fragments of
    the whole text between its newlines, in order, without the last
    fragment when that one is empty; none of them holds a newline. *)
Theorem LineBreakTransformer_lines_are_the_fragments :
  forall chunks : list jsstring,
    TransformStream.run LineBreakTransformer.make chunks =
      (if truthy (last (split NL (concat chunks)) [])
       then split NL (concat chunks)
       else removelast (split NL (concat chunks))) /\
    Forall (fun line => ~ In NL line)
      (TransformStream.run LineBreakTransformer.make chunks).
Proof.
  intros chunks.
  destruct (LineBreakFacts.run_split chunks) as [out [b [Hs Hr]]].
  pose proof (split_no_sep NL (concat chunks)) as Hn.
  rewrite Hs in *. rewrite last_last, removelast_last, Hr.
  apply Forall_app in Hn. destruct Hn as [Ho Hb].
  destruct (truthy b).
  - split; [reflexivity|]. apply Forall_app. split; assumption.
  - rewrite app_nil_r. split; [reflexivity | exact Ho].
Qed.

(** X4. The TextDecoderStream has no [flush]: when the bytes end in the
    middle of a character, that unfinished character gives no output at
    all, not even a replacement character. *)
Theorem TextDecoderStream_drops_unfinished_last_character :
  forall (cp : Z) (k : nat),
    is_scalar_value cp = true -> 0x80 <= cp ->
    (0 < k < List.length (utf8_encode cp))%nat ->
    TransformStream.run TextDecoderStream.make [firstn k (utf8_encode cp)] =
      [[]].
Proof.
  intros cp k Hs Hmin Hk.
  destruct (process_split cp k Hs Hmin Hk) as [d1 [E1 _]].
  unfold TransformStream.run.
  cbn [TransformStream.write_all TextDecoderStream.make
       TransformStream.start TransformStream.transform
       TransformStream.flush snd].
  unfold TextDecoderStream.transform, decode.
  cbn [TextDecoder_new do_not_flush decoder BOM_seen].
  rewrite E1. reflexivity.
Qed.

Lemma TextDecoderStream_drops_unfinished_last_character_witness :
  TransformStream.run TextDecoderStream.make
    [firstn 2 (utf8_encode 0x20AC)] = [[]].
Proof.
  apply (TextDecoderStream_drops_unfinished_last_character 0x20AC 2%nat).
  - reflexivity.
  - lia.
  - simpl. lia.
Defined.

Lemma decode_encode_stream s :
  isWellFormed s = true -> hd_error s <> Some BOM ->
  snd (decode TextDecoder_new (TextEncoder_encode s) true) = s.
Proof.
  intros Hwf Hhd. unfold decode, TextEncoder_encode.
  cbn [TextDecoder_new do_not_flush decoder BOM_seen].
  rewrite (process_encoded_all _ (to_scalar_values_scalar s Hwf)).
  pose proof (serialize_no_BOM _ (hd_to_scalar_values s Hwf Hhd)) as Hser.
  destruct (serialize false (to_scalar_values s)) as [seen items].
  cbn [snd] in *. subst items. apply from_to_scalar_values. exact Hwf.
Qed.

(** X5. End to end: when the device sends the UTF-8 encoding of a
    well-formed text that does not begin with U+FEFF, cut into chunks in
    any way, the lines read from [createSerialReader] are the lines of that
    text. *)
Theorem createSerialReader_reads_the_lines_of_the_text :
  forall (text : jsstring) (chunks : list bytes),
    isWellFormed text = true -> hd_error text <> Some BOM ->
    concat chunks = TextEncoder_encode text ->
    TransformStream.run SerialTransforms.createSerialReader chunks =
    TransformStream.run LineBreakTransformer.make [text].
Proof.
  intros text chunks Hwf Hhd Hc.
  rewrite createSerialReader_lines, Hc, decode_encode_stream by assumption.
  reflexivity.
Qed.

Lemma createSerialReader_reads_the_lines_of_the_text_witness :
  TransformStream.run SerialTransforms.createSerialReader
    [[0x41; 0xE2]; [0x82; 0xAC; 0x0A; 0x42]] =
  TransformStream.run LineBreakTransformer.make [[0x41; 0x20AC; NL; 0x42]].
Proof.
  apply (createSerialReader_reads_the_lines_of_the_text
           [0x41; 0x20AC; NL; 0x42]
           [[0x41; 0xE2]; [0x82; 0xAC; 0x0A; 0x42]]).
  - reflexivity.
  - intros H. discriminate H.
  - reflexivity.
Defined.

(** *** Encoding, then decoding *)

Lemma from_scalar_values_app a b :
  from_scalar_values (a ++ b) = from_scalar_values a ++ from_scalar_values b.
Proof. unfold from_scalar_values. apply flat_map_app. Qed.

Lemma TextEncoderStream_run (chunks : list jsstring) :
  TransformStream.run TextEncoderStream.make chunks =
    map TextEncoder_encode chunks.
Proof.
  unfold TransformStream.run.
  change (TransformStream.start TextEncoderStream.make) with tt.
  assert (H : forall st,
             TransformStream.write_all TextEncoderStream.make st chunks =
               (st, map TextEncoder_encode chunks)).
  { induction chunks as [|c rest IH]; intros st; [reflexivity|].
    cbn [TransformStream.write_all TextEncoderStream.make
         TransformStream.transform map].
    unfold TextEncoderStream.transform.
    change (TransformStream.Transformer tt TextEncoderStream.transform
              (fun st => (st, []))) with TextEncoderStream.make.
    rewrite IH. reflexivity. }
  rewrite H. cbn. apply app_nil_r.
Qed.

Lemma encoded_chunks (chunks : list jsstring) :
  concat (map TextEncoder_encode chunks) =
    flat_map utf8_encode (flat_map to_scalar_values chunks).
Proof.
  induction chunks as [|c rest IH]; [reflexivity|].
  cbn [map concat flat_map]. rewrite IH, flat_map_app. reflexivity.
Qed.

Lemma scalar_values_of_chunks (chunks : list jsstring) :
  Forall (fun c => isWellFormed c = true) chunks ->
  Forall (fun cp => is_scalar_value cp = true)
    (flat_map to_scalar_values chunks) /\
  from_scalar_values (flat_map to_scalar_values chunks) = concat chunks /\
  (hd_error (concat chunks) <> Some BOM ->
   hd_error (flat_map to_scalar_values chunks) <> Some BOM).
Proof.
  induction 1 as [|c rest Hc _ IH]; cbn [flat_map concat].
  - repeat split. constructor. intros H; exact H.
  - destruct IH as [IH1 [IH2 IH3]]. repeat split.
    + apply Forall_app. split; [apply to_scalar_values_scalar; exact Hc|].
      exact IH1.
    + rewrite from_scalar_values_app, IH2, from_to_scalar_values by exact Hc.
      reflexivity.
    + intros Hhd. pose proof (hd_to_scalar_values c Hc) as Hh.
      pose proof (from_to_scalar_values c Hc) as Hft.
      destruct c as [|x c'].
      * cbn [to_scalar_values app] in *. apply IH3. exact Hhd.
      * destruct (to_scalar_values (x :: c')) as [|y ys] eqn:E.
        -- discriminate Hft.
        -- cbn [app hd_error] in *. apply Hh. exact Hhd.
Qed.

(** X6. Strings written to a TextEncoderStream piped into a
    TextDecoderStream come out as the same text: when every chunk is
    well-formed and the text does not begin with U+FEFF, the strings read,
    put end to end, are the strings written, put end to end. *)
Theorem TextEncoderStream_then_TextDecoderStream_gives_back_the_text :
  forall chunks : list jsstring,
    Forall (fun c => isWellFormed c = true) chunks ->
    hd_error (concat chunks) <> Some BOM ->
    concat
      (TransformStream.run
         (TransformStream.pipeThrough TextEncoderStream.make
            TextDecoderStream.make) chunks) =
    concat chunks.
Proof.
  intros chunks Hwf Hhd.
  rewrite run_pipeThrough, TextEncoderStream_run.
  unfold TransformStream.run.
  pose proof (CodecFacts.TextDecoderStream_text
                (map TextEncoder_encode chunks) TextDecoder_new) as H.
  change (TransformStream.start TextDecoderStream.make)
    with TextDecoder_new.
  destruct (TransformStream.write_all TextDecoderStream.make
              TextDecoder_new (map TextEncoder_encode chunks)) as [td out].
  cbn [snd TransformStream.flush TextDecoderStream.make] in *.
  rewrite app_nil_r, H, encoded_chunks.
  destruct (scalar_values_of_chunks chunks Hwf) as [Hs [Hf Hh]].
  unfold decode. cbn [TextDecoder_new do_not_flush decoder BOM_seen].
  rewrite (process_encoded_all _ Hs).
  pose proof (serialize_no_BOM _ (Hh Hhd)) as Hser.
  destruct (serialize false (flat_map to_scalar_values chunks))
    as [seen items].
  cbn [snd] in *. subst items. exact Hf.
Qed.

Lemma TextEncoderStream_then_TextDecoderStream_gives_back_the_text_witness :
  concat
    (TransformStream.run
       (TransformStream.pipeThrough TextEncoderStream.make
          TextDecoderStream.make)
       [[0x41; 0x20AC]; []; [0xD83D; 0xDE00; NL]]) =
  concat [[0x41; 0x20AC]; []; [0xD83D; 0xDE00; NL]].
Proof.
  apply (TextEncoderStream_then_TextDecoderStream_gives_back_the_text
           [[0x41; 0x20AC]; []; [0xD83D; 0xDE00; NL]]).
  - repeat constructor.
  - intros H. discriminate H.
Defined.

End PipelineFacts.

(** ** The read loops and [sendMessage] of the applications *)

Module AppFacts.
Import JS Encoding EncodingFacts FramingFacts Async.

Lemma AppSerial_read_loop values : forall messages,
  AppSerial.read_loop messages values = messages ++ filter truthy values.
Proof.
  induction values as [|v rest IH]; intros messages; cbn [AppSerial.read_loop filter].
  - symmetry. apply app_nil_r.
  - rewrite IH. destruct (truthy v); [|reflexivity].
    rewrite <- app_assoc. reflexivity.
Qed.

(** X7. [startReading] of the serial application keeps the messages it
    has and adds, in order, the lines of the decoded text that are not
    empty; the result does not depend on how the bytes were cut into
    chunks. *)
Theorem AppSerial_startReading_shows_the_nonempty_lines :
  forall (messages : list jsstring) (chunks : list bytes),
    AppSerial.startReading messages chunks =
      messages ++
      filter truthy
        (TransformStream.run LineBreakTransformer.make
           [snd (decode TextDecoder_new (concat chunks) true)]) /\
    AppSerial.startReading messages chunks =
      AppSerial.startReading messages [concat chunks].
Proof.
  intros messages chunks. unfold AppSerial.startReading.
  rewrite !AppSerial_read_loop, !PipelineFacts.createSerialReader_lines.
  cbn [concat]. rewrite app_nil_r. split; reflexivity.
Qed.

(** *** The serial and Bluetooth application *)

Lemma decode_without_stream_forgets td v :
  do_not_flush td = false ->
  decode td v false = decode TextDecoder_new v false /\
  do_not_flush (fst (decode td v false)) = false.
Proof.
  intros H. unfold decode. rewrite H.
  cbn [TextDecoder_new do_not_flush decoder BOM_seen].
  destruct (process_queue utf8_decoder_new v) as [d out].
  destruct (handle_end d) as [d' fin].
  destruct (serialize false (out ++ fin)) as [seen items].
  split; reflexivity.
Qed.

Lemma App_read_loop values : forall td messages,
  do_not_flush td = false ->
  App.read_loop td messages values =
    messages ++
    flat_map
      (fun value =>
         filter (fun line => truthy (App.trim line))
           (split NL (snd (decode TextDecoder_new value false))))
      values.
Proof.
  induction values as [|v rest IH]; intros td messages Htd;
    cbn [App.read_loop flat_map].
  - symmetry. apply app_nil_r.
  - unfold App.read_turn.
    destruct (decode_without_stream_forgets td v Htd) as [E F].
    rewrite E in *.
    destruct (decode TextDecoder_new v false) as [td1 text].
    cbn [fst snd] in *. rewrite (IH td1 _ F), <- app_assoc. reflexivity.
Qed.

(** X8. [startReading] of the serial and Bluetooth application treats
    every chunk on its own: the messages pushed are, chunk after chunk,
    the fragments between the newlines of that chunk's decoded text that are
    not blank. Nothing is carried from one chunk to the next, neither an
    unfinished character nor an unfinished line. *)
Theorem App_startReading_treats_each_chunk_on_its_own :
  forall (messages : list jsstring) (values : list bytes),
    App.startReading messages values =
      messages ++
      flat_map
        (fun value =>
           filter (fun line => truthy (App.trim line))
             (split NL (snd (decode TextDecoder_new value false))))
        values.
Proof.
  intros messages values. unfold App.startReading.
  apply App_read_loop. reflexivity.
Qed.

(** X9. Every message that [startReading] of the serial and Bluetooth
    application pushes is free of newlines and is not blank, and the
    messages already shown stay in front, unchanged. *)
Theorem App_startReading_pushes_nonblank_lines :
  forall (messages : list jsstring) (values : list bytes),
    exists pushed,
      App.startReading messages values = messages ++ pushed /\
      Forall (fun m => ~ In NL m /\ truthy (App.trim m) = true) pushed.
Proof.
  intros messages values. eexists. split.
  - unfold App.startReading. apply App_read_loop. reflexivity.
  - apply Forall_flat_map. apply Forall_forall. intros v _.
    apply Forall_forall. intros line Hin.
    apply filter_In in Hin. destruct Hin as [Hin Ht]. split; [|exact Ht].
    pose proof (split_no_sep NL (snd (decode TextDecoder_new v false))) as Hn.
    rewrite Forall_forall in Hn. exact (Hn line Hin).
Qed.

(** *** Blank lines *)

Lemma trimStart_existsb s :
  existsb (fun c => negb (App.is_whitespace c)) (App.trimStart s) =
  existsb (fun c => negb (App.is_whitespace c)) s.
Proof.
  induction s as [|c s IH]; [reflexivity|]. cbn [App.trimStart].
  destruct (App.is_whitespace c) eqn:E; [|reflexivity].
  cbn [existsb]. rewrite E. exact IH.
Qed.

Lemma trimStart_truthy s :
  truthy (App.trimStart s) = existsb (fun c => negb (App.is_whitespace c)) s.
Proof.
  induction s as [|c s IH]; [reflexivity|]. cbn [App.trimStart existsb].
  destruct (App.is_whitespace c); [exact IH | reflexivity].
Qed.

Lemma truthy_rev (s : jsstring) : truthy (rev s) = truthy s.
Proof.
  destruct s as [|c s]; [reflexivity|]. cbn [rev truthy].
  destruct (rev s); reflexivity.
Qed.

Lemma existsb_reverse {A} (f : A -> bool) l :
  existsb f (rev l) = existsb f l.
Proof.
  induction l as [|x l IH]; [reflexivity|]. cbn [rev existsb].
  rewrite existsb_app, IH. cbn [existsb]. rewrite orb_false_r.
  apply orb_comm.
Qed.

(** A string is left non-empty by [trim()] exactly when one of its code
    units is not white space. *)
Lemma trim_truthy s :
  truthy (App.trim s) = existsb (fun c => negb (App.is_whitespace c)) s.
Proof.
  unfold App.trim.
  rewrite truthy_rev, trimStart_truthy, existsb_reverse, trimStart_existsb.
  reflexivity.
Qed.

Lemma trim_truthy_app a b :
  truthy (App.trim a) = true -> truthy (App.trim (a ++ b)) = true.
Proof.
  rewrite !trim_truthy, existsb_app. intros ->. reflexivity.
Qed.

(** *** ASCII bytes *)

Lemma process_ascii v :
  Forall (fun b => 0 <= b <= 0x7F) v ->
  process_queue utf8_decoder_new v = (utf8_decoder_new, v).
Proof.
  induction 1 as [|b v Hb _ IH]; [reflexivity|].
  cbn [process_queue]. rewrite handler_ascii by exact Hb. rewrite IH.
  reflexivity.
Qed.

Lemma from_scalar_values_ascii v :
  Forall (fun b => 0 <= b <= 0x7F) v -> from_scalar_values v = v.
Proof.
  induction 1 as [|b v Hb _ IH]; [reflexivity|].
  unfold from_scalar_values in *. cbn [flat_map]. rewrite IH.
  unfold code_units. destruct (Z.leb_spec b 0xFFFF); [reflexivity | lia].
Qed.

Lemma decode_ascii v :
  Forall (fun b => 0 <= b <= 0x7F) v ->
  snd (decode TextDecoder_new v false) = v.
Proof.
  intros Hv. unfold decode.
  cbn [TextDecoder_new do_not_flush decoder BOM_seen].
  rewrite (process_ascii v Hv).
  change (handle_end utf8_decoder_new) with (utf8_decoder_new, @nil Z).
  cbv iota. rewrite app_nil_r.
  assert (Hhd : hd_error v <> Some BOM).
  { destruct Hv as [|b v Hb _]; [discriminate|].
    cbn [hd_error]. intros E.
    assert (E' : b = BOM) by congruence. unfold BOM in E'. lia. }
  pose proof (serialize_no_BOM v Hhd) as Hser.
  destruct (serialize false v) as [seen items]. cbn [snd] in *. subst items.
  apply from_scalar_values_ascii. exact Hv.
Qed.

Lemma split_without_separator sep s : ~ In sep s -> split sep s = [s].
Proof.
  induction s as [|c s IH]; intros Hn; [reflexivity|]. cbn [split].
  destruct (Z.eqb_spec c sep) as [->|_].
  - exfalso. apply Hn. left. reflexivity.
  - rewrite IH; [reflexivity|]. intros H. apply Hn. right. exact H.
Qed.

(** X10. [startReading] of the serial and Bluetooth application does not
    put a line back together: a line of ASCII text that arrives in one
    chunk is one message, and the same line arriving as two chunks [a] and
    [b] (neither of them blank) is pushed as the two messages [a] and
    [b]. *)
Theorem App_startReading_does_not_join_a_line_cut_in_two :
  forall a b : bytes,
    Forall (fun c => 0 <= c <= 0x7F) a ->
    Forall (fun c => 0 <= c <= 0x7F) b ->
    ~ In NL a -> ~ In NL b ->
    truthy (App.trim a) = true -> truthy (App.trim b) = true ->
    App.startReading [] [a ++ b] = [a ++ b] /\
    App.startReading [] [a; b] = [a; b].
Proof.
  intros a b Ha Hb Na Nb Ta Tb.
  assert (Hab : Forall (fun c => 0 <= c <= 0x7F) (a ++ b))
    by (apply Forall_app; split; assumption).
  assert (Nab : ~ In NL (a ++ b)).
  { intros H. apply in_app_or in H. tauto. }
  unfold App.startReading.
  rewrite !App_read_loop by reflexivity.
  cbn [flat_map app].
  rewrite !decode_ascii, !split_without_separator by assumption.
  cbn [filter]. rewrite Ta, Tb, (trim_truthy_app a b Ta). split; reflexivity.
Qed.

Lemma App_startReading_does_not_join_a_line_cut_in_two_witness :
  App.startReading [] [lit "REA" ++ lit "DY"] = [lit "REA" ++ lit "DY"] /\
  App.startReading [] [lit "REA"; lit "DY"] = [lit "REA"; lit "DY"].
Proof.
  apply (App_startReading_does_not_join_a_line_cut_in_two
           (lit "REA") (lit "DY")).
  - repeat constructor; discriminate.
  - repeat constructor; discriminate.
  - cbn. intuition discriminate.
  - cbn. intuition discriminate.
  - reflexivity.
  - reflexivity.
Defined.

(** *** Sending a message *)

Lemma to_scalar_values_snoc s c :
  is_surrogate c = false ->
  to_scalar_values (s ++ [c]) = to_scalar_values s ++ [c].
Proof.
  intros Hc.
  assert (Ht : is_trail_surrogate c = false).
  { unfold is_surrogate, is_trail_surrogate in *.
    destruct (in_range 0xDC00 0xDFFF c) eqn:E; [|reflexivity].
    apply in_range_spec in E. rewrite in_range_true in Hc by lia.
    discriminate. }
  assert (H : forall n s, (List.length s <= n)%nat ->
              to_scalar_values (s ++ [c]) = to_scalar_values s ++ [c]).
  { clear s. induction n as [|n IH]; intros s Hlen.
    - destruct s; [|simpl in Hlen; lia]. cbn. rewrite Hc. reflexivity.
    - destruct s as [|x s]; [cbn; rewrite Hc; reflexivity|].
      cbn [List.length] in Hlen. cbn [app to_scalar_values].
      destruct (negb (is_surrogate x)).
      { rewrite IH by lia. reflexivity. }
      destruct (is_trail_surrogate x).
      { rewrite IH by lia. reflexivity. }
      destruct s as [|d s].
      { cbn [app]. rewrite Ht. cbn [to_scalar_values]. rewrite Hc.
        reflexivity. }
      cbn [app List.length] in *.
      destruct (is_trail_surrogate d).
      { rewrite IH by lia. reflexivity. }
      change (d :: s ++ [c]) with ((d :: s) ++ [c]).
      rewrite IH by (cbn [List.length]; lia). reflexivity. }
  apply (H (List.length s)). lia.
Qed.

Lemma TextEncoder_encode_newline s :
  TextEncoder_encode (s ++ [NL]) = TextEncoder_encode s ++ [10].
Proof.
  unfold TextEncoder_encode.
  rewrite to_scalar_values_snoc by reflexivity.
  rewrite flat_map_app. reflexivity.
Qed.

(** X11. [sendMessage] of the serial application does nothing for a blank
    input. Otherwise it throws nothing, empties the input field whether or
    not anything was written, keeps the messages, and, when a writer is
    held, makes exactly one write: the UTF-8 bytes of the input followed by
    the newline byte. Without a writer nothing is written. *)
Theorem AppSerial_sendMessage_writes_the_input_and_a_newline :
  (forall (p : UseSerial.platform) (s : AppSerial.state),
     truthy (App.trim (AppSerial.inputMessage s)) = false ->
     AppSerial.sendMessage p s = (inr tt, s, [])) /\
  (forall (p : UseSerial.platform) (s : AppSerial.state),
     truthy (App.trim (AppSerial.inputMessage s)) = true ->
     let '(r, s', trace) := AppSerial.sendMessage p s in
     r = inr tt /\
     AppSerial.inputMessage s' = [] /\
     AppSerial.messages s' = AppSerial.messages s /\
     UseSerial.written trace =
       match UseSerial.writer (AppSerial.serial s) with
       | Some _ => [TextEncoder_encode (AppSerial.inputMessage s) ++ [10]]
       | None => []
       end).
Proof.
  split; intros p s Ht.
  - unfold AppSerial.sendMessage, bind, gets, ret. rewrite Ht.
    destruct s. reflexivity.
  - destruct s as [[pt c e r w] ms input rd].
    cbn [AppSerial.inputMessage AppSerial.messages AppSerial.serial
         UseSerial.writer] in *.
    unfold AppSerial.sendMessage, AppSerial.useSerial, UseSerial.write.
    unfold try_catch, bind, gets, modify, await, perform, ret.
    cbn [AppSerial.inputMessage]. rewrite Ht. cbn [negb].
    cbn [AppSerial.serial UseSerial.writer].
    destruct w as [w|]; cbn.
    + rewrite TextEncoder_encode_newline.
      destruct (UseSerial.writer_write p w (TextEncoder_encode input ++ [10]))
        as [err|[]]; cbn; repeat split.
    + repeat split.
Qed.

(** The input "AT" with a writer held. *)
Lemma AppSerial_sendMessage_writes_the_input_and_a_newline_witness :
  let '(r, s', trace) :=
    AppSerial.sendMessage
      (UseSerial.Platform (fun _ => inr tt) (fun _ => inr tt)
         (fun _ => inr tt) (fun _ _ => inr tt))
      (AppSerial.State
         (UseSerial.State (Some 1%nat) true None None (Some 3%nat))
         [] (lit "AT") true) in
  r = inr tt /\
  AppSerial.inputMessage s' = [] /\
  AppSerial.messages s' = [] /\
  UseSerial.written trace = [TextEncoder_encode (lit "AT") ++ [10]].
Proof.
  apply (proj2 AppSerial_sendMessage_writes_the_input_and_a_newline
           (UseSerial.Platform (fun _ => inr tt) (fun _ => inr tt)
              (fun _ => inr tt) (fun _ _ => inr tt))
           (AppSerial.State
              (UseSerial.State (Some 1%nat) true None None (Some 3%nat))
              [] (lit "AT") true)).
  reflexivity.
Defined.

End AppFacts.

(** ** The conversions of bleTransforms.ts *)

Module BleFacts.
Import JS Async BleTransforms BleNumbers FramingFacts.

(** *** Numbers *)

Lemma from_little_endian_little_endian w : forall v,
  from_little_endian (little_endian w v) = v mod 256 ^ Z.of_nat w.
Proof.
  induction w as [|w IH]; intros v.
  - cbn [little_endian from_little_endian]. change (256 ^ Z.of_nat 0) with 1.
    rewrite Z.mod_1_r. reflexivity.
  - cbn [little_endian from_little_endian]. rewrite IH.
    rewrite Nat2Z.inj_succ, Z.pow_succ_r by lia.
    rewrite Z.rem_mul_r by lia. reflexivity.
Qed.

Lemma from_little_endian_bound bs :
  Forall (fun b => 0 <= b < 256) bs ->
  0 <= from_little_endian bs < 256 ^ Z.of_nat (List.length bs).
Proof.
  induction 1 as [|b bs Hb _ IH].
  - cbn. lia.
  - cbn [from_little_endian List.length].
    rewrite Nat2Z.inj_succ, Z.pow_succ_r by lia. lia.
Qed.

Lemma Forall_first {A} (P : A -> Prop) n l :
  Forall P l -> Forall P (firstn n l).
Proof.
  intros H. revert n. induction H as [|x l Hx _ IH]; intros [|n];
    cbn [firstn]; constructor; auto.
Qed.

Lemma written_1 num :
  numberToUint8Array num (Some 1) = inr (MkUint8Array (little_endian 1 num) 0 1).
Proof. reflexivity. Qed.

Lemma written_2 num :
  numberToUint8Array num (Some 2) = inr (MkUint8Array (little_endian 2 num) 0 2).
Proof. reflexivity. Qed.

Lemma written_4 num :
  numberToUint8Array num (Some 4) = inr (MkUint8Array (little_endian 4 num) 0 4).
Proof. reflexivity. Qed.

Lemma read_unsigned w num :
  get_unsigned w (DataView_of (MkUint8Array (little_endian w num) 0 w)) =
    inr (num mod 256 ^ Z.of_nat w).
Proof.
  unfold get_unsigned, view_contents, DataView_of.
  cbn [buffer byteOffset byteLength u8_buffer u8_byteOffset u8_length skipn].
  assert (Hl : List.length (little_endian w num) = w).
  { revert num. induction w as [|w IH]; intros num; [reflexivity|].
    cbn [little_endian List.length]. rewrite IH. reflexivity. }
  assert (Hf : firstn w (little_endian w num) = little_endian w num).
  { rewrite <- Hl at 1. apply firstn_all. }
  rewrite !Hf, Hl, Nat.ltb_irrefl.
  rewrite from_little_endian_little_endian. reflexivity.
Qed.

(** X12. A number written by [numberToUint8Array] with 1, 2 or 4 bytes
    and read back by [dataViewToNumber] as 'uint8', 'uint16' or 'uint32'
    is the number modulo 2^8, 2^16 or 2^32: the number itself when it fits,
    wrapped around otherwise. The array has exactly that many bytes. *)
Theorem number_written_then_read_unsigned :
  forall num : Z,
    (exists a,
       numberToUint8Array num (Some 1) = inr a /\
       List.length (u8_contents a) = 1%nat /\
       dataViewToNumber (DataView_of a) (Some uint8) = inr (num mod 2 ^ 8)) /\
    (exists a,
       numberToUint8Array num (Some 2) = inr a /\
       List.length (u8_contents a) = 2%nat /\
       dataViewToNumber (DataView_of a) (Some uint16) = inr (num mod 2 ^ 16)) /\
    (exists a,
       numberToUint8Array num (Some 4) = inr a /\
       List.length (u8_contents a) = 4%nat /\
       dataViewToNumber (DataView_of a) (Some uint32) = inr (num mod 2 ^ 32)).
Proof.
  intros num. repeat apply conj.
  - eexists. split; [apply written_1|]. split; [reflexivity|].
    cbn [dataViewToNumber]. rewrite read_unsigned. reflexivity.
  - eexists. split; [apply written_2|]. split; [reflexivity|].
    cbn [dataViewToNumber]. rewrite read_unsigned. reflexivity.
  - eexists. split; [apply written_4|]. split; [reflexivity|].
    cbn [dataViewToNumber]. rewrite read_unsigned. reflexivity.
Qed.

Lemma read_signed w num :
  (0 < w)%nat ->
  get_signed w (DataView_of (MkUint8Array (little_endian w num) 0 w)) =
    inr ((num + 2 ^ (8 * Z.of_nat w - 1)) mod 256 ^ Z.of_nat w
         - 2 ^ (8 * Z.of_nat w - 1)).
Proof.
  intros Hw. unfold get_signed. rewrite read_unsigned.
  assert (H8 : 256 ^ Z.of_nat w = 2 ^ (8 * Z.of_nat w)).
  { change 256 with (2 ^ 8). rewrite <- Z.pow_mul_r by lia. reflexivity. }
  assert (Hh : 2 ^ (8 * Z.of_nat w) = 2 * 2 ^ (8 * Z.of_nat w - 1)).
  { rewrite <- Z.pow_succ_r by lia. f_equal. lia. }
  assert (Hp : 0 < 2 ^ (8 * Z.of_nat w - 1)) by (apply Z.pow_pos_nonneg; lia).
  rewrite H8, Hh.
  set (h := 2 ^ (8 * Z.of_nat w - 1)) in *.
  pose proof (Z.mod_pos_bound num (2 * h) ltac:(lia)) as Hb.
  destruct (Z.leb_spec h (num mod (2 * h))) as [Hge|Hlt]; f_equal.
  - symmetry. apply Z.add_move_r.
    symmetry. apply (Z.mod_unique _ _ (num / (2 * h) + 1)); [lia|].
    pose proof (Z.div_mod num (2 * h) ltac:(lia)). lia.
  - symmetry. apply Z.add_move_r.
    symmetry. apply (Z.mod_unique _ _ (num / (2 * h))); [lia|].
    pose proof (Z.div_mod num (2 * h) ltac:(lia)). lia.
Qed.

(** X13. Read back as 'int8', 'int16' or 'int32', the bytes written by
    [numberToUint8Array] give the number in two's complement: the number
    itself when it lies between -2^(N-1) and 2^(N-1) - 1. *)
Theorem number_written_then_read_signed :
  forall num : Z,
    (-128 <= num < 128 ->
     exists a,
       numberToUint8Array num (Some 1) = inr a /\
       dataViewToNumber (DataView_of a) (Some int8) = inr num) /\
    (-32768 <= num < 32768 ->
     exists a,
       numberToUint8Array num (Some 2) = inr a /\
       dataViewToNumber (DataView_of a) (Some int16) = inr num) /\
    (-2147483648 <= num < 2147483648 ->
     exists a,
       numberToUint8Array num (Some 4) = inr a /\
       dataViewToNumber (DataView_of a) (Some int32) = inr num).
Proof.
  intros num. repeat apply conj; intros Hr.
  - eexists. split; [apply written_1|].
    cbn [dataViewToNumber]. rewrite read_signed by lia. f_equal.
    change (2 ^ (8 * Z.of_nat 1 - 1)) with 128.
    change (256 ^ Z.of_nat 1) with 256.
    rewrite Z.mod_small by lia. lia.
  - eexists. split; [apply written_2|].
    cbn [dataViewToNumber]. rewrite read_signed by lia. f_equal.
    change (2 ^ (8 * Z.of_nat 2 - 1)) with 32768.
    change (256 ^ Z.of_nat 2) with 65536.
    rewrite Z.mod_small by lia. lia.
  - eexists. split; [apply written_4|].
    cbn [dataViewToNumber]. rewrite read_signed by lia. f_equal.
    change (2 ^ (8 * Z.of_nat 4 - 1)) with 2147483648.
    change (256 ^ Z.of_nat 4) with 4294967296.
    rewrite Z.mod_small by lia. lia.
Qed.

Lemma number_written_then_read_signed_witness :
  exists a,
    numberToUint8Array (-2) (Some 2) = inr a /\
    dataViewToNumber (DataView_of a) (Some int16) = inr (-2).
Proof.
  apply (proj1 (proj2 (number_written_then_read_signed (-2)))). lia.
Defined.

(** X14. [numberToUint8Array] returns an array exactly for the byte
    lengths 1, 2 and 4 (1 when the length is left out), and the array then
    has that many bytes; every other length makes it throw. *)
Theorem numberToUint8Array_supports_1_2_4 :
  forall (num byteLength : Z),
    ((exists a, numberToUint8Array num (Some byteLength) = inr a) <->
     byteLength = 1 \/ byteLength = 2 \/ byteLength = 4) /\
    (forall a,
       numberToUint8Array num (Some byteLength) = inr a ->
       Z.of_nat (List.length (u8_contents a)) = byteLength) /\
    numberToUint8Array num None = numberToUint8Array num (Some 1).
Proof.
  intros num n.
  assert (Hbad : n <> 1 -> n <> 2 -> n <> 4 ->
                 exists e, numberToUint8Array num (Some n) = inl e).
  { intros H1 H2 H4. unfold numberToUint8Array.
    destruct (ArrayBuffer_new n) as [e|buf]; [eauto|].
    destruct (Z.eqb_spec n 1); [contradiction|].
    destruct (Z.eqb_spec n 2); [contradiction|].
    destruct (Z.eqb_spec n 4); [contradiction|]. eauto. }
  repeat apply conj.
  - intros [a Ha].
    destruct (Z.eq_dec n 1); [tauto|]. destruct (Z.eq_dec n 2); [tauto|].
    destruct (Z.eq_dec n 4); [tauto|].
    destruct Hbad as [e He]; try assumption. congruence.
  - intros [-> | [-> | ->]]; eexists;
      [apply written_1 | apply written_2 | apply written_4].
  - intros a Ha.
    destruct (Z.eq_dec n 1) as [->|]; [rewrite written_1 in Ha; injection Ha as <-; reflexivity|].
    destruct (Z.eq_dec n 2) as [->|]; [rewrite written_2 in Ha; injection Ha as <-; reflexivity|].
    destruct (Z.eq_dec n 4) as [->|]; [rewrite written_4 in Ha; injection Ha as <-; reflexivity|].
    destruct Hbad as [e He]; try assumption. congruence.
  - reflexivity.
Qed.

(** X15. [dataViewToNumber] throws (a RangeError of [DataView]) when the
    view holds fewer bytes than the type needs; otherwise it returns a
    number within the range of the type, read from the first bytes of the
    view only. *)
Theorem dataViewToNumber_stays_in_range_or_throws :
  forall (dataView : DataView) type (width : nat) (lo hi : Z),
    In (type, width, lo, hi)
       [(uint8, 1%nat, 0, 2 ^ 8); (uint16, 2%nat, 0, 2 ^ 16);
        (uint32, 4%nat, 0, 2 ^ 32); (int8, 1%nat, - 2 ^ 7, 2 ^ 7);
        (int16, 2%nat, - 2 ^ 15, 2 ^ 15); (int32, 4%nat, - 2 ^ 31, 2 ^ 31)] ->
    Forall (fun b => 0 <= b < 256) (view_contents dataView) ->
    ((List.length (view_contents dataView) < width)%nat ->
     exists e, dataViewToNumber dataView (Some type) = inl e) /\
    ((width <= List.length (view_contents dataView))%nat ->
     exists v,
       dataViewToNumber dataView (Some type) = inr v /\ lo <= v < hi).
Proof.
  intros dv type width lo hi Hin Hb.
  assert (Hu : forall w,
             ((List.length (view_contents dv) < w)%nat ->
              exists e, get_unsigned w dv = inl e) /\
             ((w <= List.length (view_contents dv))%nat ->
              exists v, get_unsigned w dv = inr v /\
                        0 <= v < 256 ^ Z.of_nat w)).
  { intros w. unfold get_unsigned. split; intros Hl.
    - destruct (Nat.ltb_spec (List.length (view_contents dv)) w); [eauto|lia].
    - destruct (Nat.ltb_spec (List.length (view_contents dv)) w); [lia|].
      eexists. split; [reflexivity|].
      pose proof (from_little_endian_bound (firstn w (view_contents dv))
                    (Forall_first _ w _ Hb)) as Hbd.
      rewrite length_firstn, Nat.min_l in Hbd by lia. exact Hbd. }
  assert (Hs : forall w, (0 < w)%nat ->
             ((List.length (view_contents dv) < w)%nat ->
              exists e, get_signed w dv = inl e) /\
             ((w <= List.length (view_contents dv))%nat ->
              exists v, get_signed w dv = inr v /\
                        - 2 ^ (8 * Z.of_nat w - 1) <= v
                          < 2 ^ (8 * Z.of_nat w - 1))).
  { intros w Hw. destruct (Hu w) as [Hu1 Hu2]. unfold get_signed.
    split; intros Hl.
    - destruct (Hu1 Hl) as [e ->]. eauto.
    - destruct (Hu2 Hl) as [v [-> Hv]].
      assert (H8 : 256 ^ Z.of_nat w = 2 * 2 ^ (8 * Z.of_nat w - 1)).
      { change 256 with (2 ^ 8). rewrite <- Z.pow_mul_r by lia.
        rewrite <- Z.pow_succ_r by lia. f_equal. lia. }
      assert (H9 : 2 ^ (8 * Z.of_nat w) = 2 * 2 ^ (8 * Z.of_nat w - 1)).
      { rewrite <- Z.pow_succ_r by lia. f_equal. lia. }
      destruct (Z.leb_spec (2 ^ (8 * Z.of_nat w - 1)) v);
        eexists; (split; [reflexivity|]); lia. }
  cbn [In] in Hin.
  destruct Hin as [E|[E|[E|[E|[E|[E|[]]]]]]]; injection E as <- <- <- <-;
    cbn [dataViewToNumber].
  - exact (Hu 1%nat).
  - exact (Hu 2%nat).
  - exact (Hu 4%nat).
  - exact (Hs 1%nat ltac:(lia)).
  - exact (Hs 2%nat ltac:(lia)).
  - exact (Hs 4%nat ltac:(lia)).
Qed.

Lemma dataViewToNumber_stays_in_range_or_throws_witness :
  (lt (List.length (view_contents (MkDataView [0xFE; 0xFF; 7] 0 3))) 2 ->
   exists e,
     dataViewToNumber (MkDataView [0xFE; 0xFF; 7] 0 3) (Some int16) = inl e) /\
  (le 2 (List.length (view_contents (MkDataView [0xFE; 0xFF; 7] 0 3))) ->
   exists v,
     dataViewToNumber (MkDataView [0xFE; 0xFF; 7] 0 3) (Some int16) = inr v /\
     - 2 ^ 15 <= v < 2 ^ 15).
Proof.
  apply (dataViewToNumber_stays_in_range_or_throws
           (MkDataView [0xFE; 0xFF; 7] 0 3) int16 2%nat).
  - cbn. tauto.
  - repeat constructor; discriminate.
Defined.

End BleFacts.

(** ** Hexadecimal display and names *)

Module BleDisplayFacts.
Import JS BleTransforms BleNumbers BleNames FramingFacts.

Lemma hex_value_digit d :
  0 <= d < 16 -> hex_value (hex_digit d) = Some d /\ hex_digit d <> SPACE.
Proof.
  intros Hd. unfold hex_value, hex_digit, SPACE.
  destruct (Z.ltb_spec d 10).
  - destruct (Z.leb_spec 48 (48 + d)); [|lia].
    destruct (Z.leb_spec (48 + d) 57); [|lia]. cbn [andb].
    split; [f_equal; lia | lia].
  - destruct (Z.leb_spec (87 + d) 57); [lia|]. rewrite andb_false_r.
    destruct (Z.leb_spec 97 (87 + d)); [|lia].
    destruct (Z.leb_spec (87 + d) 102); [|lia]. cbn [andb].
    split; [f_equal; lia | lia].
Qed.

(** One byte gives two digits that read back as the byte. *)
Lemma hex_pair byte :
  0 <= byte < 256 ->
  List.length (padStart (toString16 byte) 2 48) = 2%nat /\
  parse_hex_pair (padStart (toString16 byte) 2 48) = Some byte /\
  ~ In SPACE (padStart (toString16 byte) 2 48).
Proof.
  intros Hb. unfold toString16, padStart.
  destruct (Z.ltb_spec byte 16).
  - destruct (hex_value_digit byte) as [Hv Hn]; [lia|].
    cbn [List.length Nat.sub repeat app parse_hex_pair].
    change (hex_value 48) with (Some 0). rewrite Hv.
    repeat split. intros [H'|[H'|[]]]; [discriminate H' | exact (Hn H')].
  - destruct (hex_value_digit (byte / 16)) as [Hv1 Hn1];
      [Z.div_mod_to_equations; lia|].
    destruct (hex_value_digit (byte mod 16)) as [Hv2 Hn2];
      [Z.div_mod_to_equations; lia|].
    cbn [List.length Nat.sub repeat app parse_hex_pair].
    rewrite Hv1, Hv2. repeat split.
    + f_equal. Z.div_mod_to_equations; lia.
    + intros [H'|[H'|[]]]; [exact (Hn1 H') | exact (Hn2 H')].
Qed.

Lemma split_after_fragment sep l t :
  ~ In sep l -> split sep (l ++ sep :: t) = l :: split sep t.
Proof.
  induction l as [|c l IH]; intros Hn.
  - cbn [app split]. rewrite Z.eqb_refl. reflexivity.
  - cbn [app split]. destruct (Z.eqb_spec c sep) as [->|_].
    + exfalso. apply Hn. left. reflexivity.
    + rewrite IH; [reflexivity|]. intros H. apply Hn. right. exact H.
Qed.

(** Splitting undoes joining when no fragment holds the separator. *)
Lemma split_join sep ls :
  ls <> [] -> Forall (fun l => ~ In sep l) ls ->
  split sep (join sep ls) = ls.
Proof.
  intros Hne H. induction H as [|l ls Hl Hls IH]; [congruence|].
  destruct ls as [|l2 ls].
  - cbn [join]. apply AppFacts.split_without_separator. exact Hl.
  - change (join sep (l :: l2 :: ls))
      with (l ++ sep :: join sep (l2 :: ls)).
    rewrite split_after_fragment by exact Hl.
    rewrite IH by discriminate. reflexivity.
Qed.

Lemma length_join_pairs (ls : list jsstring) :
  Forall (fun l => List.length l = 2%nat) ls ->
  List.length (join SPACE ls) = (3 * List.length ls - 1)%nat.
Proof.
  induction 1 as [|l ls Hl Hls IH]; [reflexivity|].
  destruct ls as [|l2 ls].
  - cbn [join List.length]. rewrite Hl. reflexivity.
  - change (join SPACE (l :: l2 :: ls))
      with (l ++ SPACE :: join SPACE (l2 :: ls)).
    rewrite length_app. cbn [List.length] in *. rewrite IH, Hl. lia.
Qed.

(** X16. [dataViewToHex] writes every byte of the view as two lower-case
    hexadecimal digits, with one space between bytes and none at the ends:
    a view of n bytes gives 3n - 1 code units (none for an empty view),
    and cutting the string at the spaces and reading each group as a
    hexadecimal number gives back the bytes. *)
Theorem dataViewToHex_can_be_read_back :
  forall dataView : DataView,
    Forall (fun b => 0 <= b < 256) (view_contents dataView) ->
    List.length (dataViewToHex dataView) =
      (3 * List.length (view_contents dataView) - 1)%nat /\
    (view_contents dataView = [] -> dataViewToHex dataView = []) /\
    (view_contents dataView <> [] ->
     map parse_hex_pair (split SPACE (dataViewToHex dataView)) =
       map Some (view_contents dataView)).
Proof.
  intros dv Hb. unfold dataViewToHex.
  change (u8_contents
            (MkUint8Array (buffer dv) (byteOffset dv) (byteLength dv)))
    with (view_contents dv).
  set (groups := map (fun byte => padStart (toString16 byte) 2 48)
                   (view_contents dv)).
  assert (Hlen : Forall (fun l => List.length l = 2%nat) groups).
  { apply Forall_map. eapply Forall_impl; [|exact Hb].
    intros b Hbb. apply (hex_pair b Hbb). }
  assert (Hsp : Forall (fun l => ~ In SPACE l) groups).
  { apply Forall_map. eapply Forall_impl; [|exact Hb].
    intros b Hbb. apply (hex_pair b Hbb). }
  repeat apply conj.
  - rewrite length_join_pairs by exact Hlen.
    unfold groups. rewrite length_map. reflexivity.
  - intros E. unfold groups. rewrite E. reflexivity.
  - intros Hne. rewrite split_join; [|unfold groups|exact Hsp].
    + unfold groups. rewrite map_map. apply map_ext_in.
      intros b Hin. rewrite Forall_forall in Hb.
      apply (hex_pair b (Hb b Hin)).
    + destruct (view_contents dv); [congruence | discriminate].
Qed.

Lemma dataViewToHex_can_be_read_back_witness :
  List.length (dataViewToHex (MkDataView [0; 10; 255; 16] 1 2)) =
    Nat.sub
      (Nat.mul 3 (List.length (view_contents (MkDataView [0; 10; 255; 16] 1 2))))
      1 /\
  (view_contents (MkDataView [0; 10; 255; 16] 1 2) = [] ->
   dataViewToHex (MkDataView [0; 10; 255; 16] 1 2) = []) /\
  (view_contents (MkDataView [0; 10; 255; 16] 1 2) <> [] ->
   map parse_hex_pair
     (split SPACE (dataViewToHex (MkDataView [0; 10; 255; 16] 1 2))) =
     map Some (view_contents (MkDataView [0; 10; 255; 16] 1 2))).
Proof.
  apply (dataViewToHex_can_be_read_back (MkDataView [0; 10; 255; 16] 1 2)).
  repeat constructor; discriminate.
Defined.

(** *** Names *)

Lemma startsWith_app p s : startsWith p (p ++ s) = true.
Proof.
  induction p as [|c p IH]; [destruct s; reflexivity|].
  cbn [app startsWith]. rewrite Z.eqb_refl. exact IH.
Qed.

Lemma startsWith_prefix p : forall s,
  startsWith p s = true -> exists t, s = p ++ t.
Proof.
  induction p as [|c p IH]; intros s H.
  - exists s. reflexivity.
  - destruct s as [|d s]; [discriminate|]. cbn [startsWith] in H.
    apply andb_true_iff in H. destruct H as [E H].
    apply Z.eqb_eq in E. subst d.
    destruct (IH s H) as [t ->]. exists t. reflexivity.
Qed.

Lemma endsWith_app suffix s : endsWith suffix (s ++ suffix) = true.
Proof. unfold endsWith. rewrite rev_app_distr. apply startsWith_app. Qed.

Lemma endsWith_suffix suffix s :
  endsWith suffix s = true -> exists t, s = t ++ suffix.
Proof.
  unfold endsWith. intros H.
  destruct (startsWith_prefix _ _ H) as [t Ht].
  exists (rev t). rewrite <- (rev_involutive s), Ht, rev_app_distr.
  rewrite rev_involutive. reflexivity.
Qed.

(** X17. [formatServiceUUID] shortens a UUID on the Bluetooth base
    ("0000", four characters, "-0000-1000-8000-00805f9b34fb" in lower
    case) to those four characters, and returns every string that does not
    begin with "0000" or does not end with that suffix as it is. *)
Theorem formatServiceUUID_shortens_base_uuids_only :
  (forall x : jsstring,
     List.length x = 4%nat ->
     formatServiceUUID (lit "0000" ++ x ++ BASE_SUFFIX) = x) /\
  (forall uuid : jsstring,
     (forall t, uuid <> lit "0000" ++ t) \/
     (forall t, uuid <> t ++ BASE_SUFFIX) ->
     formatServiceUUID uuid = uuid).
Proof.
  split.
  - intros x Hx. unfold formatServiceUUID.
    rewrite startsWith_app.
    rewrite app_assoc, endsWith_app. cbn [andb].
    rewrite <- app_assoc. unfold substring.
    change (skipn 4 (lit "0000" ++ x ++ BASE_SUFFIX)) with (x ++ BASE_SUFFIX).
    change (8 - 4)%nat with 4%nat. rewrite <- Hx, firstn_app.
    rewrite Nat.sub_diag, firstn_all. cbn [firstn]. apply app_nil_r.
  - intros uuid H. unfold formatServiceUUID.
    destruct (startsWith (lit "0000") uuid) eqn:E1; [|reflexivity].
    destruct (endsWith BASE_SUFFIX uuid) eqn:E2; [|reflexivity].
    exfalso. destruct H as [H|H].
    + destruct (startsWith_prefix _ _ E1) as [t Ht]. exact (H t Ht).
    + destruct (endsWith_suffix _ _ E2) as [t Ht]. exact (H t Ht).
Qed.

Lemma formatServiceUUID_shortens_base_uuids_only_witness :
  formatServiceUUID (lit "0000" ++ lit "2a37" ++ BASE_SUFFIX) = lit "2a37" /\
  formatServiceUUID (lit "6e400001-b5a3-f393-e0a9-e50e24dcca9e") =
    lit "6e400001-b5a3-f393-e0a9-e50e24dcca9e".
Proof.
  split.
  - apply (proj1 formatServiceUUID_shortens_base_uuids_only (lit "2a37")).
    reflexivity.
  - apply (proj2 formatServiceUUID_shortens_base_uuids_only).
    left. intros t H. discriminate H.
Defined.

Lemma string_eqb_eq a : forall b, string_eqb a b = true <-> a = b.
Proof.
  induction a as [|x a IH]; intros [|y b]; cbn [string_eqb];
    try (split; [discriminate | discriminate]); try tauto.
  rewrite andb_true_iff, Z.eqb_eq, IH. split.
  - intros [-> ->]. reflexivity.
  - intros E. injection E as -> ->. split; reflexivity.
Qed.

Lemma first_name_none entries uuidLower :
  (forall name entryUuid, In (name, entryUuid) entries ->
                          uuidLower <> entryUuid) ->
  first_name entries uuidLower = None.
Proof.
  induction entries as [|[name u] rest IH]; intros H; [reflexivity|].
  cbn [first_name].
  destruct (string_eqb u uuidLower) eqn:E.
  - apply string_eqb_eq in E. exfalso.
    apply (H name u); [left; reflexivity | congruence].
  - apply IH. intros n e Hin. apply (H n e). right. exact Hin.
Qed.

(** X18. [getServiceName] and [getCharacteristicName] look the UUID up
    without regard to its case: for every entry of the table and every
    string whose lower-case form is the entry's UUID, the result is the
    entry's name with its underscores turned into spaces. A UUID whose
    lower-case form is in no entry is passed, as given, to
    [formatServiceUUID]. *)
Theorem names_are_found_by_lower_case_uuid :
  forall (toLowerCase : jsstring -> jsstring) (uuid : jsstring),
    (forall name entryUuid,
       In (name, entryUuid) BLE_SERVICES ->
       toLowerCase uuid = entryUuid ->
       getServiceName toLowerCase uuid = replace_underscores name) /\
    ((forall name entryUuid,
        In (name, entryUuid) BLE_SERVICES -> toLowerCase uuid <> entryUuid) ->
     getServiceName toLowerCase uuid = formatServiceUUID uuid) /\
    (forall name entryUuid,
       In (name, entryUuid) BLE_CHARACTERISTICS ->
       toLowerCase uuid = entryUuid ->
       getCharacteristicName toLowerCase uuid = replace_underscores name) /\
    ((forall name entryUuid,
        In (name, entryUuid) BLE_CHARACTERISTICS ->
        toLowerCase uuid <> entryUuid) ->
     getCharacteristicName toLowerCase uuid = formatServiceUUID uuid).
Proof.
  intros toLowerCase uuid. repeat apply conj.
  - intros name u Hin E. unfold getServiceName. rewrite E.
    cbn [BLE_SERVICES In] in Hin.
    repeat (destruct Hin as [Hin|Hin];
            [injection Hin as <- <-; reflexivity|]).
    contradiction.
  - intros H. unfold getServiceName.
    rewrite first_name_none; [reflexivity | exact H].
  - intros name u Hin E. unfold getCharacteristicName. rewrite E.
    cbn [BLE_CHARACTERISTICS In] in Hin.
    repeat (destruct Hin as [Hin|Hin];
            [injection Hin as <- <-; reflexivity|]).
    contradiction.
  - intros H. unfold getCharacteristicName.
    rewrite first_name_none; [reflexivity | exact H].
Qed.

(** With the ASCII letters lowered: the battery service and the UART TX
    characteristic written in upper case. *)
Lemma names_are_found_by_lower_case_uuid_witness :
  let lower :=
    map (fun c => if Encoding.in_range 65 90 c then c + 32 else c) in
  getServiceName lower (lit "0000180F-0000-1000-8000-00805F9B34FB") =
    lit "BATTERY SERVICE" /\
  getCharacteristicName lower (lit "6E400003-B5A3-F393-E0A9-E50E24DCCA9E") =
    lit "UART TX".
Proof.
  intros lower. split.
  - apply (proj1 (names_are_found_by_lower_case_uuid lower
                    (lit "0000180F-0000-1000-8000-00805F9B34FB"))
             (lit "BATTERY_SERVICE")
             (lit "0000180f-0000-1000-8000-00805f9b34fb")).
    + cbn. tauto.
    + reflexivity.
  - apply (proj1 (proj2 (proj2 (names_are_found_by_lower_case_uuid lower
                    (lit "6E400003-B5A3-F393-E0A9-E50E24DCCA9E"))))
             (lit "UART_TX")
             (lit "6e400003-b5a3-f393-e0a9-e50e24dcca9e")).
    + cbn. tauto.
    + reflexivity.
Defined.

End BleDisplayFacts.


(** * Part IV: the rest of the serial composables *)

Module SerialPortFacts.
Import JS Async AsyncMore.
Local Open Scope string_scope.

Ltac unfold_async :=
  unfold try_catch, bind, gets, modify, await, perform, observe, throw,
    when_some, deref, lift, ret.

(** X19. [requestPort] of useSerial.ts never throws and touches only [port]
    and [error]. Without Web Serial in the navigator the chooser is not
    opened, the port is kept and the error is the fixed message. With it,
    the chooser is opened once: the port it resolves with is stored and no
    error is recorded, and when it rejects (the user closes the chooser) the
    port selected before is kept and the rejection's message is recorded. *)
Theorem requestPort_stores_the_port_or_the_error :
  forall p s,
    let '(r, s', trace) := UseSerialPort.requestPort p s in
    r = inr tt /\
    UseSerial.isConnected s' = UseSerial.isConnected s /\
    UseSerial.reader s' = UseSerial.reader s /\
    UseSerial.writer s' = UseSerial.writer s /\
    if UseSerialPort.serial_in_navigator p
    then
      hd_error trace = Some UseSerialPort.RequestPort /\
      match UseSerialPort.navigator_serial_requestPort p with
      | inr pt =>
          UseSerial.port s' = Some pt /\ UseSerial.error s' = None /\
          trace = [UseSerialPort.RequestPort]
      | inl e =>
          UseSerial.port s' = UseSerial.port s /\
          UseSerial.error s' = Some (message_or e "Failed to request port")
      end
    else
      ~ In UseSerialPort.RequestPort trace /\
      UseSerial.port s' = UseSerial.port s /\
      UseSerial.error s' =
        Some "Web Serial API not supported in this browser".
Proof.
  intros [c sup req op wr gw] [pt co er rd w].
  unfold UseSerialPort.requestPort. unfold_async. cbn.
  destruct sup; cbn.
  - destruct req as [e|pt']; cbn; repeat apply conj; reflexivity.
  - repeat apply conj; try reflexivity.
    intros [H|[]]. discriminate H.
Qed.

(** What [connect] does once a port is selected, by the answers of the
    platform. *)
Lemma connect_with_port p s baudRate pt :
  UseSerial.port s = Some pt ->
  let b := match baudRate with Some b => b | None => 115200%Z end in
  UseSerialPort.connect baudRate p s =
  match UseSerialPort.port_open p pt b with
  | inl e =>
      (inr tt,
       UseSerial.set_isConnected false
         (UseSerial.set_error (Some (message_or e "Failed to connect")) s),
       [UseSerialPort.PortOpen pt b;
        UseSerialPort.Composable
          (UseSerial.ConsoleError "Connection failed:" e)])
  | inr _ =>
      if UseSerialPort.port_writable p pt
      then
        match UseSerialPort.getWriter p pt with
        | inl e =>
            (inr tt,
             UseSerial.set_isConnected false
               (UseSerial.set_error (Some (message_or e "Failed to connect"))
                  s),
             [UseSerialPort.PortOpen pt b; UseSerialPort.GetWriter pt;
              UseSerialPort.Composable
                (UseSerial.ConsoleError "Connection failed:" e)])
        | inr w =>
            (inr tt,
             UseSerial.set_writer (Some w)
               (UseSerial.set_isConnected true (UseSerial.set_error None s)),
             [UseSerialPort.PortOpen pt b; UseSerialPort.GetWriter pt])
        end
      else
        (inr tt,
         UseSerial.set_isConnected true (UseSerial.set_error None s),
         [UseSerialPort.PortOpen pt b])
  end.
Proof.
  destruct s as [pt0 co er rd w]. cbn. intros ->.
  unfold UseSerialPort.connect. unfold_async. cbn.
  destruct (UseSerialPort.port_open p pt _) as [e|[]]; cbn; [reflexivity|].
  destruct (UseSerialPort.port_writable p pt); cbn; [|reflexivity].
  destruct (UseSerialPort.getWriter p pt) as [e|w']; reflexivity.
Qed.

(** X20. [connect] of useSerial.ts never throws and never changes [port] or
    [reader]. Without a port it records 'No port selected' and calls
    nothing. With a port it first opens it at the given baud rate, 115200
    when none is given, and ends with [isConnected] true exactly when no
    error is recorded. A rejected [open] leaves the writer as it was and
    asks for none; a rejected [getWriter] leaves [isConnected] false
    although the port was opened; a port without a writable side is
    connected with the writer left as it was. *)
Theorem connect_is_connected_exactly_without_error :
  forall p s baudRate,
    let b := match baudRate with Some b => b | None => 115200%Z end in
    let '(r, s', trace) := UseSerialPort.connect baudRate p s in
    r = inr tt /\
    UseSerial.port s' = UseSerial.port s /\
    UseSerial.reader s' = UseSerial.reader s /\
    match UseSerial.port s with
    | None =>
        s' = UseSerial.set_error (Some "No port selected") s /\ trace = []
    | Some pt =>
        hd_error trace = Some (UseSerialPort.PortOpen pt b) /\
        (UseSerial.isConnected s' = true <-> UseSerial.error s' = None) /\
        match UseSerialPort.port_open p pt b with
        | inl e =>
            UseSerial.writer s' = UseSerial.writer s /\
            UseSerial.error s' = Some (message_or e "Failed to connect") /\
            ~ In (UseSerialPort.GetWriter pt) trace
        | inr _ =>
            if UseSerialPort.port_writable p pt
            then
              match UseSerialPort.getWriter p pt with
              | inl e =>
                  UseSerial.isConnected s' = false /\
                  UseSerial.writer s' = UseSerial.writer s /\
                  UseSerial.error s' = Some (message_or e "Failed to connect")
              | inr w => UseSerial.writer s' = Some w
              end
            else
              UseSerial.isConnected s' = true /\
              UseSerial.writer s' = UseSerial.writer s
        end
    end.
Proof.
  intros p s baudRate b.
  destruct (UseSerial.port s) as [pt|] eqn:Hp.
  - rewrite (connect_with_port p s baudRate pt Hp). fold b.
    destruct s as [pt0 co er rd w]. cbn in Hp. subst pt0.
    destruct (UseSerialPort.port_open p pt b) as [e|[]]; cbn.
    + repeat apply conj; try reflexivity; try discriminate.
      intros [H|[H|[]]]; discriminate H.
    + destruct (UseSerialPort.port_writable p pt); cbn.
      * destruct (UseSerialPort.getWriter p pt) as [e|w']; cbn;
          repeat apply conj; try reflexivity; discriminate.
      * repeat apply conj; reflexivity.
  - destruct s as [pt0 co er rd w]. cbn in Hp. subst pt0.
    unfold UseSerialPort.connect. unfold_async. cbn.
    repeat apply conj; reflexivity.
Qed.

(** X21. A whole session of useSerial.ts on a platform that rejects
    nothing: [requestPort], [connect], [write], [disconnect], from the
    state [useSerial()] starts in. The platform sees, in this order, the
    chooser, [open] at 115200 baud, [getWriter], one write of the UTF-8
    bytes of the text, the writer closed and the port closed; the composable
    ends in the state it started in, so the session can be repeated. *)
Theorem session_ends_where_it_started :
  forall p data pt w,
    UseSerialPort.serial_in_navigator p = true ->
    UseSerialPort.navigator_serial_requestPort p = inr pt ->
    UseSerialPort.port_open p pt 115200 = inr tt ->
    UseSerialPort.port_writable p pt = true ->
    UseSerialPort.getWriter p pt = inr w ->
    UseSerial.writer_write (UseSerialPort.composable p) w
      (Encoding.TextEncoder_encode data) = inr tt ->
    UseSerial.writer_close (UseSerialPort.composable p) w = inr tt ->
    UseSerial.port_close (UseSerialPort.composable p) pt = inr tt ->
    bind UseSerialPort.requestPort (fun _ =>
    bind (UseSerialPort.connect None) (fun _ =>
    bind (UseSerialPort.write data) (fun _ =>
    UseSerialPort.disconnect))) p UseSerialPort.initial =
    (inr tt, UseSerialPort.initial,
     [UseSerialPort.RequestPort;
      UseSerialPort.PortOpen pt 115200;
      UseSerialPort.GetWriter pt;
      UseSerialPort.Composable
        (UseSerial.WriterWrite w (Encoding.TextEncoder_encode data));
      UseSerialPort.Composable (UseSerial.WriterClose w);
      UseSerialPort.Composable (UseSerial.PortClose pt)]).
Proof.
  intros [c sup req op wr gw] data pt w. cbn.
  intros Hsup Hreq Hop Hwr Hgw Hww Hwc Hpc. subst sup req.
  unfold UseSerialPort.requestPort, UseSerialPort.connect,
    UseSerialPort.write, UseSerialPort.disconnect, UseSerial.write,
    UseSerial.disconnect, UseSerialPort.initial.
  unfold_async. cbn.
  rewrite Hop. cbn. rewrite Hwr. cbn. rewrite Hgw. cbn.
  rewrite Hww. cbn. rewrite Hwc. cbn. rewrite Hpc. cbn.
  reflexivity.
Qed.

Lemma session_ends_where_it_started_witness :
  bind UseSerialPort.requestPort (fun _ =>
  bind (UseSerialPort.connect None) (fun _ =>
  bind (UseSerialPort.write (lit "AT")) (fun _ =>
  UseSerialPort.disconnect)))
    (UseSerialPort.Platform
       (UseSerial.Platform (fun _ => inr tt) (fun _ => inr tt)
          (fun _ => inr tt) (fun _ _ => inr tt))
       true (inr 1%nat) (fun _ _ => inr tt) (fun _ => true)
       (fun _ => inr 2%nat))
    UseSerialPort.initial =
  (inr tt, UseSerialPort.initial,
   [UseSerialPort.RequestPort;
    UseSerialPort.PortOpen 1%nat 115200;
    UseSerialPort.GetWriter 1%nat;
    UseSerialPort.Composable
      (UseSerial.WriterWrite 2%nat (Encoding.TextEncoder_encode (lit "AT")));
    UseSerialPort.Composable (UseSerial.WriterClose 2%nat);
    UseSerialPort.Composable (UseSerial.PortClose 1%nat)]).
Proof.
  apply (session_ends_where_it_started
           (UseSerialPort.Platform
              (UseSerial.Platform (fun _ => inr tt) (fun _ => inr tt)
                 (fun _ => inr tt) (fun _ _ => inr tt))
              true (inr 1%nat) (fun _ _ => inr tt) (fun _ => true)
              (fun _ => inr 2%nat))
           (lit "AT") 1%nat 2%nat); reflexivity.
Defined.

(** X22. [requestPort] of the SerialManager variant never throws. When Web
    Serial is in the navigator it creates the manager only if none exists
    yet (an existing one is kept), always reaches the manager's chooser with
    that manager, and stores the port or records the rejection's message;
    the check after [initManager] never fires. Without Web Serial neither a
    manager is created nor a chooser opened. *)
Theorem manager_requestPort_creates_the_manager_once :
  forall p s,
    let '(r, s', trace) := UseSerialManagerPort.requestPort p s in
    r = inr tt /\
    UseSerialManager.isConnected s' = UseSerialManager.isConnected s /\
    UseSerialManager.reader s' = UseSerialManager.reader s /\
    if UseSerialManagerPort.serial_in_navigator p
    then
      let m := match UseSerialManager.manager s with
               | Some m => m
               | None => UseSerialManagerPort.new_SerialManager p
               end in
      UseSerialManager.manager s' = Some m /\
      (In (UseSerialManagerPort.NewSerialManager false) trace <->
       UseSerialManager.manager s = None) /\
      In (UseSerialManagerPort.RequestPort m) trace /\
      match UseSerialManagerPort.manager_requestPort p m with
      | inr pt =>
          UseSerialManager.port s' = Some pt /\
          UseSerialManager.error s' = None
      | inl e =>
          UseSerialManager.port s' = UseSerialManager.port s /\
          UseSerialManager.error s' =
            Some (message_or e "Failed to request port")
      end
    else
      UseSerialManager.manager s' = UseSerialManager.manager s /\
      UseSerialManager.port s' = UseSerialManager.port s /\
      UseSerialManager.error s' =
        Some "Web Serial API not supported in this browser" /\
      trace =
        [UseSerialManagerPort.Composable
           (UseSerialManager.ConsoleError "Port request failed:"
              (ErrorObject "Error"
                 "Web Serial API not supported in this browser"))].
Proof.
  intros [c sup new req op] [m pt co er rd].
  unfold UseSerialManagerPort.requestPort, UseSerialManagerPort.initManager.
  unfold_async. cbn.
  destruct sup; cbn; [|repeat apply conj; reflexivity].
  destruct m as [m|]; cbn.
  - destruct (req m) as [e|pt']; cbn; repeat apply conj;
      try reflexivity; try (left; reflexivity);
      try (intros [H|[H|[]]]; discriminate H);
      try (intros [H|[]]; discriminate H); discriminate.
  - destruct (req new) as [e|pt']; cbn; repeat apply conj;
      try reflexivity; try (left; reflexivity);
      try (right; left; reflexivity); intros _; left; reflexivity.
Qed.

(** X23. [connect] of the SerialManager variant never throws and changes
    only [error] and [isConnected]. It needs both the manager and the
    port: without either it records 'No port selected' and calls nothing.
    Otherwise it makes one [openPort] call at the given baud rate (115200
    by default) and ends with [isConnected] true exactly when that call
    resolved, which is exactly when no error is recorded; a rejected call
    on a session that was connected leaves it marked not connected. *)
Theorem manager_connect_needs_manager_and_port :
  forall p s baudRate,
    let b := match baudRate with Some b => b | None => 115200%Z end in
    let '(r, s', trace) := UseSerialManagerPort.connect baudRate p s in
    r = inr tt /\
    UseSerialManager.manager s' = UseSerialManager.manager s /\
    UseSerialManager.port s' = UseSerialManager.port s /\
    UseSerialManager.reader s' = UseSerialManager.reader s /\
    match UseSerialManager.manager s, UseSerialManager.port s with
    | Some m, Some _ =>
        hd_error trace = Some (UseSerialManagerPort.OpenPort m b) /\
        (UseSerialManager.isConnected s' = true <->
         UseSerialManager.error s' = None) /\
        (UseSerialManager.isConnected s' = true <->
         UseSerialManagerPort.manager_openPort p m b = inr tt) /\
        forall e, UseSerialManagerPort.manager_openPort p m b = inl e ->
                  UseSerialManager.error s' =
                    Some (message_or e "Failed to connect")
    | _, _ =>
        s' = UseSerialManager.set_error (Some "No port selected") s /\
        trace = []
    end.
Proof.
  intros [c sup new req op] [m pt co er rd] baudRate b.
  unfold UseSerialManagerPort.connect. unfold_async. cbn.
  destruct m as [m|]; cbn; [|repeat apply conj; reflexivity].
  destruct pt as [pt|]; cbn; [|repeat apply conj; reflexivity].
  fold b. destruct (op m b) as [e|[]] eqn:E; cbn;
    repeat apply conj; try reflexivity; try discriminate.
  intros e' H. injection H as <-. reflexivity.
Qed.

End SerialPortFacts.


(** * Part V: the rest of the Bluetooth composable, and sending *)

Module BluetoothDeviceFacts.
Import JS Async AsyncMore.
Local Open Scope string_scope.

Ltac unfold_async :=
  unfold try_catch, bind, gets, modify, await, perform, observe, throw,
    when_some, deref, UseBluetooth.deref, lift, ret.

Ltac unfold_composable :=
  unfold UseBluetoothDevice.requestDevice, UseBluetoothDevice.initManager,
    UseBluetoothDevice.getServices, UseBluetoothDevice.getCharacteristics,
    UseBluetoothDevice.writeValue, UseBluetoothDevice.readValue,
    UseBluetoothDevice.connect, UseBluetoothDevice.disconnect,
    UseBluetoothDevice.selectService, UseBluetoothDevice.selectCharacteristic,
    UseBluetoothDevice.startNotifications, UseBluetoothDevice.invoke,
    UseBluetooth.connect, UseBluetooth.disconnect,
    UseBluetooth.selectService, UseBluetooth.selectCharacteristic,
    UseBluetooth.startNotifications, UseBluetooth.invoke.

(** X24. [requestDevice] never throws and changes only [manager], [device]
    and [error]. A manager that exists is kept and no other is built; when
    none exists the constructor is called first, once. When the constructor
    throws, the manager stays null, the chooser is not reached, the device
    selected before is kept and the constructor's message is the last
    error. Otherwise the manager is the old or the new one and the chooser
    is reached with it (the check after [initManager] does not fire) and
    with the options given, or [{ acceptAllDevices: true }] when none are
    given: the device the chooser resolves with is stored, and when the
    chooser rejects, the device selected before is kept and the rejection's
    message is recorded. *)
Theorem requestDevice_creates_the_manager_once :
  forall p s options,
    let '(r, s', trace) := UseBluetoothDevice.requestDevice options p s in
    let o := match options with
             | Some o => o
             | None => UseBluetoothDevice.Options None None (Some true)
             end in
    let reaches_the_chooser m :=
      UseBluetooth.manager s' = Some m /\
      In (UseBluetoothDevice.RequestDevice m o) trace /\
      match UseBluetoothDevice.manager_requestDevice p m o with
      | inr d =>
          UseBluetooth.device s' = Some d /\ UseBluetooth.error s' = None
      | inl e =>
          UseBluetooth.device s' = UseBluetooth.device s /\
          UseBluetooth.error s' =
            Some (message_or e "Failed to request device")
      end in
    r = inr tt /\
    UseBluetooth.isConnected s' = UseBluetooth.isConnected s /\
    UseBluetooth.services s' = UseBluetooth.services s /\
    UseBluetooth.currentService s' = UseBluetooth.currentService s /\
    UseBluetooth.currentCharacteristic s' =
      UseBluetooth.currentCharacteristic s /\
    match UseBluetooth.manager s with
    | Some m =>
        ~ In (UseBluetoothDevice.NewBluetoothManager false) trace /\
        reaches_the_chooser m
    | None =>
        hd_error trace = Some (UseBluetoothDevice.NewBluetoothManager false) /\
        ~ In (UseBluetoothDevice.NewBluetoothManager false) (tl trace) /\
        match UseBluetoothDevice.new_BluetoothManager p with
        | inr m => reaches_the_chooser m
        | inl e =>
            UseBluetooth.manager s' = None /\
            UseBluetooth.device s' = UseBluetooth.device s /\
            UseBluetooth.error s' =
              Some (message_or e "Failed to request device") /\
            forall m o', ~ In (UseBluetoothDevice.RequestDevice m o') trace
        end
    end.
Proof.
  intros [c new req gs gc wv gv] [m d co er svcs svc ch] options.
  unfold_composable. unfold_async. cbn.
  destruct m as [m|]; cbn.
  - destruct (req m _) as [e|d']; cbn; repeat apply conj;
      try reflexivity; try (left; reflexivity);
      try (intros [H|[H|[]]]; discriminate H);
      intros [H|[]]; discriminate H.
  - destruct new as [e|m]; cbn.
    + repeat apply conj; try reflexivity.
      * intros [H|[]]. discriminate H.
      * intros m o' [H|[H|[]]]; discriminate H.
    + destruct (req m _) as [e|d']; cbn; repeat apply conj;
        try reflexivity; try (right; left; reflexivity);
        try (intros [H|[H|[]]]; discriminate H);
        intros [H|[]]; discriminate H.
Qed.

(** X25. [selectService] never throws and changes only [error] and
    [currentService]: the characteristic selected under the previous
    service stays selected. Without a manager it records 'Not connected to
    a device' and calls nothing. With one it makes one [getService] call
    for the identifier it was given: the service it resolves with becomes
    the selected one, and when it rejects the service selected before is
    kept and the rejection's message is recorded. *)
Theorem selectService_keeps_the_selected_characteristic :
  forall p s serviceUuid,
    let '(r, s', trace) := UseBluetooth.selectService serviceUuid p s in
    r = inr tt /\
    UseBluetooth.manager s' = UseBluetooth.manager s /\
    UseBluetooth.device s' = UseBluetooth.device s /\
    UseBluetooth.isConnected s' = UseBluetooth.isConnected s /\
    UseBluetooth.services s' = UseBluetooth.services s /\
    UseBluetooth.currentCharacteristic s' =
      UseBluetooth.currentCharacteristic s /\
    match UseBluetooth.manager s with
    | None =>
        UseBluetooth.currentService s' = UseBluetooth.currentService s /\
        UseBluetooth.error s' = Some "Not connected to a device" /\
        trace = []
    | Some m =>
        hd_error trace = Some (UseBluetooth.GetService m serviceUuid) /\
        match UseBluetooth.getService p m serviceUuid with
        | inr svc =>
            UseBluetooth.currentService s' = Some svc /\
            UseBluetooth.error s' = None /\
            trace = [UseBluetooth.GetService m serviceUuid]
        | inl e =>
            UseBluetooth.currentService s' = UseBluetooth.currentService s /\
            UseBluetooth.error s' =
              Some (message_or e "Failed to select service")
        end
    end.
Proof.
  intros p [m d co er svcs svc ch] serviceUuid.
  unfold_composable. unfold_async. cbn.
  destruct m as [m|]; cbn; [|repeat apply conj; reflexivity].
  destruct (UseBluetooth.getService p m serviceUuid) as [e|svc']; cbn;
    repeat apply conj; reflexivity.
Qed.

(** X26. [disconnect] of useBluetooth never throws, keeps the manager, and
    calls [gatt.disconnect()] exactly when a device is held and its GATT
    server is connected. It is all or nothing: either every ref but the
    manager is back at its starting value, with no error, or
    [gatt.disconnect()] threw and nothing but [error] changed, so the
    device, the selection and [isConnected] are what they were. *)
Theorem disconnect_resets_everything_or_only_records_the_error :
  forall p s,
    let '(r, s', trace) := UseBluetooth.disconnect p s in
    r = inr tt /\
    UseBluetooth.manager s' = UseBluetooth.manager s /\
    (forall d,
       In (UseBluetooth.GattDisconnect d) trace <->
       UseBluetooth.device s = Some d /\
       UseBluetooth.gatt_connected p d = true) /\
    (s' = UseBluetooth.State (UseBluetooth.manager s) None false None []
            None None \/
     exists d e,
       UseBluetooth.device s = Some d /\
       UseBluetooth.gatt_connected p d = true /\
       UseBluetooth.gatt_disconnect p d = inl e /\
       s' = UseBluetooth.set_error
              (Some (message_or e "Failed to disconnect")) s).
Proof.
  intros p [m d co er svcs svc ch].
  unfold_composable. unfold_async. cbn.
  destruct d as [d|]; cbn.
  - destruct (UseBluetooth.gatt_connected p d) eqn:Hc; cbn.
    + destruct (UseBluetooth.gatt_disconnect p d) as [e|[]] eqn:Hd; cbn;
        repeat apply conj; try reflexivity.
      * intros d'. split.
        -- intros [H|[H|[]]]; [|discriminate H].
           injection H as <-. split; [reflexivity|exact Hc].
        -- intros [H _]. injection H as <-. left. reflexivity.
      * right. exists d, e. repeat apply conj;
          first [reflexivity | assumption].
      * intros d'. split.
        -- intros [H|[]]. injection H as <-. split; [reflexivity|exact Hc].
        -- intros [H _]. injection H as <-. left. reflexivity.
      * left. reflexivity.
    + repeat apply conj; try reflexivity.
      * intros d'. split; [intros []|].
        intros [H Hc']. injection H as <-. rewrite Hc in Hc'. discriminate.
      * left. reflexivity.
  - repeat apply conj; try reflexivity.
    + intros d'. split; [intros []|]. intros [H _]. discriminate H.
    + left. reflexivity.
Qed.

(** X27. A whole Bluetooth session on a platform that rejects nothing:
    [requestDevice], [connect], [selectService], [selectCharacteristic],
    [writeValue], [disconnect], from the state [useBluetooth()] starts in.
    The platform sees, in this order, the manager created, the chooser with
    [{ acceptAllDevices: true }], [connectToServer] with the two listeners
    of [connect], the service lookup, the characteristic lookup with the
    logging listener, one write of the data as given, and
    [gatt.disconnect()]. The composable ends in its starting state except
    that it keeps the manager. *)
Theorem bluetooth_session_ends_with_only_the_manager :
  forall p serviceUuid charUuid data m d svc c,
    let o := UseBluetoothDevice.Options None None (Some true) in
    UseBluetoothDevice.new_BluetoothManager p = inr m ->
    UseBluetoothDevice.manager_requestDevice p m o = inr d ->
    UseBluetooth.connectToServer (UseBluetoothDevice.composable p) m
      UseBluetooth.OnDisconnected UseBluetooth.OnServiceAdded = inr tt ->
    UseBluetooth.getService (UseBluetoothDevice.composable p) m serviceUuid =
      inr svc ->
    UseBluetooth.getCharacteristic (UseBluetoothDevice.composable p) m
      charUuid UseBluetooth.LogValueChanged = inr c ->
    UseBluetoothDevice.manager_writeValue p m data = inr tt ->
    UseBluetooth.gatt_connected (UseBluetoothDevice.composable p) d = true ->
    UseBluetooth.gatt_disconnect (UseBluetoothDevice.composable p) d =
      inr tt ->
    bind (UseBluetoothDevice.requestDevice None) (fun _ =>
    bind UseBluetoothDevice.connect (fun _ =>
    bind (UseBluetoothDevice.selectService serviceUuid) (fun _ =>
    bind (UseBluetoothDevice.selectCharacteristic charUuid None) (fun _ =>
    bind (UseBluetoothDevice.writeValue data) (fun _ =>
    UseBluetoothDevice.disconnect))))) p UseBluetoothDevice.initial =
    (inr tt,
     UseBluetooth.State (Some m) None false None [] None None,
     [UseBluetoothDevice.NewBluetoothManager false;
      UseBluetoothDevice.RequestDevice m o;
      UseBluetoothDevice.Composable
        (UseBluetooth.ConnectToServer m UseBluetooth.OnDisconnected
           UseBluetooth.OnServiceAdded);
      UseBluetoothDevice.Composable (UseBluetooth.GetService m serviceUuid);
      UseBluetoothDevice.Composable
        (UseBluetooth.GetCharacteristic m charUuid
           UseBluetooth.LogValueChanged);
      UseBluetoothDevice.WriteValue m data;
      UseBluetoothDevice.Composable (UseBluetooth.GattDisconnect d)]).
Proof.
  intros [cp new req gs gc wv gv] serviceUuid charUuid data m d svc c. cbn.
  intros Hnew Hreq Hcon Hsvc Hch Hwv Hgc Hgd. subst new.
  unfold_composable. unfold UseBluetoothDevice.initial. unfold_async. cbn.
  rewrite Hreq. cbn. rewrite Hcon. cbn. rewrite Hsvc. cbn.
  rewrite Hch. cbn. rewrite Hwv. cbn. rewrite Hgc. cbn. rewrite Hgd. cbn.
  reflexivity.
Qed.

Lemma bluetooth_session_ends_with_only_the_manager_witness :
  let svc := UseBluetooth.Service 3 "ffe0" in
  let c :=
    UseBluetooth.Characteristic 4 svc "ffe1"
      (UseBluetooth.Properties false true false true true false false false
         false) in
  let data := BleTransforms.stringToUint8Array (lit "AT") in
  let p :=
    UseBluetoothDevice.Platform
      (UseBluetooth.Platform (fun _ _ _ => inr tt) (fun _ _ => inr svc)
         (fun _ _ _ => inr c) (fun _ => true) (fun _ => inr tt)
         (fun _ => inr tt))
      (inr 1%nat) (fun _ _ => inr 2%nat) (fun _ => inr [svc])
      (fun _ => inr [c])
      (fun _ _ => inr tt) (fun _ => inl OtherValue) in
  bind (UseBluetoothDevice.requestDevice None) (fun _ =>
  bind UseBluetoothDevice.connect (fun _ =>
  bind (UseBluetoothDevice.selectService "ffe0") (fun _ =>
  bind (UseBluetoothDevice.selectCharacteristic "ffe1" None) (fun _ =>
  bind (UseBluetoothDevice.writeValue data) (fun _ =>
  UseBluetoothDevice.disconnect))))) p UseBluetoothDevice.initial =
  (inr tt,
   UseBluetooth.State (Some 1%nat) None false None [] None None,
   [UseBluetoothDevice.NewBluetoothManager false;
    UseBluetoothDevice.RequestDevice 1%nat
      (UseBluetoothDevice.Options None None (Some true));
    UseBluetoothDevice.Composable
      (UseBluetooth.ConnectToServer 1%nat UseBluetooth.OnDisconnected
         UseBluetooth.OnServiceAdded);
    UseBluetoothDevice.Composable (UseBluetooth.GetService 1%nat "ffe0");
    UseBluetoothDevice.Composable
      (UseBluetooth.GetCharacteristic 1%nat "ffe1"
         UseBluetooth.LogValueChanged);
    UseBluetoothDevice.WriteValue 1%nat data;
    UseBluetoothDevice.Composable (UseBluetooth.GattDisconnect 2%nat)]).
Proof.
  intros svc c data p.
  apply (bluetooth_session_ends_with_only_the_manager p "ffe0" "ffe1" data
           1%nat 2%nat svc c); reflexivity.
Defined.

(** X28. After the platform has called the disconnect listener of
    [connect], in any state: [getCharacteristics], [selectCharacteristic],
    [writeValue], [readValue], [startNotifications] and [connect] call
    nothing and only record their fixed message ([getCharacteristics]
    returns the empty list, [readValue] null). [getServices] and
    [selectService] look at the manager alone, which the listener keeps, so
    with a manager they still call it. *)
Theorem after_remote_disconnect_only_the_manager_is_still_used :
  forall p s,
    let s1 :=
      snd (fst (UseBluetoothDevice.invoke UseBluetooth.OnDisconnected p s)) in
    UseBluetoothDevice.getCharacteristics p s1 =
      (inr [], UseBluetooth.set_error (Some "No service selected") s1, []) /\
    (forall charUuid cb,
       UseBluetoothDevice.selectCharacteristic charUuid cb p s1 =
         (inr tt, UseBluetooth.set_error (Some "No service selected") s1,
          [])) /\
    (forall data,
       UseBluetoothDevice.writeValue data p s1 =
         (inr tt,
          UseBluetooth.set_error (Some "No characteristic selected") s1,
          [])) /\
    UseBluetoothDevice.readValue p s1 =
      (inr None,
       UseBluetooth.set_error (Some "No characteristic selected") s1, []) /\
    (forall cb,
       UseBluetoothDevice.startNotifications cb p s1 =
         (inr tt,
          UseBluetooth.set_error (Some "No characteristic selected") s1,
          [])) /\
    UseBluetoothDevice.connect p s1 =
      (inr tt, UseBluetooth.set_error (Some "No device selected") s1, []) /\
    (forall m,
       UseBluetooth.manager s = Some m ->
       hd_error (snd (UseBluetoothDevice.getServices p s1)) =
         Some (UseBluetoothDevice.GetServices m) /\
       forall serviceUuid,
         hd_error (snd (UseBluetoothDevice.selectService serviceUuid p s1)) =
           Some (UseBluetoothDevice.Composable
                   (UseBluetooth.GetService m serviceUuid))).
Proof.
  intros [cp new req gs gc wv gv] [m d co er svcs svc ch].
  unfold_composable. unfold_async. cbn.
  repeat apply conj; try reflexivity.
  - destruct m; reflexivity.
  - intros. destruct m; reflexivity.
  - intros. destruct m; reflexivity.
  - destruct m; reflexivity.
  - destruct m; reflexivity.
  - intros m' [= ->]. cbn. split.
    + destruct (gs m') as [e|l]; reflexivity.
    + intros u. destruct (UseBluetooth.getService cp m' u); reflexivity.
Qed.

(** X29. [writeValue] and [readValue] never throw and change only [error].
    Each needs a manager and a selected characteristic; without either it
    records 'No characteristic selected' and calls nothing ([readValue]
    returns null). Otherwise it makes exactly one call to the manager:
    [writeValue] passes the data as given, and [readValue] returns the
    value the manager resolves with, or null with the rejection's message
    recorded. *)
Theorem writeValue_and_readValue_go_through_the_manager :
  forall p s data,
    (let '(r, s', trace) := UseBluetoothDevice.writeValue data p s in
     r = inr tt /\
     (exists msg, s' = UseBluetooth.set_error msg s) /\
     match UseBluetooth.manager s, UseBluetooth.currentCharacteristic s with
     | Some m, Some _ =>
         hd_error trace = Some (UseBluetoothDevice.WriteValue m data) /\
         (forall m' data',
            In (UseBluetoothDevice.WriteValue m' data') (tl trace) -> False) /\
         UseBluetooth.error s' =
           match UseBluetoothDevice.manager_writeValue p m data with
           | inr _ => None
           | inl e => Some (message_or e "Failed to write value")
           end
     | _, _ =>
         UseBluetooth.error s' = Some "No characteristic selected" /\
         trace = []
     end) /\
    (let '(r, s', trace) := UseBluetoothDevice.readValue p s in
     (exists msg, s' = UseBluetooth.set_error msg s) /\
     match UseBluetooth.manager s, UseBluetooth.currentCharacteristic s with
     | Some m, Some _ =>
         hd_error trace = Some (UseBluetoothDevice.GetValue m) /\
         match UseBluetoothDevice.manager_getValue p m with
         | inr v => r = inr (Some v) /\ UseBluetooth.error s' = None
         | inl e =>
             r = inr None /\
             UseBluetooth.error s' = Some (message_or e "Failed to read value")
         end
     | _, _ =>
         r = inr None /\
         UseBluetooth.error s' = Some "No characteristic selected" /\
         trace = []
     end).
Proof.
  intros [cp new req gs gc wv gv] [m d co er svcs svc ch] data.
  unfold_composable. unfold_async. cbn.
  destruct m as [m|], ch as [ch|]; cbn;
    try (split; repeat apply conj; try reflexivity; eexists; reflexivity).
  split.
  - destruct (wv m data) as [e|[]]; cbn; repeat apply conj;
      try reflexivity; try (eexists; reflexivity).
    + intros m' data' [H|[]]. discriminate H.
    + intros m' data' [].
  - destruct (gv m) as [e|v]; cbn; repeat apply conj;
      try reflexivity; eexists; reflexivity.
Qed.

End BluetoothDeviceFacts.

Module SendFacts.
Import JS Async AsyncMore.
Local Open Scope string_scope.

Ltac unfold_async :=
  unfold try_catch, bind, gets, modify, await, perform, observe, throw,
    when_some, deref, lift, ret.

(** X30. [sendMessage] of the serial and Bluetooth App.vue never throws.
    An input that is blank after trimming changes nothing and sends
    nothing. Otherwise the input field is emptied, and the bytes that leave
    are the UTF-8 encoding of the input followed by a line feed, once, on
    the selected transport only: over serial when the composable holds a
    manager and is connected, over Bluetooth when it holds a manager and a
    characteristic is selected. With Bluetooth selected and no
    characteristic, nothing is sent and no error is recorded, yet the input
    is emptied. *)
Theorem sendMessage_sends_the_same_bytes_on_either_transport :
  forall p s,
    let '(r, s', trace) := AppBle.sendMessage p s in
    let payload :=
      Encoding.TextEncoder_encode (AppBle.inputMessage s ++ [NL])%list in
    r = inr tt /\
    AppBle.connectionType s' = AppBle.connectionType s /\
    if truthy (App.trim (AppBle.inputMessage s))
    then
      AppBle.inputMessage s' = [] /\
      match AppBle.connectionType s with
      | AppBle.serial =>
          AppBle.useBluetooth_refs s' = AppBle.useBluetooth_refs s /\
          AppBle.sent trace =
            match UseSerialManager.manager (AppBle.useSerial_refs s),
                  UseSerialManager.isConnected (AppBle.useSerial_refs s) with
            | Some _, true => [payload]
            | _, _ => []
            end
      | AppBle.ble =>
          AppBle.useSerial_refs s' = AppBle.useSerial_refs s /\
          match UseBluetooth.currentCharacteristic
                  (AppBle.useBluetooth_refs s) with
          | None =>
              trace = [] /\
              AppBle.useBluetooth_refs s' = AppBle.useBluetooth_refs s
          | Some _ =>
              AppBle.sent trace =
                match UseBluetooth.manager (AppBle.useBluetooth_refs s) with
                | Some _ => [payload]
                | None => []
                end
          end
      end
    else s' = s /\ trace = [].
Proof.
  intros [[rc cp wd] [cpb new req gs gc wv gv]]
         [type [m pt co er rd] [bm d bco ber svcs svc ch] input].
  unfold AppBle.sendMessage, AppBle.useSerial, AppBle.useBluetooth,
    UseSerialManager.write, UseBluetoothDevice.writeValue.
  unfold_async. cbn [AppBle.inputMessage].
  destruct (truthy (App.trim input)) eqn:Ht; cbn;
    [|repeat apply conj; reflexivity].
  destruct type; cbn.
  - destruct m as [m|]; cbn; [|repeat apply conj; reflexivity].
    destruct co; cbn; [|repeat apply conj; reflexivity].
    destruct (wd m _) as [e|[]]; cbn; repeat apply conj; reflexivity.
  - destruct ch as [ch|]; cbn; [|repeat apply conj; reflexivity].
    destruct bm as [bm|]; cbn; [|repeat apply conj; reflexivity].
    destruct (wv bm _) as [e|[]]; cbn; repeat apply conj;
      try reflexivity;
      unfold BleTransforms.u8_contents; cbn; rewrite firstn_all;
      reflexivity.
Qed.

End SendFacts.
